(** * beatbully: the real-time analysis and sample-triggering engine

    A shallow embedding of [src/audioUtils.ts]: the spectral feature
    extractor ([AudioContextAnalyzer]), the streaming buffer aggregator
    ([ContextAwareLyriaSession]), the compatibility scorer and the trigger
    scheduler ([SmartSampleTrigger]) and the playback sink ([AudioMixer]).

    Numbers.  A JavaScript [number] is an IEEE-754 binary64 value, which is
    what Rocq's primitive [float] is, with the same round-to-nearest-even
    arithmetic; scores, energies, densities and durations are [float]s.
    Quantities that the program only ever holds as integers (pitch classes,
    semitone shifts, buffer lengths in sample frames, millisecond
    timestamps from [Date.now()]) are [Z]: binary64 is exact on integers
    below 2^53, far above anything these reach.

    Strings.  A JavaScript string is modelled by [string]; case conversion
    is the ASCII one, the other code units are left unchanged.

    Effects.  The Web Audio objects and the clock are outside the program:
    what they deliver is an explicit input ([AudioEnv], [AnalyserFrames],
    [Clock]); what the program does to them is logged in the [World]. *)

From Stdlib Require Import ZArith Floats String Ascii List Bool Lia.
From stdpp Require Import gmap strings list.
From stdpp Require Import sorting pretty.

Set Warnings "-inexact-float".

Local Open Scope Z_scope.

(** ** The JavaScript operations the engine uses *)

Module JS.

(** *** Strings *)

Definition upperChar (c : ascii) : ascii :=
  let n := nat_of_ascii c in
  if ((97 <=? n)%nat && (n <=? 122)%nat)%bool then ascii_of_nat (n - 32) else c.

Definition lowerChar (c : ascii) : ascii :=
  let n := nat_of_ascii c in
  if ((65 <=? n)%nat && (n <=? 90)%nat)%bool then ascii_of_nat (n + 32) else c.

Fixpoint toUpperCase (s : string) : string :=
  match s with
  | EmptyString => EmptyString
  | String c t => String (upperChar c) (toUpperCase t)
  end.

Fixpoint toLowerCase (s : string) : string :=
  match s with
  | EmptyString => EmptyString
  | String c t => String (lowerChar c) (toLowerCase t)
  end.

(** [s.startsWith(p)] *)
Fixpoint startsWith (p s : string) : bool :=
  match p, s with
  | EmptyString, _ => true
  | String _ _, EmptyString => false
  | String a p', String b s' => (Ascii.eqb a b && startsWith p' s')%bool
  end.

(** [s.includes(sub)] *)
Fixpoint includes (sub s : string) : bool :=
  (startsWith sub s ||
   match s with
   | EmptyString => false
   | String _ t => includes sub t
   end)%bool.

Fixpoint reverse (acc s : string) : string :=
  match s with
  | EmptyString => acc
  | String c t => reverse (String c acc) t
  end.

(** [s.endsWith(suf)] *)
Definition endsWith (suf s : string) : bool :=
  startsWith (reverse EmptyString suf) (reverse EmptyString s).

(** [s.charAt(i)]: the one-character string at [i], empty out of range. *)
Definition charAt (i : nat) (s : string) : string :=
  match String.get i s with
  | Some c => String c EmptyString
  | None => EmptyString
  end.

Fixpoint dropChars (n : nat) (s : string) : string :=
  match n, s with
  | O, _ => s
  | S _, EmptyString => EmptyString
  | S k, String _ t => dropChars k t
  end.

(** [s.replace(pat, rep)] with a string pattern: the first occurrence
    only.  The replacement texts of the program hold no [$]. *)
Fixpoint replaceFirst (pat rep s : string) : string :=
  if startsWith pat s then String.append rep (dropChars (String.length pat) s)
  else match s with
       | EmptyString => EmptyString
       | String c t => String c (replaceFirst pat rep t)
       end.

(** [s.replace(/pat/g, rep)] for a literal, non-empty [pat]: every
    occurrence, left to right, without overlap.  [skip] counts the
    characters of a match still to be passed over. *)
Fixpoint replaceAllFrom (pat rep : string) (skip : nat) (s : string) : string :=
  match s with
  | EmptyString => EmptyString
  | String c t =>
      match skip with
      | S k => replaceAllFrom pat rep k t
      | O =>
          if startsWith pat s
          then String.append rep (replaceAllFrom pat rep (String.length pat - 1) t)
          else String c (replaceAllFrom pat rep 0 t)
      end
  end.

Definition replaceAll (pat rep s : string) : string := replaceAllFrom pat rep 0 s.

(** [arr.indexOf(x)] on an array of strings: the first index, or -1. *)
Fixpoint indexOfFrom (i : Z) (arr : list string) (x : string) : Z :=
  match arr with
  | [] => -1
  | y :: rest => if String.eqb y x then i else indexOfFrom (i + 1) rest x
  end.

Definition indexOf (arr : list string) (x : string) : Z := indexOfFrom 0 arr x.

(** [arr.includes(x)] on an array of strings. *)
Definition arrayIncludes (arr : list string) (x : string) : bool :=
  existsb (String.eqb x) arr.

(** Truthiness of an optional string: [undefined] and the empty string
    are falsy. *)
Definition truthy (s : option string) : bool :=
  match s with
  | Some (String _ _) => true
  | _ => false
  end.

(** *** Numbers *)

Local Open Scope float_scope.

Definition isNaN (x : float) : bool := negb (x =? x).

(** The sign bit, which tells -0 from +0. *)
Definition signBit (x : float) : bool :=
  match Prim2SF x with
  | S754_zero s | S754_infinity s | S754_finite s _ _ => s
  | S754_nan => false
  end.

(** [Math.max(a, b)]: NaN if either is, and +0 is larger than -0. *)
Definition Math_max (a b : float) : float :=
  if (isNaN a || isNaN b)%bool then nan
  else if a <? b then b
  else if b <? a then a
  else if signBit a then b else a.

(** [Math.min(a, b)]: NaN if either is, and -0 is smaller than +0. *)
Definition Math_min (a b : float) : float :=
  if (isNaN a || isNaN b)%bool then nan
  else if a <? b then a
  else if b <? a then b
  else if signBit a then a else b.

Definition Math_abs (x : float) : float := abs x.

(** The number that holds the integer [z], for [|z| < 2^63]. *)
Definition ofZ (z : Z) : float :=
  if (z <? 0)%Z then - of_uint63 (Uint63.of_Z (- z))
  else of_uint63 (Uint63.of_Z z).

(** [Math.fround]: the nearest binary32 value (what a store into a
    [Float32Array] keeps). *)
Definition Math_fround (x : float) : float :=
  match Prim2SF x with
  | S754_finite s m e => SF2Prim (binary_round 24 128 s m e)
  | _ => x
  end.

(** [Math.round(x)] as an integer: the floor of [x + 1/2]; [None] when
    [x] is NaN or infinite (the result is then no integer). *)
Definition Math_round (x : float) : option Z :=
  match Prim2SF x with
  | S754_zero _ => Some 0%Z
  | S754_finite s m e =>
      let v := if s then Z.neg m else Z.pos m in
      Some (if (0 <=? e)%Z then Z.shiftl v e
            else Z.shiftr (Z.shiftl v 1 + Z.shiftl 1 (- e)) (- e + 1))%Z
  | _ => None
  end.

(** The library functions whose results the language leaves to the
    implementation. *)
Class MathLib := {
  Math_pow : float -> float -> float;
  Math_log2 : float -> float;
  Math_sqrt : float -> float;
}.

End JS.

Import JS.

(** ** Data model *)

(** What an [await] or a call can come back with. *)
Inductive Completion (A : Type) : Type :=
| Normal (a : A)
| Throw (err : string).
Arguments Normal {A} a.
Arguments Throw {A} err.

(** A decoded block of PCM audio (the Web Audio [AudioBuffer]): [length]
    counts sample frames, [duration] is in seconds. *)
Record AudioBuffer := {
  length : N;
  numberOfChannels : N;
  sampleRate : float;
  duration : float;
  channelData : list (list float);
}.

(** [MusicalContext]: the feature snapshot of one analysis. *)
Record MusicalContext := {
  timestamp : Z;
  bpm : option float;
  beatDensity : option float;
  onsets : option (list bool);
  key : option string;
  scale : option string;
  energy : option float;
  dominantFrequencies : option (list float);
}.

(** [SampleAnalysis] (declared in the application's index file): the fields
    the engine reads, and [error], which decoding writes. *)
Record SampleAnalysis := {
  sampleKey : option string;
  sampleScale : option string;
  sampleType : option string;
  moodTags : option (list string);
  grooveDescription : option string;
  suggestedHipHopUses : option (list string);
  energyLevel : option float;
  minimumIntervalMs : option Z;
  error : option string;
}.

Record UserSample := {
  id : string;
  name : string;
  originalFile : option string;
  base64 : option string;
  audioBuffer : option AudioBuffer;
  metadata : SampleAnalysis;
}.

Record PlaybackConfig := {
  volume : option float;
  pitchShift : option Z;
  timingOffset : option float;
}.

Definition set_error (msg : string) (m : SampleAnalysis) : SampleAnalysis :=
  {| sampleKey := sampleKey m; sampleScale := sampleScale m; sampleType := sampleType m;
     moodTags := moodTags m; grooveDescription := grooveDescription m;
     suggestedHipHopUses := suggestedHipHopUses m; energyLevel := energyLevel m;
     minimumIntervalMs := minimumIntervalMs m; error := Some msg |}.

Definition set_metadata (m : SampleAnalysis) (s : UserSample) : UserSample :=
  {| id := id s; name := name s; originalFile := originalFile s; base64 := base64 s;
     audioBuffer := audioBuffer s; metadata := m |}.

Definition set_audioBuffer (b : AudioBuffer) (s : UserSample) : UserSample :=
  {| id := id s; name := name s; originalFile := originalFile s; base64 := base64 s;
     audioBuffer := Some b; metadata := metadata s |}.

(** ** The outside world *)

(** One line written to the console. *)
Inductive LogEntry :=
| Warn (msg : string)
| Error (msg : string).

(** A source node started on the audio graph by [playSample]. *)
Record PlayCommand := {
  cmdSample : UserSample;
  cmdGain : float;
  cmdPlaybackRate : option float;
  cmdStartOffset : float;
}.

(** What the platform answers: reading a [File], [atob], and
    [decodeAudioData] succeed with a value or throw; [graphFailure] is the
    exception, if any, that building and starting the source node raises. *)
Record AudioEnv := {
  fileArrayBuffer : string -> Completion (list Byte.byte);
  atob : string -> Completion (list Byte.byte);
  decodeAudioData : list Byte.byte -> Completion AudioBuffer;
  graphFailure : UserSample -> PlaybackConfig -> option string;
}.

(** [Date.now()]: the [k]-th reading of the clock, in milliseconds. *)
Definition Clock := nat -> Z.

(** The state the trigger scheduler runs in: its own fields ([samples],
    [lastTriggerTimes]), the number of clock readings taken, and the trace
    of what it did to the outside: the calls of the sink's [playSample]
    ([playCalls]), the source nodes started ([played]), the calls of the
    trigger callback ([triggered]) and the console. *)
Record World := {
  samples : list UserSample;
  lastTriggerTimes : gmap string Z;
  clockReads : nat;
  playCalls : list (nat * UserSample * PlaybackConfig);
  played : list PlayCommand;
  triggered : list (UserSample * MusicalContext * PlaybackConfig);
  console : list LogEntry;
}.

(** Computations that read and update the [World] and may throw; what was
    done before a throw stays done. *)
Definition M (A : Type) : Type := World -> World * Completion A.

#[global] Instance M_ret : MRet M := fun A a w => (w, Normal a).

#[global] Instance M_throw : MThrow string M := fun A err w => (w, Throw err).

#[global] Instance M_bind : MBind M :=
  fun A B k m w =>
    match m w with
    | (w', Normal a) => k a w'
    | (w', Throw e) => (w', Throw e)
    end.

Definition Date_now (clock : Clock) : M Z :=
  fun w =>
    ({| samples := samples w; lastTriggerTimes := lastTriggerTimes w;
        clockReads := S (clockReads w); playCalls := playCalls w; played := played w;
        triggered := triggered w; console := console w |},
     Normal (clock (clockReads w))).

Definition log (e : LogEntry) : M unit :=
  fun w =>
    ({| samples := samples w; lastTriggerTimes := lastTriggerTimes w;
        clockReads := clockReads w; playCalls := playCalls w; played := played w;
        triggered := triggered w; console := console w ++ [e] |},
     Normal tt).

Definition getSample (i : nat) : M (option UserSample) :=
  fun w => (w, Normal (samples w !! i)).

(** A write through a reference to the [i]-th sample object. *)
Definition setSample (i : nat) (s : UserSample) : M unit :=
  fun w =>
    ({| samples := <[i := s]> (samples w); lastTriggerTimes := lastTriggerTimes w;
        clockReads := clockReads w; playCalls := playCalls w; played := played w;
        triggered := triggered w; console := console w |},
     Normal tt).

(** A call of [playSample] on the [i]-th sample object, as it is then. *)
Definition call (i : nat) (s : UserSample) (c : PlaybackConfig) : M unit :=
  fun w =>
    ({| samples := samples w; lastTriggerTimes := lastTriggerTimes w;
        clockReads := clockReads w; playCalls := playCalls w ++ [(i, s, c)];
        played := played w;
        triggered := triggered w; console := console w |},
     Normal tt).

Definition start (c : PlayCommand) : M unit :=
  fun w =>
    ({| samples := samples w; lastTriggerTimes := lastTriggerTimes w;
        clockReads := clockReads w; playCalls := playCalls w; played := played w ++ [c];
        triggered := triggered w; console := console w |},
     Normal tt).

Definition notify (s : UserSample) (c : MusicalContext) (p : PlaybackConfig) : M unit :=
  fun w =>
    ({| samples := samples w; lastTriggerTimes := lastTriggerTimes w;
        clockReads := clockReads w; playCalls := playCalls w; played := played w;
        triggered := triggered w ++ [(s, c, p)]; console := console w |},
     Normal tt).

Definition getLastTriggerTime (sampleId : string) : M (option Z) :=
  fun w => (w, Normal (lastTriggerTimes w !! sampleId)).

Definition setLastTriggerTime (sampleId : string) (t : Z) : M unit :=
  fun w =>
    ({| samples := samples w; lastTriggerTimes := <[sampleId := t]> (lastTriggerTimes w);
        clockReads := clockReads w; playCalls := playCalls w; played := played w;
        triggered := triggered w; console := console w |},
     Normal tt).

(** ** AudioMixer *)

Module AudioMixer.
Section Mixer.
Context `{MathLib}.
Variable env : AudioEnv.

(** [decodeAndStoreAudioBuffer], on the [i]-th sample object.  The text
    of a caught exception is the message it carries. *)
Definition decodeAndStoreAudioBuffer (i : nat) (sample : UserSample) : M bool :=
  match audioBuffer sample with
  | Some _ => mret true
  | None =>
      arrayBuffer1 ←
        match originalFile sample with
        | Some f =>
            match fileArrayBuffer env f with
            | Normal b => mret (Some b)
            | Throw e =>
                log (Error ("Error reading ArrayBuffer from originalFile for "
                            +:+ name sample +:+ ": " +:+ e)) ;;
                mret None
            end
        | None => mret None
        end;
      arrayBuffer2 ←
        match arrayBuffer1, base64 sample with
        | None, Some (String _ _ as b64) =>
            match atob env b64 with
            | Normal b => mret (Some b)
            | Throw e =>
                log (Error ("Error converting base64 to ArrayBuffer for "
                            +:+ name sample +:+ ": " +:+ e)) ;;
                mret None
            end
        | _, _ => mret arrayBuffer1
        end;
      match arrayBuffer2 with
      | Some bytes =>
          match decodeAudioData env bytes with
          | Normal buf =>
              setSample i (set_audioBuffer buf sample) ;;
              mret true
          | Throw e =>
              log (Error ("Error decoding audio data with audioContext.decodeAudioData for "
                          +:+ name sample +:+ ": " +:+ e)) ;;
              setSample i (set_metadata
                             (set_error ("Audio decoding failed: " +:+ e) (metadata sample))
                             sample) ;;
              mret false
          end
      | None =>
          setSample i (set_metadata
                         (set_error "No audio data (file or base64) found to decode."
                                    (metadata sample))
                         sample) ;;
          mret false
      end
  end.

(** [o ?? d]; on a number that is absent or an integer also [o || d] with
    [d] zero. *)
Definition orElse {A} (o : option A) (d : A) : A :=
  match o with
  | Some a => a
  | None => d
  end.

(** [playSample], on the [i]-th sample object. *)
Definition playSample (i : nat) (config : PlaybackConfig) : M unit :=
  s0 ← getSample i;
  match s0 with
  | None => mthrow "TypeError: sample is undefined"
  | Some sample =>
      call i sample config ;;
      ready ←
        match audioBuffer sample with
        | Some _ => mret true
        | None =>
            decodedSuccessfully ← decodeAndStoreAudioBuffer i sample;
            s1 ← getSample i;
            match s1 with
            | Some sample' =>
                if (negb decodedSuccessfully
                    || match audioBuffer sample' with Some _ => false | None => true end)%bool
                then
                  log (Warn ("Sample " +:+ name sample'
                             +:+ " could not be decoded or has no AudioBuffer. Error: "
                             +:+ orElse (error (metadata sample')) "undefined")) ;;
                  mret false
                else mret true
            | None => mret false
            end
        end;
      if negb ready then mret tt
      else
        s2 ← getSample i;
        match s2 with
        | None => mret tt
        | Some sample'' =>
            match graphFailure env sample'' config with
            | Some e => mthrow e
            | None =>
                start {| cmdSample := sample'';
                         cmdGain := orElse (volume config) 1%float;
                         cmdPlaybackRate :=
                           match pitchShift config with
                           | Some p => if (p =? 0)%Z then None
                                       else Some (Math_pow 2%float (ofZ p / 12)%float)
                           | None => None
                           end;
                         cmdStartOffset := orElse (timingOffset config) 0%float |}
            end
        end
  end.

End Mixer.
End AudioMixer.

(** ** AudioContextAnalyzer *)

Definition NUM_CHROMA_BINS : Z := 12.

Definition PITCH_CLASS_NAMES : list string :=
  ["C"; "C#"; "D"; "D#"; "E"; "F"; "F#"; "G"; "G#"; "A"; "A#"; "B"]%string.

(** [KEY_TEMPLATES], in the order [for ... in] visits it. *)
Definition KEY_TEMPLATES : list (string * list (string * list float)) :=
  [ ("Major",
     [ ("C",  [1; 0; 1; 0; 1; 1; 0; 1; 0; 1; 0; 1]);
       ("G",  [1; 0; 1; 0; 1; 0; 1; 1; 0; 1; 0; 1]);
       ("D",  [1; 0; 1; 0; 1; 0; 1; 0; 1; 1; 0; 1]);
       ("A",  [1; 0; 1; 1; 0; 1; 0; 1; 0; 1; 0; 1]);
       ("E",  [1; 0; 1; 0; 1; 1; 0; 1; 0; 1; 1; 0]);
       ("B",  [0; 1; 0; 1; 1; 0; 1; 0; 1; 0; 1; 1]);
       ("Gb", [0; 1; 0; 1; 1; 0; 1; 0; 1; 1; 0; 1]);
       ("Db", [1; 0; 1; 1; 0; 1; 0; 1; 0; 1; 1; 0]);
       ("Ab", [1; 1; 0; 1; 0; 1; 1; 0; 1; 0; 1; 0]);
       ("Eb", [0; 1; 1; 0; 1; 1; 0; 1; 0; 1; 0; 1]);
       ("Bb", [1; 0; 1; 0; 1; 1; 0; 1; 1; 0; 1; 0]);
       ("F",  [1; 0; 1; 0; 1; 1; 1; 0; 1; 0; 1; 0]) ]);
    ("Minor",
     [ ("A",  [1; 0; 1; 1; 0; 1; 0; 1; 1; 0; 0; 1]);
       ("E",  [1; 0; 1; 0; 1; 1; 0; 1; 0; 1; 0; 1]);
       ("B",  [1; 0; 1; 0; 1; 0; 1; 1; 0; 1; 0; 1]);
       ("F#", [1; 1; 0; 1; 0; 1; 0; 1; 1; 0; 1; 0]);
       ("C#", [0; 1; 1; 0; 1; 0; 1; 0; 1; 1; 0; 1]);
       ("G#", [1; 0; 1; 1; 0; 1; 0; 1; 0; 1; 1; 0]);
       ("D#", [0; 1; 0; 1; 1; 0; 1; 1; 0; 1; 0; 1]);
       ("A#", [1; 1; 0; 1; 0; 1; 1; 0; 1; 0; 1; 0]);
       ("D",  [1; 0; 1; 1; 0; 1; 0; 1; 0; 1; 0; 1]);
       ("G",  [1; 0; 1; 0; 1; 1; 0; 1; 1; 0; 0; 1]);
       ("C",  [1; 1; 0; 1; 1; 0; 1; 0; 1; 0; 0; 1]);
       ("F",  [1; 0; 1; 1; 0; 1; 1; 0; 1; 0; 1; 0]) ]) ]%float%string.

(** What the [AnalyserNode] hands out on the successive reads of one
    analysis: the decibel spectrum for the onset detector, and the byte
    spectrum for the key estimate, the peak search and the energy. *)
Record AnalyserFrames := {
  floatFrequencyData : list float;
  byteFrequencyDataKey : list Byte.byte;
  byteFrequencyDataPeaks : list Byte.byte;
  byteFrequencyDataEnergy : list Byte.byte;
}.

(** The fields of an [AudioContextAnalyzer] that live across calls. *)
Record Analyzer := {
  prevSpectrum : list float;
  spectralFluxHistory : list float;
}.

Module AudioContextAnalyzer.
Section Analyzer.
Context `{MathLib}.
Local Open Scope float_scope.

Definition fftSize : Z := 2048.
Definition frequencyBinCount : Z := 1024.
Definition FLUX_HISTORY_SIZE : nat := 30.

(** The state the constructor builds. *)
Definition new : Analyzer :=
  {| prevSpectrum := repeat 0 (Z.to_nat frequencyBinCount);
     spectralFluxHistory := [] |}.

Definition byteValue (b : Byte.byte) : float := ofZ (Z.of_N (Byte.to_N b)).

Definition arrayLength {A} (l : list A) : float := ofZ (Z.of_nat (List.length l)).

(** [arr.reduce((s, v) => s + v, 0)] *)
Definition sumFrom0 (l : list float) : float := fold_left (fun s v => s + v) l 0.

Record Peak := { freq : float; amp : Byte.byte }.

(** The peaks of the byte spectrum louder than 128, with the index of the
    bin counted from [i]. *)
Fixpoint peaksFrom (binWidth : float) (i : Z) (data : list Byte.byte) : list Peak :=
  match data with
  | [] => []
  | b :: rest =>
      if (128 <? Z.of_N (Byte.to_N b))%Z
      then {| freq := ofZ i * binWidth; amp := b |} :: peaksFrom binWidth (i + 1) rest
      else peaksFrom binWidth (i + 1) rest
  end.

(** [peaks.sort((a, b) => b.amp - a.amp)]: by falling amplitude, equal
    amplitudes keeping their order. *)
Fixpoint insertPeak (p : Peak) (sorted : list Peak) : list Peak :=
  match sorted with
  | [] => [p]
  | q :: rest =>
      if (Byte.to_N (amp q) <? Byte.to_N (amp p))%N then p :: sorted
      else q :: insertPeak p rest
  end.

Definition sortPeaks (peaks : list Peak) : list Peak :=
  fold_left (fun sorted p => insertPeak p sorted) peaks [].

Definition getFrequencySpectrum (ctxSampleRate : float) (frequencyData : list Byte.byte)
  : list float :=
  let binWidth := ctxSampleRate / ofZ fftSize in
  map freq (firstn 5 (sortPeaks (peaksFrom binWidth 0 frequencyData))).

Definition calculateEnergy (frequencyData : list Byte.byte) : float :=
  let sum := fold_left (fun s b => s + byteValue b) frequencyData 0 in
  let average := sum / arrayLength frequencyData in
  Math_min (average / 128) 1.

(** The first loop of [detectOnsetsAndDensity]: decibels to linear
    magnitudes, stored back into the [Float32Array]. *)
Definition toLinear (db : float) : float :=
  Math_fround (if db <? -100 then 0 else Math_pow 10 (db / 20)).

(** The second loop: the rectified difference to the previous spectrum.
    A bin the previous spectrum lacks reads as [undefined], and the
    difference is then NaN. *)
Fixpoint spectralFluxFrom (flux : float) (current prev : list float) : float :=
  match current with
  | [] => flux
  | c :: cs =>
      let diff := c - hd nan prev in
      spectralFluxFrom (if 0 <? diff then flux + diff else flux) cs (tl prev)
  end.

Definition pushFlux (history : list float) (flux : float) : list float :=
  let pushed := history ++ [flux] in
  if (FLUX_HISTORY_SIZE <? List.length pushed)%nat then tl pushed else pushed.

Record OnsetInfo := { infoOnsets : list bool; infoBeatDensity : float }.

Definition detectOnsetsAndDensity (a : Analyzer) (floatData : list float)
  : Analyzer * OnsetInfo :=
  let currentSpectrum := map toLinear floatData in
  let spectralFlux := spectralFluxFrom 0 currentSpectrum (prevSpectrum a) in
  let history := pushFlux (spectralFluxHistory a) spectralFlux in
  let a' := {| prevSpectrum := currentSpectrum; spectralFluxHistory := history |} in
  match history with
  | [] => (a', {| infoOnsets := [false]; infoBeatDensity := 0 |})
  | _ :: _ =>
      let meanFlux := sumFrom0 history / arrayLength history in
      let variance0 :=
        fold_left (fun v flux => v + Math_pow (flux - meanFlux) 2) history 0 in
      let variance := variance0 / arrayLength history in
      let stdDevFlux := Math_sqrt variance in
      let fluxThreshold := meanFlux + stdDevFlux * 1.5 in
      let onsetDetected := ((fluxThreshold <? spectralFlux) && (0.01 <? spectralFlux))%bool in
      let beatDensityDenominator := meanFlux + 1e-6 in
      let rawDensity :=
        if beatDensityDenominator =? 0 then 0
        else (spectralFlux / beatDensityDenominator - 1) / 5 in
      let beatDensity := Math_min 1 (Math_max 0 rawDensity) in
      (a', {| infoOnsets := [onsetDetected];
              infoBeatDensity := if isNaN beatDensity then 0 else beatDensity |})
  end.

(** The chroma loop of [estimateKeyFromChroma], from bin [i] on. *)
Fixpoint chromaFrom (binWidth : float) (i : Z) (data : list Byte.byte)
                    (chroma : list float) : list float :=
  match data with
  | [] => chroma
  | b :: rest =>
      let freq := ofZ i * binWidth in
      let chroma' :=
        if freq =? 0 then chroma
        else
          let midiNote := 69 + 12 * Math_log2 (freq / 440) in
          match Math_round midiNote with
          | Some r =>
              let pitchClass := Z.rem r NUM_CHROMA_BINS in
              if ((0 <=? pitchClass)%Z && (pitchClass <? NUM_CHROMA_BINS)%Z)%bool
              then alter (fun c => c + byteValue b) (Z.to_nat pitchClass) chroma
              else chroma
          | None => chroma
          end in
      chromaFrom binWidth (i + 1) rest chroma'
  end.

(** The template score, summed from the left as the loop does. *)
Definition templateScore (normalizedChroma template : list float) : float :=
  fold_left (fun score xy => score + fst xy * snd xy) (combine normalizedChroma template) 0.

Record Match := { matchKey : option string; matchScale : option string; matchScore : float }.

Definition bestInScale (normalizedChroma : list float) (scaleName : string)
                       (best : Match) (keys : list (string * list float)) : Match :=
  fold_left
    (fun best kt =>
       let score := templateScore normalizedChroma (snd kt) in
       if matchScore best <? score
       then {| matchKey := Some (fst kt); matchScale := Some scaleName; matchScore := score |}
       else best)
    keys best.

Definition estimateKeyFromChroma (ctxSampleRate : float) (frequencyData : list Byte.byte)
  : option string * option string :=
  let binWidth := ctxSampleRate / ofZ fftSize in
  let chroma := chromaFrom binWidth 0 frequencyData (repeat 0 (Z.to_nat NUM_CHROMA_BINS)) in
  let sum := sumFrom0 chroma in
  if sum =? 0 then (None, None)
  else
    let normalizedChroma := map (fun val => val / sum) chroma in
    let bestMatch :=
      fold_left
        (fun best st => bestInScale normalizedChroma (fst st) best (snd st))
        KEY_TEMPLATES
        {| matchKey := None; matchScale := None; matchScore := -1 |} in
    (matchKey bestMatch, matchScale bestMatch).

(** What one call of [analyzeRealTimeContext] meets outside: the
    context's sample rate, the two clock readings, the exception (if any)
    of wiring and starting the source node, and the analyser's frames
    once the buffer has played. *)
Record AnalysisEnv := {
  ctxSampleRate : float;
  nowAtEntry : Z;
  nowAtReturn : Z;
  sourceFailure : option string;
  frames : AnalyserFrames;
}.

Definition defaultContext (now : Z) : MusicalContext :=
  {| timestamp := now;
     bpm := None;
     beatDensity := Some 0;
     onsets := Some [false];
     key := None;
     scale := None;
     energy := Some 0;
     dominantFrequencies := Some [] |}.

(** [analyzeRealTimeContext]: the analyser afterwards, what was written
    to the console, and the snapshot or the exception. *)
Definition analyzeRealTimeContext (e : AnalysisEnv) (a : Analyzer)
                                  (inputBuffer : option AudioBuffer)
  : Analyzer * list LogEntry * Completion MusicalContext :=
  match inputBuffer with
  | None =>
      (a,
       [Warn "AudioContextAnalyzer: Received null or undefined inputBuffer for analysis."],
       Normal (defaultContext (nowAtEntry e)))
  | Some buffer =>
      if (length buffer =? 0)%N
      then
        (a,
         [Warn "AudioContextAnalyzer: Received an empty inputBuffer (length 0) for analysis."],
         Normal (defaultContext (nowAtEntry e)))
      else
        match sourceFailure e with
        | Some err => (a, [], Throw err)
        | None =>
            let '(a', onsetInfo) := detectOnsetsAndDensity a (floatFrequencyData (frames e)) in
            let keyInfo := estimateKeyFromChroma (ctxSampleRate e)
                                                 (byteFrequencyDataKey (frames e)) in
            (a', [],
             Normal
               {| timestamp := nowAtReturn e;
                  bpm := None;
                  dominantFrequencies :=
                    Some (getFrequencySpectrum (ctxSampleRate e)
                                               (byteFrequencyDataPeaks (frames e)));
                  energy := Some (calculateEnergy (byteFrequencyDataEnergy (frames e)));
                  key := fst keyInfo;
                  scale := snd keyInfo;
                  onsets := Some (infoOnsets onsetInfo);
                  beatDensity := Some (infoBeatDensity onsetInfo) |})
        end
  end.

End Analyzer.
End AudioContextAnalyzer.

(** ** ContextAwareLyriaSession *)

(** The fields of a [ContextAwareLyriaSession] that change. *)
Record Session := {
  audioBufferQueue : list AudioBuffer;
  accumulatedBufferLength : Z;
  lastAnalysisTime : Z;
}.

Module ContextAwareLyriaSession.
Section Session.
Context `{MathLib}.
Local Open Scope float_scope.

Definition maxBufferDurationSecs : float := 2.0.
Definition analysisIntervalMs : Z := 500.

Definition new : Session :=
  {| audioBufferQueue := []; accumulatedBufferLength := 0; lastAnalysisTime := 0 |}.

(** [accumulatedBufferLength / audioContext.sampleRate] *)
Definition bufferedDuration (ctxSampleRate : float) (accumulated : Z) : float :=
  ofZ accumulated / ctxSampleRate.

(** The eviction loop: while the buffered duration is over the cap and
    the queue is not empty, shift the oldest buffer out. *)
Fixpoint evict (ctxSampleRate : float) (queue : list AudioBuffer) (accumulated : Z)
  : list AudioBuffer * Z :=
  match queue with
  | [] => ([], accumulated)
  | oldestBuffer :: rest =>
      if maxBufferDurationSecs <? bufferedDuration ctxSampleRate accumulated
      then evict ctxSampleRate rest (accumulated - Z.of_N (length oldestBuffer))
      else (queue, accumulated)
  end.

(** [handleNewLyriaAudioBuffer] at clock reading [now]: the session
    afterwards, the console output, and the queue snapshot handed to
    [performAnalysis] when an analysis is started. *)
Definition handleNewLyriaAudioBuffer (ctxSampleRate : float) (now : Z)
                                     (lyriaBuffer : option AudioBuffer) (s : Session)
  : Session * list LogEntry * option (list AudioBuffer) :=
  let invalid := (s, [Warn "ContextAwareLyriaSession: Received invalid Lyria audio buffer."],
                  None) in
  match lyriaBuffer with
  | None => invalid
  | Some buf =>
      if (length buf =? 0)%N then invalid
      else
        let pushed := audioBufferQueue s ++ [buf] in
        let accumulated := (accumulatedBufferLength s + Z.of_N (length buf))%Z in
        let '(queue, accumulated') := evict ctxSampleRate pushed accumulated in
        if ((analysisIntervalMs <? now - lastAnalysisTime s)%Z
            && match queue with [] => false | _ :: _ => true end)%bool
        then ({| audioBufferQueue := queue; accumulatedBufferLength := accumulated';
                 lastAnalysisTime := now |}, [], Some queue)
        else ({| audioBufferQueue := queue; accumulatedBufferLength := accumulated';
                 lastAnalysisTime := lastAnalysisTime s |}, [], None)
  end.

(** One channel of the combined buffer: the channel of every chunk, end
    to end; [getChannelData] throws on a chunk that lacks the channel. *)
Fixpoint combineChannel (channel : nat) (buffers : list AudioBuffer)
  : Completion (list float) :=
  match buffers with
  | [] => Normal []
  | b :: rest =>
      match channelData b !! channel with
      | None => Throw "IndexSizeError"
      | Some data =>
          match combineChannel channel rest with
          | Normal more => Normal (data ++ more)
          | Throw e => Throw e
          end
      end
  end.

Fixpoint combineChannels (channels : list nat) (buffers : list AudioBuffer)
  : Completion (list (list float)) :=
  match channels with
  | [] => Normal []
  | c :: cs =>
      match combineChannel c buffers, combineChannels cs buffers with
      | Normal d, Normal ds => Normal (d :: ds)
      | Throw e, _ | _, Throw e => Throw e
      end
  end.

(** [combineAudioChunks]: [None] is [null]. *)
Definition combineAudioChunks (buffers : list AudioBuffer)
  : Completion (option AudioBuffer) :=
  let validBuffers := filter (fun b => (0 < length b)%N) buffers in
  match validBuffers with
  | [] => Normal None
  | first :: _ =>
      let totalLength := fold_left (fun sum buf => (sum + length buf)%N) validBuffers 0%N in
      if (totalLength =? 0)%N then Normal None
      else
        match combineChannels (seq 0 (N.to_nat (numberOfChannels first))) validBuffers with
        | Throw e => Throw e
        | Normal data =>
            Normal (Some {| length := totalLength;
                            numberOfChannels := numberOfChannels first;
                            sampleRate := sampleRate first;
                            duration := ofZ (Z.of_N totalLength) / sampleRate first;
                            channelData := data |})
        end
  end.


End Session.
End ContextAwareLyriaSession.

(** ** SmartSampleTrigger *)

Module SmartSampleTrigger.
Section Trigger.
Context `{MathLib}.
Variable env : AudioEnv.
Variable clock : Clock.
(** Whether the constructor was given an [onSampleTriggeredCallback]. *)
Variable hasCallback : bool.

Definition updateSamples (newSamples : list UserSample) : M unit :=
  fun w =>
    ({| samples := newSamples; lastTriggerTimes := lastTriggerTimes w;
        clockReads := clockReads w; playCalls := playCalls w; played := played w;
        triggered := triggered w; console := console w |},
     Normal tt).

Definition getPitchClass (keyName : option string) : option Z :=
  match keyName with
  | None | Some EmptyString => None
  | Some keyName =>
      let upperKeyName := toUpperCase keyName in
      let normalizedKeyName0 :=
        if ((String.length upperKeyName =? 2)%nat && endsWith "S" upperKeyName)%bool
        then charAt 0 upperKeyName +:+ "#"
        else if ((String.length upperKeyName =? 3)%nat && endsWith "S" upperKeyName
                 && String.eqb (charAt 1 upperKeyName) "#")%bool
        then charAt 0 upperKeyName +:+ "##"
        else upperKeyName in
      let normalizedKeyName :=
        replaceAll "CB" "B"
          (replaceAll "BB" "A#"
             (replaceAll "AB" "G#"
                (replaceAll "GB" "F#"
                   (replaceAll "FB" "E"
                      (replaceAll "EB" "D#"
                         (replaceAll "DB" "C#"
                            (replaceFirst "FLAT" "B"
                               (replaceFirst "SHARP" "#" normalizedKeyName0)))))))) in
      let pcIndex := indexOf PITCH_CLASS_NAMES normalizedKeyName in
      if negb (pcIndex =? -1) then Some pcIndex
      else if (endsWith "B" normalizedKeyName
               && (String.length normalizedKeyName =? 2)%nat)%bool
      then
        let noteWithoutFlat := charAt 0 normalizedKeyName in
        let originalNoteIndex := indexOf PITCH_CLASS_NAMES noteWithoutFlat in
        if negb (originalNoteIndex =? -1)
        then Some (Z.rem (originalNoteIndex - 1 + NUM_CHROMA_BINS) NUM_CHROMA_BINS)
        else None
      else None
  end.

Definition getSemitoneDifference (pc1 pc2 : Z) : Z :=
  let diff := pc2 - pc1 in
  let diff := if 6 <? diff then diff - 12 else diff in
  let diff := if diff <? -6 then diff + 12 else diff in
  diff.

Record KeyCompat := { score : float; pitchShiftSemitones : Z }.

(** [a.toLowerCase() === b.toLowerCase()] *)
Definition sameIgnoringCase (a b : string) : bool :=
  String.eqb (toLowerCase a) (toLowerCase b).

Definition calculateKeyCompatibility (contextKey contextScale sampleKey sampleScale : option string)
  : KeyCompat :=
  match contextKey, sampleKey, contextScale, sampleScale with
  | Some (String _ _), Some (String _ _),
    Some (String _ _ as contextScale'), Some (String _ _ as sampleScale') =>
      let contextPitchClass := getPitchClass contextKey in
      let samplePitchClass := getPitchClass sampleKey in
      let pitchShiftSemitones :=
        match contextPitchClass, samplePitchClass with
        | Some c, Some s => getSemitoneDifference s c
        | _, _ => 0
        end in
      let shiftedSamplePitchClass :=
        match samplePitchClass with
        | Some s => Some (Z.rem (s + pitchShiftSemitones + 12) 12)
        | None => None
        end in
      let aligned :=
        match contextPitchClass, shiftedSamplePitchClass with
        | Some c, Some s => (c =? s)
        | _, _ => false
        end in
      let score :=
        if aligned
        then (if sameIgnoringCase contextScale' sampleScale' then 1.0 else 0.8)%float
        else if sameIgnoringCase contextScale' sampleScale' then 0.7%float
        else match contextPitchClass, shiftedSamplePitchClass with
             | Some _, Some _ => 0.5%float
             | _, _ => 0.3%float
             end in
      {| score := score; pitchShiftSemitones := pitchShiftSemitones |}
  | _, _, _, _ => {| score := 0.5%float; pitchShiftSemitones := 0 |}
  end.

Definition calculateEnergyMatch (contextEnergy sampleEnergy : option float) : float :=
  match contextEnergy, sampleEnergy with
  | Some contextEnergy, Some sampleEnergy =>
      let normalizedSampleEnergy := ((sampleEnergy - 1) / 9)%float in
      let diff := Math_abs (contextEnergy - normalizedSampleEnergy) in
      Math_max 0 (1 - diff * 1.5)
  | _, _ => 0.5%float
  end.

Definition calculateRhythmicFit (contextDensity : option float)
                                (sampleGrooveDesc : option string) : float :=
  match contextDensity with
  | None => 0.5%float
  | Some contextDensity =>
      let score :=
        match sampleGrooveDesc with
        | Some (String _ _ as sampleGrooveDesc) =>
            let desc := toLowerCase sampleGrooveDesc in
            if (includes "sparse" desc || includes "minimal" desc
                || includes "ambient" desc)%bool
            then ((1 - contextDensity) * 0.8 + 0.1)%float
            else if (includes "dense" desc || includes "complex" desc
                     || includes "active" desc || includes "driving" desc)%bool
            then (contextDensity * 0.8 + 0.1)%float
            else if (includes "percussive" desc || includes "rhythmic" desc)%bool
            then (0.6 + contextDensity * 0.2)%float
            else 0.5%float
        | _ => (0.5 - Math_abs (contextDensity - 0.5))%float
        end in
      Math_max 0 (Math_min 1 score)
  end.

(** [keyCompat.score * 0.4 + energyCompat * 0.3 + rhythmCompat * 0.3] *)
Definition totalScore (sample : UserSample) (context : MusicalContext) : float :=
  let keyCompat := calculateKeyCompatibility (key context) (scale context)
                     (sampleKey (metadata sample)) (sampleScale (metadata sample)) in
  let energyCompat := calculateEnergyMatch (energy context) (energyLevel (metadata sample)) in
  let rhythmCompat := calculateRhythmicFit (beatDensity context)
                        (grooveDescription (metadata sample)) in
  (score keyCompat * 0.4 + energyCompat * 0.3 + rhythmCompat * 0.3)%float.

Definition autoTriggered (sampleType : option string) : bool :=
  match sampleType with
  | Some t => (String.eqb t "one-shot" || String.eqb t "fx")%bool
  | None => false
  end.

Record Decision := { trigger : bool; triggerPitchShift : Z }.

Definition shouldTriggerSample (sample : UserSample) (context : MusicalContext)
  : M Decision :=
  if negb (autoTriggered (sampleType (metadata sample)))
  then mret {| trigger := false; triggerPitchShift := 0 |}
  else
    let minInterval := AudioMixer.orElse (minimumIntervalMs (metadata sample)) 3000 in
    last ← getLastTriggerTime (id sample);
    let lastTriggerTime := AudioMixer.orElse last 0 in
    now ← Date_now clock;
    if now - lastTriggerTime <? minInterval
    then mret {| trigger := false; triggerPitchShift := 0 |}
    else
      let keyCompat := calculateKeyCompatibility (key context) (scale context)
                         (sampleKey (metadata sample)) (sampleScale (metadata sample)) in
      mret {| trigger := (0.7 <? totalScore sample context)%float;
              triggerPitchShift := pitchShiftSemitones keyCompat |}.

(** [arr?.includes(x)] *)
Definition optIncludes (arr : option (list string)) (x : string) : bool :=
  match arr with
  | Some l => arrayIncludes l x
  | None => false
  end.

Definition calculatePlaybackConfig (sample : UserSample) (context : MusicalContext)
                                   (pitchShiftSemitones : Z) : PlaybackConfig :=
  let volume0 :=
    if (optIncludes (suggestedHipHopUses (metadata sample)) "background"
        || optIncludes (moodTags (metadata sample)) "ambient")%bool
    then 0.4%float else 0.7%float in
  let volume1 :=
    match energy context with
    | Some e =>
        if (e <? 0.3)%float then (volume0 * 0.7)%float
        else if (0.7 <? e)%float then (volume0 * 1.1)%float
        else volume0
    | None => volume0
    end in
  {| volume := Some (Math_max 0.1 (Math_min 1.0 volume1));
     pitchShift := Some pitchShiftSemitones;
     timingOffset := None |}.

(** The first loop of [evaluateAndTrigger]: the samples that clear the
    bar, each a reference (its index in [samples]) with its pitch shift. *)
Fixpoint selectFrom (i : nat) (catalog : list UserSample) (musicContext : MusicalContext)
  : M (list (nat * Z)) :=
  match catalog with
  | [] => mret []
  | sample :: rest =>
      d ← shouldTriggerSample sample musicContext;
      more ← selectFrom (S i) rest musicContext;
      mret (if trigger d then (i, triggerPitchShift d) :: more else more)
  end.

(** The second loop: play, record the time, tell the callback. *)
Fixpoint fireAll (musicContext : MusicalContext) (eligibleSamples : list (nat * Z))
  : M unit :=
  match eligibleSamples with
  | [] => mret tt
  | (i, pitchShift) :: rest =>
      s ← getSample i;
      match s with
      | None => mthrow "TypeError: sample is undefined"
      | Some sample =>
          let playbackConfig := calculatePlaybackConfig sample musicContext pitchShift in
          AudioMixer.playSample env i playbackConfig ;;
          now ← Date_now clock;
          setLastTriggerTime (id sample) now ;;
          s' ← getSample i;
          (if hasCallback
           then notify (AudioMixer.orElse s' sample) musicContext playbackConfig
           else mret tt) ;;
          fireAll musicContext rest
      end
  end.

Definition evaluateAndTrigger (musicContext : MusicalContext) : M unit :=
  fun w =>
    (eligibleSamples ← selectFrom 0 (samples w) musicContext;
     fireAll musicContext eligibleSamples) w.

End Trigger.
End SmartSampleTrigger.

(** ** LearningEngine *)

(** The history behind the application's callbacks: the trigger's
    [onSampleTriggeredCallback] and the handler of a rejected cycle both
    end in [recordUserAction] (in the application's learning file). *)
Module LearningEngine.
Section History.
(** The [details] object of an action, which the engine stores as it is. *)
Variable Details : Type.

Record UserAction := {
  actionTimestamp : Z;
  actionType : string;
  actionDetails : Details;
}.

Definition MAX_HISTORY_ITEMS : nat := 50.

(** [arr.slice(-n)]: the last [n] elements, all of them when there are
    fewer. *)
Definition sliceLast {A} (n : nat) (arr : list A) : list A :=
  skipn (List.length arr - n) arr.

(** [recordUserAction] at the clock reading [now].  The test
    [length > MAX_HISTORY_ITEMS * 1.5] is taken on integers, as
    [2 * length > 3 * MAX_HISTORY_ITEMS]. *)
Definition recordUserAction (now : Z) (type : string) (details : Details)
    (userHistory : list UserAction) : list UserAction :=
  let action := {| actionTimestamp := now; actionType := type; actionDetails := details |} in
  let pushed := userHistory ++ [action] in
  if (3 * MAX_HISTORY_ITEMS <? 2 * List.length pushed)%nat
  then sliceLast MAX_HISTORY_ITEMS pushed
  else pushed.

End History.
End LearningEngine.

(** ** The PCM decoder of the stream *)

(** [decodeAudioData] of the application's utilities, which turns a chunk
    of the stream into the [AudioBuffer] that the message handler passes to
    [handleNewLyriaAudioBuffer]: 16-bit PCM, the channels interleaved.  The
    [Int16Array] view reads in the platform's byte order, little-endian on
    the platforms browsers run on. *)
Module Utils.
Section Decoder.
(** The exception, if any, with which the platform's [createBuffer]
    refuses a channel count, a length and a sample rate. *)
Variable createBufferFailure : N -> N -> float -> option string.

(** [ctx.createBuffer]: a buffer of silence. *)
Definition createBuffer (channels frames : N) (rate : float) : Completion AudioBuffer :=
  match createBufferFailure channels frames rate with
  | Some e => Throw e
  | None =>
      Normal {| length := frames;
                numberOfChannels := channels;
                sampleRate := rate;
                duration := (ofZ (Z.of_N frames) / rate)%float;
                channelData := repeat (repeat 0%float (N.to_nat frames)) (N.to_nat channels) |}
  end.

(** The [Int16Array] view of the bytes: two bytes per value, the low one
    first, in two's complement. *)
Fixpoint int16Array (bytes : list Byte.byte) : list Z :=
  match bytes with
  | lo :: hi :: rest =>
      let u := Z.of_N (Byte.to_N lo) + 256 * Z.of_N (Byte.to_N hi) in
      (if u <? 32768 then u else u - 65536) :: int16Array rest
  | _ => []
  end.

(** The inner loop, for one channel: the console output and the samples
    stored in the channel's [Float32Array]. *)
Definition decodeChannel (values : list Z) (numChannels channel samplesPerChannel : nat)
  : list LogEntry * list float :=
  fold_left
    (fun acc i =>
       let sampleIndex := (i * numChannels + channel)%nat in
       match values !! sampleIndex with
       | Some v => (fst acc, snd acc ++ [Math_fround (ofZ v / 32768)%float])
       | None =>
           (fst acc ++ [Error ("decodeAudioData: sampleIndex out of bounds. Index: "
                               +:+ pretty sampleIndex +:+ ", Int16Array length: "
                               +:+ pretty (List.length values)
                               +:+ ". This indicates a miscalculation.")],
            snd acc ++ [0%float])
       end)
    (seq 0 samplesPerChannel) ([], []).

(** [decodeAudioData(data, ctx, sampleRate, numChannels)]: the console
    output and the buffer; [None] is a [null] array, and [byteOffset] is
    that of the [Uint8Array] in its [ArrayBuffer]. *)
Definition decodeAudioData (data : option (list Byte.byte)) (byteOffset : N)
    (rate : float) (numChannels : N) : list LogEntry * Completion AudioBuffer :=
  let byteLength :=
    match data with
    | Some bytes => N.of_nat (List.length bytes)
    | None => 0%N
    end in
  if (byteLength =? 0)%N
  then ([Warn "decodeAudioData: Received empty or null audio data. Returning silent buffer."],
        createBuffer numChannels 1 rate)
  else if ((numChannels =? 0) || negb (byteLength mod (2 * numChannels) =? 0))%N%bool
  then ([Error ("decodeAudioData: Data byteLength (" +:+ pretty byteLength
                +:+ ") is not consistent with 16-bit PCM for " +:+ pretty numChannels
                +:+ " channels. Returning silent buffer.")],
        createBuffer numChannels 1 rate)
  else
    let samplesPerChannel := (byteLength / 2 / numChannels)%N in
    if (samplesPerChannel =? 0)%N
    then ([Warn "decodeAudioData: Calculated zero samples per channel. Returning silent buffer."],
          createBuffer numChannels 1 rate)
    else
      match createBuffer numChannels samplesPerChannel rate with
      | Throw e => ([], Throw e)
      | Normal audioBuffer =>
          if negb (byteOffset mod 2 =? 0)%N
          then ([Error ("decodeAudioData: Uint8Array data is not aligned for Int16Array view (byteOffset "
                        +:+ pretty byteOffset +:+ " must be even). Returning silent buffer.")],
                createBuffer numChannels 1 rate)
          else
            let values := int16Array (default [] data) in
            let channels :=
              map (fun channel =>
                     decodeChannel values (N.to_nat numChannels) channel
                                   (N.to_nat samplesPerChannel))
                  (seq 0 (N.to_nat numChannels)) in
            (concat (map fst channels),
             Normal {| length := length audioBuffer;
                       numberOfChannels := numberOfChannels audioBuffer;
                       sampleRate := sampleRate audioBuffer;
                       duration := duration audioBuffer;
                       channelData := map snd channels |})
      end.

End Decoder.
End Utils.


(** * Specification *)

(** ** Vocabulary *)

(** A binary64 value that is not NaN and has the sign [s]. *)
Definition signedSF (s : bool) (x : spec_float) : bool :=
  match x with
  | S754_zero s' | S754_infinity s' | S754_finite s' _ _ => Bool.eqb s s'
  | S754_nan => false
  end.

Definition finitePositiveSF (x : spec_float) : bool :=
  match x with
  | S754_finite false _ _ => true
  | _ => false
  end.

(** Not NaN, sign bit clear: +0, a positive number or +Infinity. *)
Definition nonneg (x : float) : bool := signedSF false (Prim2SF x).

Definition finitePositive (x : float) : bool := finitePositiveSF (Prim2SF x).

(** In [0, 1]; NaN is not. *)
Definition inUnitInterval (x : float) : bool := ((0 <=? x) && (x <=? 1))%float%bool.

(** A bin below -100 dB, whose linear magnitude the detector takes as 0. *)
Definition silent (db : float) : bool := (db <? -100)%float.

Definition notNegative (x : float) : bool := negb (x <? 0)%float.

(** A sample rate is a positive, finite number. *)
Definition validSampleRate (r : float) : bool := ((0 <? r) && (r <? infinity))%float%bool.

(** [|x - y| < eps] *)
Definition near (eps x y : float) : bool := (abs (x - y) <? eps)%float.

(** The world after [n] more clock readings. *)
Definition advance (n : nat) (w : World) : World :=
  {| samples := samples w; lastTriggerTimes := lastTriggerTimes w;
     clockReads := n + clockReads w; playCalls := playCalls w; played := played w;
     triggered := triggered w; console := console w |}.

(** The world after a firing of the [i]-th sample [s], once its play call
    has returned: the time is read and recorded, the callback is told. *)
Definition recordFiring (clock : Clock) (hasCallback : bool) (musicContext : MusicalContext)
    (i : nat) (s : UserSample) (config : PlaybackConfig) (w : World) : World :=
  {| samples := samples w;
     lastTriggerTimes := <[id s := clock (clockReads w)]> (lastTriggerTimes w);
     clockReads := S (clockReads w); playCalls := playCalls w; played := played w;
     triggered :=
       if hasCallback
       then triggered w ++ [(AudioMixer.orElse (samples w !! i) s, musicContext, config)]
       else triggered w;
     console := console w |}.

(** The number of clock readings the selection loop takes before it comes
    to the [i]-th sample: one for each sample of an eligible type. *)
Fixpoint readsBefore (catalog : list UserSample) (i : nat) : nat :=
  match i, catalog with
  | S i', s :: rest =>
      (if SmartSampleTrigger.autoTriggered (sampleType (metadata s)) then 1 else 0)
      + readsBefore rest i'
  | _, _ => 0
  end.

(** The clock reading at which a cycle started in [w] decides on the
    [i]-th sample. *)
Definition decisionTime (clock : Clock) (w : World) (i : nat) : Z :=
  clock (clockReads w + readsBefore (samples w) i)%nat.

(** Whether a sample clears type, rate limit and score at the clock
    reading [now], with the last firings [ltt]. *)
Definition passes (ltt : gmap string Z) (now : Z) (s : UserSample)
    (musicContext : MusicalContext) : bool :=
  SmartSampleTrigger.autoTriggered (sampleType (metadata s))
  && negb (now - AudioMixer.orElse (ltt !! id s) 0
           <? AudioMixer.orElse (minimumIntervalMs (metadata s)) 3000)
  && (0.7 <? SmartSampleTrigger.totalScore s musicContext)%float.

(** The pitch class of a note letter, in either case. *)
Definition letterPitchClass (c : ascii) : option Z :=
  let u := upperChar c in
  if Ascii.eqb u "C" then Some 0
  else if Ascii.eqb u "D" then Some 2
  else if Ascii.eqb u "E" then Some 4
  else if Ascii.eqb u "F" then Some 5
  else if Ascii.eqb u "G" then Some 7
  else if Ascii.eqb u "A" then Some 9
  else if Ascii.eqb u "B" then Some 11
  else None.

(** The semitones an accidental adds: none, a sharp written [#], [s] or
    [sharp], a flat written [b] or [flat], in either case. *)
Definition accidentalOf (suffix : string) : option Z :=
  let u := toUpperCase suffix in
  if String.eqb u "" then Some 0
  else if (String.eqb u "#" || String.eqb u "S" || String.eqb u "SHARP")%bool then Some 1
  else if (String.eqb u "B" || String.eqb u "FLAT")%bool then Some (-1)
  else None.

(** The pitch class a key name stands for in notation: a note letter with
    an accidental, whether or not [getPitchClass] knows the spelling.
    [E#] is F and [B#] is C.  A name that is no note name has none. *)
Definition writtenPitchClass (keyName : string) : option Z :=
  match keyName with
  | String c suffix =>
      match letterPitchClass c, accidentalOf suffix with
      | Some pc, Some a => Some ((pc + a) mod 12)
      | _, _ => None
      end
  | EmptyString => None
  end.

(** The key [n] semitones above the key [keyName], under its name in
    [PITCH_CLASS_NAMES]; none when [keyName] is no note name. *)
Definition transposeKey (n : Z) (keyName : string) : option string :=
  match writtenPitchClass keyName with
  | Some pc => Some (nth (Z.to_nat ((pc + n) mod 12)) PITCH_CLASS_NAMES EmptyString)
  | None => None
  end.

(** A sharp of E or of B, in any of the spellings. *)
Definition sharpOfEOrB (keyName : string) : bool :=
  match keyName with
  | String c suffix =>
      match letterPitchClass c, accidentalOf suffix with
      | Some pc, Some a => ((pc =? 4) || (pc =? 11)) && (a =? 1)
      | _, _ => false
      end
  | EmptyString => false
  end.

(** What the spec asks of transposition: the key score of two keys is the
    key score of the keys [n] semitones above them. *)
Definition transpositionInvariant : Prop :=
  forall (n : Z) (contextKey sampleKey contextKey' sampleKey' : string)
         (contextScale sampleScale : option string),
    transposeKey n contextKey = Some contextKey' ->
    transposeKey n sampleKey = Some sampleKey' ->
    SmartSampleTrigger.score
      (SmartSampleTrigger.calculateKeyCompatibility
         (Some contextKey') contextScale (Some sampleKey') sampleScale)
    = SmartSampleTrigger.score
        (SmartSampleTrigger.calculateKeyCompatibility
           (Some contextKey) contextScale (Some sampleKey) sampleScale).

(** Whether both scales are given and equal up to case. *)
Definition scalesMatch (contextScale sampleScale : option string) : bool :=
  match contextScale, sampleScale with
  | Some a, Some b => SmartSampleTrigger.sameIgnoringCase a b
  | _, _ => false
  end.

(** The sum of the lengths of the queued buffers, in sample frames. *)
Definition queuedLength (queue : list AudioBuffer) : Z :=
  fold_right (fun b sum => Z.of_N (length b) + sum) 0 queue.

(** The running counter agrees with the queue. *)
Definition counterExact (s : Session) : Prop :=
  accumulatedBufferLength s = queuedLength (audioBufferQueue s).

(** The test of the eviction loop, passed: the counter, taken as sample
    frames at the context's sample rate, comes to at most two seconds.
    This is the duration of the queued audio when the buffers are at the
    context's rate; the sample rate of a buffer itself is not looked at. *)
Definition counterWithinCap (ctxSampleRate : float) (s : Session) : bool :=
  (ContextAwareLyriaSession.bufferedDuration ctxSampleRate (accumulatedBufferLength s)
   <=? ContextAwareLyriaSession.maxBufferDurationSecs)%float.

(** Each buffer of [evicted] was dropped while the queue from it on was
    over the cap: the eviction stops as soon as the cap is met. *)
Fixpoint evictedOverCap (ctxSampleRate : float) (evicted remaining : list AudioBuffer)
  : Prop :=
  match evicted with
  | [] => True
  | _ :: rest =>
      (ContextAwareLyriaSession.maxBufferDurationSecs
       <? ContextAwareLyriaSession.bufferedDuration ctxSampleRate
            (queuedLength (evicted ++ remaining)))%float = true
      /\ evictedOverCap ctxSampleRate rest remaining
  end.

(** The audio in the queue, in seconds: the durations of its buffers,
    added up. *)
Definition queuedDuration (queue : list AudioBuffer) : float :=
  fold_left (fun sum b => (sum + duration b)%float) queue 0%float.

(** What the spec asks of the window: the queued audio lasts at most 2.0
    seconds. *)
Definition queuedAtMostTwoSeconds (s : Session) : Prop :=
  (queuedDuration (audioBufferQueue s)
   <=? ContextAwareLyriaSession.maxBufferDurationSecs)%float = true.

(** The buffer a call appends, if it is one the guard lets through. *)
Definition accepted (lyriaBuffer : option AudioBuffer) : list AudioBuffer :=
  match lyriaBuffer with
  | Some b => if (length b =? 0)%N then [] else [b]
  | None => []
  end.

(** The session after a series of calls, oldest first, each with its clock
    reading and its buffer. *)
Definition afterCalls (ctxSampleRate : float) (calls : list (Z * option AudioBuffer))
  : Session :=
  fold_left
    (fun s c =>
       (ContextAwareLyriaSession.handleNewLyriaAudioBuffer ctxSampleRate (fst c) (snd c) s).1.1)
    calls ContextAwareLyriaSession.new.

(** A [null] buffer or one of length 0. *)
Definition nullOrEmpty (inputBuffer : option AudioBuffer) : bool :=
  match inputBuffer with
  | None => true
  | Some b => (length b =? 0)%N
  end.



(** *** Numbers *)

Definition isFiniteSF (x : spec_float) : bool :=
  match x with
  | S754_zero _ | S754_finite _ _ _ => true
  | _ => false
  end.

(** [isFinite(x)]: neither NaN nor an infinity. *)
Definition isFinite (x : float) : bool := isFiniteSF (Prim2SF x).

(** Finite and not zero. *)
Definition finiteNonzero (x : float) : bool :=
  match Prim2SF x with
  | S754_finite _ _ _ => true
  | _ => false
  end.

(** An optional number that, when present, lies in [0, 1]. *)
Definition inUnitIntervalIfPresent (x : option float) : Prop :=
  match x with
  | Some v => inUnitInterval v = true
  | None => True
  end.

(** An optional number that, when present, is not NaN. *)
Definition notNaNIfPresent (x : option float) : Prop :=
  match x with
  | Some v => isNaN v = false
  | None => True
  end.

(** A sample of 16-bit PCM as a number: in [-1, 1). *)
Definition pcmSample (x : float) : bool := ((-1 <=? x) && (x <? 1))%float%bool.

(** [P] holds of the [fuel] integers from [v] on. *)
Fixpoint holdsFrom (P : Z -> bool) (fuel : nat) (v : Z) : bool :=
  match fuel with
  | O => true
  | S fuel' => P v && holdsFrom P fuel' (v + 1)
  end.

(** *** Keys *)

(** The characters on which [upperChar] and [lowerChar] are JavaScript's
    case conversions. *)
Definition isAsciiChar (c : ascii) : bool := (nat_of_ascii c <? 128)%nat.

(** A name of such characters only. *)
Definition asciiOnly (s : string) : bool := forallb isAsciiChar (list_ascii_of_string s).

(** One semitone down, on the circle of twelve. *)
Definition semitoneBelow (pc : Z) : Z := (pc + 11) mod 12.

(** The key names of [KEY_TEMPLATES] under a scale name. *)
Definition templateKeys (scaleName : string) : list string :=
  match filter (fun st => fst st = scaleName) KEY_TEMPLATES with
  | st :: _ => (snd st).*1
  | [] => []
  end.

(** What a best match of the key estimate can be: none, or a key of the
    table with its scale. *)
Definition fromTemplates (key scale : option string) : Prop :=
  (key = None /\ scale = None) \/
  exists k sc, key = Some k /\ scale = Some sc /\ k ∈ templateKeys sc.

(** *** The analyser *)

(** [p] is at least as loud as [q]. *)
Definition louder (p q : AudioContextAnalyzer.Peak) : Prop :=
  (Byte.to_N (AudioContextAnalyzer.amp q) <= Byte.to_N (AudioContextAnalyzer.amp p))%N.

(** The analyser after a series of frames, oldest first. *)
Definition afterFrames `{MathLib} (frames : list (list float)) : Analyzer :=
  fold_left (fun a floatData => fst (AudioContextAnalyzer.detectOnsetsAndDensity a floatData))
            frames AudioContextAnalyzer.new.

(** A snapshot as the analyser builds it: energy and beat density in
    [0, 1], one onset flag, at most five dominant frequencies, no tempo, and
    a key and a scale that come together, the key one of the table, which
    the trigger resolves to a pitch class. *)
Definition wellFormedContext (c : MusicalContext) : Prop :=
  (exists e, energy c = Some e /\ inUnitInterval e = true) /\
  (exists d, beatDensity c = Some d /\ inUnitInterval d = true) /\
  (exists b, onsets c = Some [b]) /\
  (exists fs, dominantFrequencies c = Some fs /\ (List.length fs <= 5)%nat) /\
  bpm c = None /\
  fromTemplates (key c) (scale c) /\
  (forall k, key c = Some k -> is_Some (SmartSampleTrigger.getPitchClass (Some k))).

(** *** The aggregator *)

(** The session after a series of calls on [s], oldest first. *)
Definition sessionAfter (ctxSampleRate : float) (s : Session)
    (calls : list (Z * option AudioBuffer)) : Session :=
  fold_left
    (fun s c =>
       (ContextAwareLyriaSession.handleNewLyriaAudioBuffer ctxSampleRate (fst c) (snd c) s).1.1)
    calls s.

(** The analyses a series of calls starts on the session [s], oldest
    first: the clock reading of the call and the queue handed to
    [performAnalysis]. *)
Fixpoint analysesStarted (ctxSampleRate : float) (s : Session)
    (calls : list (Z * option AudioBuffer)) : list (Z * list AudioBuffer) :=
  match calls with
  | [] => []
  | c :: rest =>
      let r := ContextAwareLyriaSession.handleNewLyriaAudioBuffer
                 ctxSampleRate (fst c) (snd c) s in
      match r.2 with
      | Some queue => [(fst c, queue)]
      | None => []
      end ++ analysesStarted ctxSampleRate r.1.1 rest
  end.

(** Each time is more than [analysisIntervalMs] after the one before it,
    the first after [previous]. *)
Fixpoint spaced (previous : Z) (times : list Z) : Prop :=
  match times with
  | [] => True
  | t :: rest => previous + ContextAwareLyriaSession.analysisIntervalMs < t /\ spaced t rest
  end.

(** No buffer of the queue is empty. *)
Definition noEmptyBuffer (queue : list AudioBuffer) : Prop :=
  Forall (fun b => length b <> 0%N) queue.

(** Every buffer carries the data of at least [n] channels. *)
Definition enoughChannels (n : N) (buffers : list AudioBuffer) : Prop :=
  Forall (fun b => (N.to_nat n <= List.length (channelData b))%nat) buffers.

(** The buffers of positive length, as [combineAudioChunks] filters them. *)
Definition validBuffers (buffers : list AudioBuffer) : list AudioBuffer :=
  filter (fun b => (0 < length b)%N) buffers.

(** Channel [k] of every buffer, end to end. *)
Definition channelsEndToEnd (k : nat) (buffers : list AudioBuffer) : list float :=
  concat (map (fun b => default [] (channelData b !! k)) buffers).

(** A buffer whose channels are all there, each of the buffer's length,
    with samples in [-1, 1). *)
Definition pcmBuffer (b : AudioBuffer) : Prop :=
  List.length (channelData b) = N.to_nat (numberOfChannels b) /\
  Forall (fun channel => List.length channel = N.to_nat (length b) /\
                         Forall (fun x => pcmSample x = true) channel)
         (channelData b).

(** *** The mixer and the scheduler *)

(** The bytes [decodeAndStoreAudioBuffer] hands to the decoder: the file's
    when there is a file and it can be read, else those of the base64 text
    when there is one and [atob] takes it. *)
Definition bytesToDecode (env : AudioEnv) (sample : UserSample) : option (list Byte.byte) :=
  match match originalFile sample with
        | Some f => match fileArrayBuffer env f with Normal b => Some b | Throw _ => None end
        | None => None
        end with
  | Some b => Some b
  | None =>
      match base64 sample with
      | Some (String _ _ as b64) =>
          match atob env b64 with Normal b => Some b | Throw _ => None end
      | _ => None
      end
  end.

(** A sample that can be played: it holds a decoded buffer, or bytes that
    the decoder accepts. *)
Definition playable (env : AudioEnv) (sample : UserSample) : Prop :=
  is_Some (audioBuffer sample) \/
  exists bytes buf, bytesToDecode env sample = Some bytes /\
                    decodeAudioData env bytes = Normal buf.

(** A sample object after a cycle, next to what it was before: decoding may
    have attached the buffer or written [metadata.error], nothing else, and
    a sample that held its buffer is as it was. *)
Definition decodedFrom (s s' : UserSample) : Prop :=
  id s' = id s /\ name s' = name s /\
  originalFile s' = originalFile s /\ base64 s' = base64 s /\
  (forall msg, set_error msg (metadata s') = set_error msg (metadata s)) /\
  (is_Some (audioBuffer s) -> s' = s).

(** A configuration as the scheduler computes it: a volume within the
    clamp, a shift of at most six semitones either way, no delay. *)
Definition configInRange (c : PlaybackConfig) : Prop :=
  exists v p, volume c = Some v /\ pitchShift c = Some p /\ timingOffset c = None /\
              (0.1 <=? v)%float = true /\ (v <=? 1.0)%float = true /\ -6 <= p <= 6.

(** A source node started for such a configuration: the gain within the
    clamp, no delay, a decoded buffer, and the playback rate left alone or
    set for a shift of at most six semitones. *)
Definition commandInRange `{MathLib} (cmd : PlayCommand) : Prop :=
  (0.1 <=? cmdGain cmd)%float = true /\ (cmdGain cmd <=? 1.0)%float = true /\
  cmdStartOffset cmd = 0%float /\
  is_Some (audioBuffer (cmdSample cmd)) /\
  (cmdPlaybackRate cmd = None \/
   exists p, p <> 0 /\ -6 <= p <= 6 /\
             cmdPlaybackRate cmd = Some (Math_pow 2%float (ofZ p / 12)%float)).

(** *** The history *)

(** The history after a series of actions, oldest first, recorded on an
    engine that starts with none. *)
Definition historyAfter {Details} (actions : list (LearningEngine.UserAction Details))
  : list (LearningEngine.UserAction Details) :=
  fold_left
    (fun h a => LearningEngine.recordUserAction Details
                  (LearningEngine.actionTimestamp _ a) (LearningEngine.actionType _ a)
                  (LearningEngine.actionDetails _ a) h)
    actions [].

(** ** Worked examples *)

(** A [MathLib] for the examples: the powers of exponent 0, 1 and 2 by
    multiplication and the logarithm of 1, NaN elsewhere, and the correctly
    rounded square root.  The theorems hold for every [MathLib]. *)
Definition exampleMath : MathLib :=
  {| Math_pow := fun b e =>
       (if e =? 2 then b * b else if e =? 1 then b else if e =? 0 then 1 else nan)%float;
     Math_log2 := fun x => (if x =? 1 then 0 else nan)%float;
     Math_sqrt := sqrt |}.

(** The context of the two end-to-end scenarios. *)
Definition scenarioContext : MusicalContext :=
  {| timestamp := 0; bpm := None; beatDensity := Some 0.9%float; onsets := None;
     key := Some "C"; scale := Some "Major"; energy := Some 0.8%float;
     dominantFrequencies := None |}.

Definition exampleSample (sampleId : string) (buffer : option AudioBuffer)
    (type keyName scaleName : string) (level : float) (groove : string) (interval : option Z)
  : UserSample :=
  {| id := sampleId; name := sampleId; originalFile := None; base64 := None;
     audioBuffer := buffer;
     metadata :=
       {| sampleKey := Some keyName; sampleScale := Some scaleName; sampleType := Some type;
          moodTags := None; grooveDescription := Some groove; suggestedHipHopUses := None;
          energyLevel := Some level; minimumIntervalMs := interval; error := None |} |}.

(** The one-shot of the first scenario. *)
Definition scenarioOneShot : UserSample :=
  exampleSample "one-shot-1" None "one-shot" "C" "Major" 9 "dense driving percussion" (Some 0).

(** The fx sample of the second scenario. *)
Definition scenarioFx : UserSample :=
  exampleSample "fx-1" None "fx" "F#" "Minor" 2 "sparse ambient" (Some 0).

(** A loop that would score as high as the one-shot. *)
Definition exampleLoop : UserSample :=
  exampleSample "loop-1" None "loop" "C" "Major" 9 "dense driving percussion" (Some 0).

(** A decoded buffer of four frames. *)
Definition exampleBuffer : AudioBuffer :=
  {| length := 4; numberOfChannels := 1; sampleRate := 48000; duration := 4 / 48000;
     channelData := [[0; 0.5; 0; -0.5]] |}%float.

(** One second of silence at 48 kHz, its channel data left out. *)
Definition oneSecondBuffer : AudioBuffer :=
  {| length := 48000; numberOfChannels := 1; sampleRate := 48000; duration := 1;
     channelData := [] |}%float.

(** Two seconds of silence at 24 kHz, its channel data left out. *)
Definition twoSecondsAt24kHz : AudioBuffer :=
  {| length := 48000; numberOfChannels := 1; sampleRate := 24000; duration := 2;
     channelData := [] |}%float.

(** A session on a context at 48 kHz that received that buffer twice. *)
Definition fourSecondsQueued : Session :=
  afterCalls 48000 [(0, Some twoSecondsAt24kHz); (100, Some twoSecondsAt24kHz)].

(** Two decoded one-shots that both clear the bar in [scenarioContext]. *)
Definition kick : UserSample :=
  exampleSample "kick" (Some exampleBuffer) "one-shot" "C" "Major" 9 "dense driving" None.


Definition worldWith (catalog : list UserSample) (ltt : gmap string Z) : World :=
  {| samples := catalog; lastTriggerTimes := ltt; clockReads := 0; playCalls := [];
     played := []; triggered := []; console := [] |}.

(** A platform on which nothing decodes and no node fails. *)
Definition quietEnv : AudioEnv :=
  {| fileArrayBuffer := fun _ => Throw "NotReadableError";
     atob := fun _ => Throw "InvalidCharacterError";
     decodeAudioData := fun _ => Throw "EncodingError";
     graphFailure := fun _ _ => None |}.


(** A clock that starts at 10 s and advances 1 ms per reading. *)
Definition exampleClock : Clock := fun k => 10000 + Z.of_nat k.

(** A clock that reads [t] throughout a cycle. *)
Definition steadyClock (t : Z) : Clock := fun _ => t.




(** The one-shot of the first scenario alone, never fired. *)
Definition oneShotAlone : World := worldWith [scenarioOneShot] ∅.

(** The fx sample of the second scenario alone, never fired. *)
Definition fxAlone : World := worldWith [scenarioFx] ∅.

(** A loop next to a one-shot, nothing fired yet. *)
Definition loopAndOneShot : World := worldWith [exampleLoop; kick] ∅.

(** A platform on which every file reads, every base64 text is taken and
    everything decodes to [exampleBuffer]. *)
Definition studioEnv : AudioEnv :=
  {| fileArrayBuffer := fun _ => Normal [Byte.x52; Byte.x49; Byte.x46; Byte.x46];
     atob := fun _ => Normal [Byte.x52; Byte.x49; Byte.x46; Byte.x46];
     decodeAudioData := fun _ => Normal exampleBuffer;
     graphFailure := fun _ _ => None |}.

(** An uploaded hi-hat, not decoded yet, with the interval of 500 ms that
    the application gives a sample whose analysis names none. *)
Definition uploadedHat : UserSample :=
  {| id := "hat"; name := "hat.wav"; originalFile := Some "hat.wav";
     base64 := Some "UklGRg=="; audioBuffer := None;
     metadata :=
       {| sampleKey := Some "C"; sampleScale := Some "Major"; sampleType := Some "one-shot";
          moodTags := None; grooveDescription := Some "dense driving";
          suggestedHipHopUses := None; energyLevel := Some 9%float;
          minimumIntervalMs := Some 500; error := None |} |}.

(** The hi-hat alone in the catalog, never fired. *)
Definition hatAlone : World := worldWith [uploadedHat] ∅.

(** The hi-hat alone, last fired at 8 s. *)
Definition hatFiredAt8s : World := worldWith [uploadedHat] {[ "hat" := 8000 ]}.

(** What an analysis at 48 kHz meets: a half-scale byte spectrum for the
    energy, four bins for the other reads, and [failure] from the source
    node. *)
Definition exampleAnalysisEnv (failure : option string) : AudioContextAnalyzer.AnalysisEnv :=
  {| AudioContextAnalyzer.ctxSampleRate := 48000;
     AudioContextAnalyzer.nowAtEntry := 10000;
     AudioContextAnalyzer.nowAtReturn := 10100;
     AudioContextAnalyzer.sourceFailure := failure;
     AudioContextAnalyzer.frames :=
       {| floatFrequencyData := [0%float; neg_infinity; neg_infinity; neg_infinity];
          byteFrequencyDataKey := [Byte.x00; Byte.xff; Byte.x00; Byte.x00];
          byteFrequencyDataPeaks := [Byte.x00; Byte.xff; Byte.x90; Byte.x00];
          byteFrequencyDataEnergy := repeat Byte.x40 1024 |} |}.

(** A platform whose [createBuffer] refuses nothing. *)
Definition anyBuffer : N -> N -> float -> option string := fun _ _ _ => None.

(** Two stereo frames of PCM: 0.5 and -0.5, then the largest and the
    smallest value. *)
Definition stereoChunk : list Byte.byte :=
  [Byte.x00; Byte.x40; Byte.x00; Byte.xc0; Byte.xff; Byte.x7f; Byte.x00; Byte.x80].

(** A play call with an empty configuration object. *)
Definition emptyConfig : PlaybackConfig :=
  {| volume := None; pitchShift := None; timingOffset := None |}.

(** * Proofs *)

(** ** Signs and order of binary64 values *)

Section SpecFloatFacts.
Variables prec emax : Z.

Lemma shr_1_nonneg mrs : (0 <= shr_m mrs -> 0 <= shr_m (shr_1 mrs))%Z.
Proof.
  destruct mrs as [m r s]; simpl.
  destruct m as [|p|p]; [ | destruct p | ]; simpl; lia.
Qed.

Lemma iter_shr_1_nonneg p :
  forall mrs, (0 <= shr_m mrs -> 0 <= shr_m (SpecFloat.iter_pos shr_1 p mrs))%Z.
Proof.
  induction p as [p IH|p IH|]; intros mrs Hm; simpl.
  - apply IH, IH, shr_1_nonneg, Hm.
  - apply IH, IH, Hm.
  - apply shr_1_nonneg, Hm.
Qed.

Lemma shr_fexp_nonneg m e l :
  (0 <= m -> 0 <= shr_m (fst (shr_fexp prec emax m e l)))%Z.
Proof.
  intros Hm. unfold shr_fexp, shr.
  assert (Hrec : (0 <= shr_m (shr_record_of_loc m l))%Z)
    by (destruct l as [|[]]; exact Hm).
  destruct (fexp prec emax (Zdigits2 m + e) - e)%Z; simpl; auto.
  apply iter_shr_1_nonneg, Hrec.
Qed.

Lemma round_nearest_even_nonneg m l : (0 <= m -> 0 <= round_nearest_even m l)%Z.
Proof.
  intros Hm. destruct l as [|[]]; simpl; try lia.
  destruct (Z.even m); lia.
Qed.

(** Rounding keeps the sign and never yields NaN. *)
Lemma binary_round_aux_signed s m e l :
  (0 <= m)%Z -> signedSF s (binary_round_aux prec emax s m e l) = true.
Proof.
  intros Hm. unfold binary_round_aux.
  pose proof (shr_fexp_nonneg m e l Hm) as H1.
  destruct (shr_fexp prec emax m e l) as [mrs' e']. simpl in H1.
  pose proof (shr_fexp_nonneg _ e' loc_Exact
                (round_nearest_even_nonneg _ (loc_of_shr_record mrs') H1)) as H2.
  destruct (shr_fexp prec emax _ e' loc_Exact) as [mrs'' e'']. simpl in H2.
  destruct (shr_m mrs'') as [|p|p]; simpl.
  - apply eqb_reflx.
  - destruct (e'' <=? emax - prec)%Z; simpl; apply eqb_reflx.
  - lia.
Qed.

Lemma binary_normalize_signed z e :
  (0 <= z)%Z -> signedSF false (binary_normalize prec emax z e false) = true.
Proof.
  intros Hz. destruct z as [|p|p]; simpl; [reflexivity | | lia].
  unfold binary_round. destruct (shl_align _ _ _) as [mz ez].
  apply binary_round_aux_signed. lia.
Qed.

Lemma SFadd_signed x y :
  signedSF false x = true -> signedSF false y = true ->
  signedSF false (SFadd prec emax x y) = true.
Proof.
  destruct x as [[]|[]| |[] mx ex]; try discriminate;
    destruct y as [[]|[]| |[] my ey]; try discriminate; intros _ _; try reflexivity.
  unfold SFadd, cond_Zopp. apply binary_normalize_signed. lia.
Qed.

Lemma SFdiv_core_binary_nonneg mx ex my ey :
  (0 <= fst (fst (SFdiv_core_binary prec emax (Z.pos mx) ex (Z.pos my) ey)))%Z.
Proof.
  unfold SFdiv_core_binary.
  set (s := (ex - ey - _)%Z).
  set (m' := match s with Z0 => _ | Z.pos _ => _ | Z.neg _ => _ end).
  assert (Hm' : (0 <= m')%Z).
  { subst m'. destruct s; try lia. apply Z.shiftl_nonneg. lia. }
  destruct (Z.div_eucl m' (Z.pos my)) as [q r] eqn:E. simpl.
  assert (Hq : q = (m' / Z.pos my)%Z) by (unfold Z.div; rewrite E; reflexivity).
  subst q. apply Z.div_pos; lia.
Qed.

Lemma SFdiv_signed x y :
  signedSF false x = true -> finitePositiveSF y = true ->
  signedSF false (SFdiv prec emax x y) = true.
Proof.
  destruct x as [[]|[]| |[] mx ex]; try discriminate;
    destruct y as [[]|[]| |[] my ey]; try discriminate; intros _ _; try reflexivity.
  unfold SFdiv.
  pose proof (SFdiv_core_binary_nonneg mx ex my ey) as Hq.
  destruct (SFdiv_core_binary prec emax (Z.pos mx) ex (Z.pos my) ey) as [[mz ez] lz].
  apply binary_round_aux_signed. exact Hq.
Qed.

Lemma SFcompare_antisym x y :
  SFcompare y x = option_map CompOpp (SFcompare x y).
Proof.
  destruct x as [[]|[]| |[] mx ex], y as [[]|[]| |[] my ey]; try reflexivity; simpl.
  all: rewrite (Z.compare_antisym ex ey); destruct (ex ?= ey)%Z; simpl; try reflexivity.
  all: pose proof (Pos.compare_cont_antisym mx my Eq) as Ha; simpl in Ha; rewrite <- Ha.
  all: destruct (Pos.compare_cont Eq mx my); reflexivity.
Qed.

Lemma SFcompare_refl x : x <> S754_nan -> SFcompare x x = Some Eq.
Proof.
  destruct x as [[]|[]| |[] m e]; try reflexivity; try congruence; intros _; simpl;
    rewrite Z.compare_refl, Pos.compare_cont_refl; reflexivity.
Qed.

Lemma SFltb_SFleb x y : SFltb x y = true -> SFleb x y = true.
Proof. unfold SFltb, SFleb. destruct (SFcompare x y) as [[]|]; congruence. Qed.

Lemma SFleb_of_not_SFltb x y :
  x <> S754_nan -> y <> S754_nan -> SFltb y x = false -> SFleb x y = true.
Proof.
  unfold SFltb, SFleb. rewrite (SFcompare_antisym x y).
  destruct x as [[]|[]| |[] mx ex], y as [[]|[]| |[] my ey]; try congruence;
    intros _ _; destruct (SFcompare _ _) as [[]|] eqn:E; simpl; try congruence;
    simpl in E; discriminate.
Qed.

Lemma SFltb_of_SFleb x y : SFleb x y = true -> SFltb y x = false.
Proof.
  unfold SFltb, SFleb. rewrite (SFcompare_antisym x y).
  destruct (SFcompare x y) as [[]|]; simpl; congruence.
Qed.

Lemma binary_round_signed s m e :
  signedSF s (binary_round prec emax s m e) = true.
Proof.
  unfold binary_round. destruct (shl_align _ _ _) as [mz ez].
  apply binary_round_aux_signed. lia.
Qed.

Lemma SFldexp_signed s x e :
  signedSF s x = true -> signedSF s (SFldexp prec emax x e) = true.
Proof.
  destruct x as [s'|s'| |s' m' e']; cbn [SFldexp]; auto.
  cbn [signedSF]. intros E. apply eqb_prop in E. subst s'. apply binary_round_signed.
Qed.

End SpecFloatFacts.

(** ** The same facts on primitive floats *)

Section FloatFacts.
Local Open Scope float_scope.

Lemma nonneg_add x y : nonneg x = true -> nonneg y = true -> nonneg (x + y) = true.
Proof. unfold nonneg. rewrite FloatAxioms.add_spec. apply SFadd_signed. Qed.

Lemma nonneg_div x y : nonneg x = true -> finitePositive y = true -> nonneg (x / y) = true.
Proof. unfold nonneg, finitePositive. rewrite FloatAxioms.div_spec. apply SFdiv_signed. Qed.

Lemma nonneg_ofZ z : (0 <= z)%Z -> nonneg (ofZ z) = true.
Proof.
  intros Hz. unfold nonneg, ofZ.
  destruct (Z.ltb_spec z 0); [lia|].
  rewrite of_uint63_spec. apply binary_normalize_signed.
  apply Uint63.to_Z_bounded.
Qed.

Lemma isNaN_false_iff x : isNaN x = false <-> Prim2SF x <> S754_nan.
Proof.
  unfold isNaN. rewrite FloatAxioms.eqb_spec. unfold SFeqb. split.
  - intros E N. rewrite N in E. discriminate.
  - intros N. rewrite (SFcompare_refl _ N). reflexivity.
Qed.

Lemma nonneg_notNaN x : nonneg x = true -> isNaN x = false.
Proof.
  unfold nonneg. intros Hx. apply isNaN_false_iff. intros N. rewrite N in Hx. discriminate.
Qed.

Lemma nonneg_leb x : nonneg x = true -> (0 <=? x) = true.
Proof.
  unfold nonneg. rewrite FloatAxioms.leb_spec. change (Prim2SF 0) with (S754_zero false).
  destruct (Prim2SF x) as [[]|[]| |[] m e]; try discriminate; reflexivity.
Qed.

Lemma nonneg_signBit x : nonneg x = true -> signBit x = false.
Proof.
  unfold nonneg, signBit.
  destruct (Prim2SF x) as [[]|[]| |[] m e]; try discriminate; reflexivity.
Qed.

Lemma ltb_leb x y : (x <? y) = true -> (x <=? y) = true.
Proof. rewrite FloatAxioms.ltb_spec, FloatAxioms.leb_spec. apply SFltb_SFleb. Qed.

Lemma leb_of_not_ltb x y :
  isNaN x = false -> isNaN y = false -> (y <? x) = false -> (x <=? y) = true.
Proof.
  intros Nx Ny. rewrite FloatAxioms.ltb_spec, FloatAxioms.leb_spec.
  apply SFleb_of_not_SFltb; apply isNaN_false_iff; assumption.
Qed.

Lemma ltb_of_leb x y : (x <=? y) = true -> (y <? x) = false.
Proof. rewrite FloatAxioms.ltb_spec, FloatAxioms.leb_spec. apply SFltb_of_SFleb. Qed.

Lemma finitePositive_of_bounds x :
  (0 <? x) = true -> (x <? infinity) = true -> finitePositive x = true.
Proof.
  unfold finitePositive. rewrite !FloatAxioms.ltb_spec.
  change (Prim2SF 0) with (S754_zero false).
  change (Prim2SF infinity) with (S754_infinity false).
  destruct (Prim2SF x) as [[]|[]| |[] m e]; try discriminate; reflexivity.
Qed.

Lemma zero_of_SF x : Prim2SF x = S754_zero false -> x = 0.
Proof. intros E. apply Prim2SF_inj. rewrite E. reflexivity. Qed.

(** [Math.min(1, Math.max(0, x))], with NaN read as 0, lies in [0, 1]. *)
Lemma clamp01_range x :
  let d := Math_min 1 (Math_max 0 x) in
  let r := if isNaN d then 0 else d in
  ((0 <=? r) && (r <=? 1))%bool = true.
Proof.
  cbv zeta. unfold Math_max.
  change (isNaN 0) with false. change (signBit 0) with false. cbn [orb].
  destruct (isNaN x) eqn:Nx; [reflexivity|].
  destruct (0 <? x) eqn:Px; [|destruct (x <? 0); reflexivity].
  unfold Math_min. change (isNaN 1) with false. change (signBit 1) with false.
  rewrite Nx. cbn [orb].
  destruct (1 <? x) eqn:Gx; [reflexivity|].
  assert (H0 : (0 <=? x) = true) by (apply ltb_leb, Px).
  destruct (x <? 1) eqn:Lx; rewrite Nx, H0; cbn [andb].
  - apply ltb_leb, Lx.
  - apply leb_of_not_ltb; [exact Nx | reflexivity | exact Gx].
Qed.

(** A value rebuilt from a non-negative specification is non-negative. *)
Lemma nonneg_SF2Prim y : signedSF false y = true -> nonneg (SF2Prim y) = true.
Proof.
  destruct y as [[]|[]| |[] m e]; try discriminate; intros _; try reflexivity.
  unfold nonneg, SF2Prim, FloatOps.Z.ldexp.
  rewrite ldshiftexp_spec. apply SFldexp_signed.
  rewrite of_uint63_spec. apply binary_normalize_signed, Uint63.to_Z_bounded.
Qed.

Lemma nonneg_fround x : nonneg x = true -> nonneg (Math_fround x) = true.
Proof.
  intros Hx. unfold Math_fround. unfold nonneg in Hx.
  destruct (Prim2SF x) as [[]|[]| |[] m e] eqn:E; try discriminate;
    try (unfold nonneg; rewrite E; reflexivity).
  apply nonneg_SF2Prim, binary_round_signed.
Qed.

Lemma nonneg_notNegative x : nonneg x = true -> notNegative x = true.
Proof.
  unfold nonneg, notNegative. rewrite FloatAxioms.ltb_spec.
  change (Prim2SF 0) with (S754_zero false).
  destruct (Prim2SF x) as [[]|[]| |[] m e]; try discriminate; reflexivity.
Qed.

(** Rounding to binary32 makes no value negative. *)
Lemma notNegative_fround x : notNegative x = true -> notNegative (Math_fround x) = true.
Proof.
  intros Hx. destruct (nonneg x) eqn:N; [apply nonneg_notNegative, nonneg_fround, N|].
  unfold Math_fround. unfold nonneg in N. unfold notNegative in Hx.
  rewrite FloatAxioms.ltb_spec in Hx. change (Prim2SF 0) with (S754_zero false) in Hx.
  destruct (Prim2SF x) as [[]|[]| |[] m e] eqn:E; try discriminate;
    unfold notNegative; rewrite FloatAxioms.ltb_spec, E; reflexivity.
Qed.

End FloatFacts.

(** ** Energy and beat density *)

Section EnergyAndDensity.
Context `{MathLib}.
Local Open Scope float_scope.
Import AudioContextAnalyzer.

Lemma nonneg_byteValue b : nonneg (byteValue b) = true.
Proof. apply nonneg_ofZ. lia. Qed.

Lemma nonneg_byte_sum data : forall s,
  nonneg s = true -> nonneg (fold_left (fun s b => s + byteValue b) data s) = true.
Proof.
  induction data as [|b data IH]; intros s Hs; simpl; [exact Hs|].
  apply IH, nonneg_add; [exact Hs | apply nonneg_byteValue].
Qed.

Lemma Math_min_1_range v :
  nonneg v = true -> inUnitInterval (Math_min v 1) = true.
Proof.
  intros Hv. unfold inUnitInterval, Math_min.
  rewrite (nonneg_notNaN _ Hv), (nonneg_signBit _ Hv).
  change (isNaN 1) with false. cbn [orb].
  destruct (v <? 1) eqn:L.
  - rewrite (nonneg_leb _ Hv), (ltb_leb _ _ L). reflexivity.
  - destruct (1 <? v); reflexivity.
Qed.

Lemma calculateEnergy_range frequencyData :
  List.length frequencyData = Z.to_nat frequencyBinCount ->
  inUnitInterval (calculateEnergy frequencyData) = true.
Proof.
  intros Hlen. unfold calculateEnergy, arrayLength. rewrite Hlen.
  apply Math_min_1_range.
  apply nonneg_div; [apply nonneg_div|]; [|reflexivity|reflexivity].
  apply nonneg_byte_sum. reflexivity.
Qed.

Lemma zero_byte_sum data :
  Forall (eq Byte.x00) data -> fold_left (fun s b => s + byteValue b) data 0 = 0.
Proof.
  induction 1 as [|b data Hb _ IH]; simpl; [reflexivity|].
  subst b. exact IH.
Qed.

Lemma calculateEnergy_zero frequencyData :
  List.length frequencyData = Z.to_nat frequencyBinCount ->
  Forall (eq Byte.x00) frequencyData -> calculateEnergy frequencyData = 0.
Proof.
  intros Hlen Hz. unfold calculateEnergy, arrayLength.
  rewrite Hlen, (zero_byte_sum _ Hz). reflexivity.
Qed.

Lemma detect_density_range a floatData :
  inUnitInterval (infoBeatDensity (snd (detectOnsetsAndDensity a floatData))) = true.
Proof.
  unfold detectOnsetsAndDensity.
  destruct (pushFlux _ _) as [|h t]; cbn [snd infoBeatDensity]; [reflexivity|].
  apply clamp01_range.
Qed.

Lemma sub_from_zero_not_positive p : notNegative p = true -> (0 <? 0 - p) = false.
Proof.
  unfold notNegative. rewrite !FloatAxioms.ltb_spec, FloatAxioms.sub_spec.
  change (Prim2SF 0) with (S754_zero false).
  destruct (Prim2SF p) as [[]|[]| |[] m e]; try discriminate; reflexivity.
Qed.

Lemma silent_flux floatData : forall prev,
  Forall (fun db => silent db = true) floatData ->
  Forall (fun p => notNegative p = true) prev ->
  spectralFluxFrom 0 (map toLinear floatData) prev = 0.
Proof.
  induction floatData as [|db rest IH]; intros prev Hs Hp; [reflexivity|].
  inversion Hs as [|? ? Hdb Hrest]; subst. cbn [map spectralFluxFrom].
  unfold toLinear at 1. unfold silent in Hdb. rewrite Hdb.
  change (Math_fround 0) with 0.
  destruct prev as [|p prev]; cbn [hd tl].
  - change (0 <? 0 - nan) with false. apply IH; [exact Hrest | constructor].
  - inversion Hp as [|? ? Hp0 Hprev]; subst.
    rewrite (sub_from_zero_not_positive _ Hp0). apply IH; assumption.
Qed.

Lemma zero_flux_density d :
  let raw := if d =? 0 then 0 else (0 / d - 1) / 5 in
  let b := Math_min 1 (Math_max 0 raw) in
  (if isNaN b then 0 else b) = 0.
Proof.
  cbv zeta. rewrite FloatAxioms.eqb_spec.
  assert (Hq : Prim2SF (0 / d) = SFdiv prec emax (S754_zero false) (Prim2SF d))
    by (rewrite FloatAxioms.div_spec; reflexivity).
  change (Prim2SF 0) with (S754_zero false).
  destruct (Prim2SF d) as [[]|[]| |[] m e]; try reflexivity;
    simpl in Hq;
    match type of Hq with
    | _ = ?v => replace (0 / d) with (SF2Prim v)
                  by (apply Prim2SF_inj; rewrite Hq; reflexivity)
    end; reflexivity.
Qed.

Lemma detect_density_silent a floatData :
  Forall (fun db => silent db = true) floatData ->
  Forall (fun p => notNegative p = true) (prevSpectrum a) ->
  infoBeatDensity (snd (detectOnsetsAndDensity a floatData)) = 0.
Proof.
  intros Hs Hp. unfold detectOnsetsAndDensity.
  rewrite (silent_flux _ _ Hs Hp).
  destruct (pushFlux _ _) as [|h t]; cbn [snd infoBeatDensity]; [reflexivity|].
  apply zero_flux_density.
Qed.


(** The spectrum the detector keeps for the next call: no magnitude in it
    is negative, as long as [Math.pow] of 10 is not. *)
Lemma detect_prevSpectrum a floatData :
  (forall y, notNegative (Math_pow 10 y) = true) ->
  Forall (fun p => notNegative p = true)
         (prevSpectrum (fst (detectOnsetsAndDensity a floatData))).
Proof.
  intros Hpow.
  assert (E : prevSpectrum (fst (detectOnsetsAndDensity a floatData))
              = map toLinear floatData).
  { unfold detectOnsetsAndDensity. destruct (pushFlux _ _); reflexivity. }
  rewrite E. apply List.Forall_forall. intros p Hp.
  apply List.in_map_iff in Hp as (db & <- & _).
  unfold toLinear. apply notNegative_fround.
  destruct (db <? -100); [reflexivity | apply Hpow].
Qed.

(** C7.  For every analyser state and every spectrum the analyser node
    delivers, the energy of [calculateEnergy] and the beat density of
    [detectOnsetsAndDensity] lie in [0, 1], so neither is NaN; an all-zero
    byte spectrum gives the energy 0, and a frame whose bins are all
    silent, after a previous spectrum without negative magnitudes, gives
    the beat density 0.  The previous spectrum has no negative magnitude
    in a new analyser, nor after any call. *)
Theorem energy_and_density_in_unit_interval
    (a : Analyzer) (floatData : list float) (frequencyData : list Byte.byte) :
  List.length frequencyData = Z.to_nat frequencyBinCount ->
  let e := calculateEnergy frequencyData in
  let d := infoBeatDensity (snd (detectOnsetsAndDensity a floatData)) in
  inUnitInterval e = true /\ inUnitInterval d = true /\
  (Forall (eq Byte.x00) frequencyData -> e = 0) /\
  (Forall (fun db => silent db = true) floatData ->
   Forall (fun p => notNegative p = true) (prevSpectrum a) -> d = 0) /\
  Forall (fun p => notNegative p = true) (prevSpectrum new) /\
  ((forall y, notNegative (Math_pow 10 y) = true) ->
   Forall (fun p => notNegative p = true)
          (prevSpectrum (fst (detectOnsetsAndDensity a floatData)))).
Proof.
  intros Hlen e d. repeat split.
  - apply calculateEnergy_range, Hlen.
  - apply detect_density_range.
  - apply calculateEnergy_zero, Hlen.
  - apply detect_density_silent.
  - apply List.Forall_forall. intros p Hp. apply List.repeat_spec in Hp. subst p. reflexivity.
  - apply detect_prevSpectrum.
Qed.

End EnergyAndDensity.

(** A half-scale byte spectrum, and a frame with one loud bin. *)
Lemma energy_and_density_witness :
  List.length (repeat Byte.x40 1024) = Z.to_nat AudioContextAnalyzer.frequencyBinCount /\
  inUnitInterval (AudioContextAnalyzer.calculateEnergy (repeat Byte.x40 1024)) = true /\
  inUnitInterval
    (AudioContextAnalyzer.infoBeatDensity
       (snd (AudioContextAnalyzer.detectOnsetsAndDensity (H := exampleMath)
               AudioContextAnalyzer.new (0%float :: repeat neg_infinity 1023)))) = true.
Proof.
  split; [reflexivity|].
  destruct (energy_and_density_in_unit_interval (H := exampleMath)
              AudioContextAnalyzer.new (0%float :: repeat neg_infinity 1023)
              (repeat Byte.x40 1024) eq_refl) as (He & Hd & _).
  split; [exact He | exact Hd].
Defined.

(** ** The analysis of a missing or empty buffer *)

(** C4.  For a [null] input buffer and for one of length 0,
    [analyzeRealTimeContext] leaves the analyser as it is, warns on the
    console and returns (it does not throw) the default snapshot: energy 0,
    beat density 0, onsets [[false]], no key, no scale, no dominant
    frequency. *)
Theorem analyze_null_or_empty `{MathLib} (e : AudioContextAnalyzer.AnalysisEnv)
    (a : Analyzer) (inputBuffer : option AudioBuffer) :
  nullOrEmpty inputBuffer = true ->
  exists msg context,
    AudioContextAnalyzer.analyzeRealTimeContext e a inputBuffer
    = (a, [Warn msg], Normal context) /\
    energy context = Some 0%float /\
    beatDensity context = Some 0%float /\
    onsets context = Some [false] /\
    key context = None /\
    scale context = None /\
    dominantFrequencies context = Some [].
Proof.
  intros Hb. unfold AudioContextAnalyzer.analyzeRealTimeContext.
  destruct inputBuffer as [b|]; cbn [nullOrEmpty] in Hb; [rewrite Hb|];
    eexists _, _; (split; [reflexivity|]); repeat split.
Qed.

(** An environment whose source node would throw, to show that the guard
    comes first. *)
Lemma analyze_null_or_empty_witness :
  nullOrEmpty None = true /\
  exists msg context,
    AudioContextAnalyzer.analyzeRealTimeContext (H := exampleMath)
      {| AudioContextAnalyzer.ctxSampleRate := 48000;
         AudioContextAnalyzer.nowAtEntry := 10000;
         AudioContextAnalyzer.nowAtReturn := 10100;
         AudioContextAnalyzer.sourceFailure := Some "InvalidStateError";
         AudioContextAnalyzer.frames :=
           {| floatFrequencyData := []; byteFrequencyDataKey := [];
              byteFrequencyDataPeaks := []; byteFrequencyDataEnergy := [] |} |}
      AudioContextAnalyzer.new None
    = (AudioContextAnalyzer.new, [Warn msg], Normal context) /\
    energy context = Some 0%float /\
    beatDensity context = Some 0%float /\
    onsets context = Some [false] /\
    key context = None /\
    scale context = None /\
    dominantFrequencies context = Some [].
Proof.
  split; [reflexivity|].
  apply (analyze_null_or_empty (H := exampleMath)). reflexivity.
Defined.

(** ** Key compatibility *)

Section KeyFacts.
Import SmartSampleTrigger.

Lemma indexOfFrom_range arr x : forall i,
  indexOfFrom i arr x = -1 \/ i <= indexOfFrom i arr x < i + Z.of_nat (List.length arr).
Proof.
  induction arr as [|y rest IH]; intros i; cbn [indexOfFrom List.length]; [left; reflexivity|].
  destruct (String.eqb y x); [right; lia|].
  destruct (IH (i + 1)) as [E|R]; [left; exact E | right; lia].
Qed.

Lemma indexOf_pitch_class x :
  indexOf PITCH_CLASS_NAMES x = -1 \/ 0 <= indexOf PITCH_CLASS_NAMES x < 12.
Proof. apply (indexOfFrom_range PITCH_CLASS_NAMES x 0). Qed.

Lemma getPitchClass_range keyName pc :
  getPitchClass keyName = Some pc -> 0 <= pc < 12.
Proof.
  unfold getPitchClass. destruct keyName as [[|c k]|]; try discriminate.
  cbv zeta. set (normalized := replaceAll _ _ _).
  pose proof (indexOf_pitch_class normalized) as Hn.
  destruct (negb (indexOf PITCH_CLASS_NAMES normalized =? -1)) eqn:E1.
  - intros E. injection E as E. apply negb_true_iff in E1; apply Z.eqb_neq in E1. lia.
  - destruct (endsWith "B" normalized && _)%bool; [|intros E; discriminate E].
    pose proof (indexOf_pitch_class (charAt 0 normalized)) as Hc.
    destruct (negb (indexOf PITCH_CLASS_NAMES (charAt 0 normalized) =? -1)) eqn:E2;
      [|intros E; discriminate E].
    intros E. injection E as E. apply negb_true_iff in E2; apply Z.eqb_neq in E2.
    subst pc. unfold NUM_CHROMA_BINS. apply Z.rem_bound_pos; lia.
Qed.

Lemma getPitchClass_truthy keyName pc :
  getPitchClass keyName = Some pc -> truthy keyName = true.
Proof. destruct keyName as [[|c k]|]; try discriminate; reflexivity. Qed.

Lemma getSemitoneDifference_aligns s c :
  0 <= s < 12 -> 0 <= c < 12 ->
  -6 <= getSemitoneDifference s c <= 6 /\
  Z.rem (s + getSemitoneDifference s c + 12) 12 = c.
Proof.
  intros Hs Hc. unfold getSemitoneDifference.
  destruct (Z.ltb_spec 6 (c - s)).
  - destruct (Z.ltb_spec (c - s - 12) (-6)); [lia|].
    split; [lia|]. replace (s + (c - s - 12) + 12) with c by lia.
    apply Z.rem_small; lia.
  - destruct (Z.ltb_spec (c - s) (-6)).
    + split; [lia|]. replace (s + (c - s + 12) + 12) with (c + 2 * 12) by lia.
      rewrite Z.rem_add by lia. apply Z.rem_small; lia.
    + split; [lia|]. replace (s + (c - s) + 12) with (c + 1 * 12) by lia.
      rewrite Z.rem_add by lia. apply Z.rem_small; lia.
Qed.

(** The key score, by what is known of the two keys. *)
Lemma key_score_cases contextKey contextScale sampleKey sampleScale :
  score (calculateKeyCompatibility contextKey contextScale sampleKey sampleScale) =
  if truthy contextKey && truthy sampleKey && truthy contextScale && truthy sampleScale
  then match getPitchClass contextKey, getPitchClass sampleKey with
       | Some _, Some _ =>
           if scalesMatch contextScale sampleScale then 1.0%float else 0.8%float
       | _, _ =>
           if scalesMatch contextScale sampleScale then 0.7%float else 0.3%float
       end
  else 0.5%float.
Proof.
  unfold calculateKeyCompatibility.
  destruct contextKey as [[|c1 k1]|]; try reflexivity;
    destruct sampleKey as [[|c2 k2]|]; try reflexivity;
    destruct contextScale as [[|c3 k3]|]; try reflexivity;
    destruct sampleScale as [[|c4 k4]|]; try reflexivity.
  cbn [truthy andb score scalesMatch].
  destruct (getPitchClass (Some (String c1 k1))) as [c|] eqn:Ec;
    destruct (getPitchClass (Some (String c2 k2))) as [s|] eqn:Es; try reflexivity.
  destruct (getSemitoneDifference_aligns s c
              (getPitchClass_range _ _ Es) (getPitchClass_range _ _ Ec)) as [_ ->].
  rewrite Z.eqb_refl. reflexivity.
Qed.

Lemma getPitchClass_name i :
  0 <= i < 12 ->
  getPitchClass (Some (nth (Z.to_nat i) PITCH_CLASS_NAMES EmptyString)) = Some i.
Proof.
  intros Hi.
  assert (Hcases : i = 0 \/ i = 1 \/ i = 2 \/ i = 3 \/ i = 4 \/ i = 5 \/ i = 6 \/ i = 7
                   \/ i = 8 \/ i = 9 \/ i = 10 \/ i = 11) by lia.
  repeat (destruct Hcases as [->|Hcases]; [vm_compute; reflexivity|]).
  subst i. vm_compute. reflexivity.
Qed.

Lemma upperChar_idem c : upperChar (upperChar c) = upperChar c.
Proof. destruct c as [[] [] [] [] [] [] [] []]; reflexivity. Qed.

Lemma upperChar_lowerChar c : upperChar (lowerChar c) = upperChar c.
Proof. destruct c as [[] [] [] [] [] [] [] []]; reflexivity. Qed.

Lemma toUpperCase_idem s : toUpperCase (toUpperCase s) = toUpperCase s.
Proof.
  induction s as [|c s IH]; cbn; [reflexivity|]. rewrite upperChar_idem, IH. reflexivity.
Qed.

Lemma toUpperCase_toLowerCase s : toUpperCase (toLowerCase s) = toUpperCase s.
Proof.
  induction s as [|c s IH]; cbn; [reflexivity|]. rewrite upperChar_lowerChar, IH. reflexivity.
Qed.

(** [getPitchClass] looks at the upper-cased name only. *)
Lemma getPitchClass_toUpperCase k :
  getPitchClass (Some (toUpperCase k)) = getPitchClass (Some k).
Proof.
  destruct k as [|c k]; [reflexivity|].
  unfold getPitchClass. cbn [toUpperCase].
  change (String (upperChar (upperChar c)) (toUpperCase (toUpperCase k)))
    with (toUpperCase (toUpperCase (String c k))).
  change (String (upperChar c) (toUpperCase k)) with (toUpperCase (String c k)).
  rewrite toUpperCase_idem. reflexivity.
Qed.

(** [getPitchClass] resolves every note name to the pitch class it is
    written for, the sharps of E and of B apart. *)
Lemma getPitchClass_written keyName pc :
  writtenPitchClass keyName = Some pc -> sharpOfEOrB keyName = false ->
  getPitchClass (Some keyName) = Some pc.
Proof.
  destruct keyName as [|c suffix]; try discriminate.
  rewrite <- getPitchClass_toUpperCase. cbn [toUpperCase].
  unfold writtenPitchClass, sharpOfEOrB, letterPitchClass, accidentalOf. cbv zeta.
  repeat match goal with
         | |- context [Ascii.eqb (upperChar c) ?b] =>
             destruct (Ascii.eqb_spec (upperChar c) b) as [->|?]
         end;
    repeat match goal with
           | |- context [String.eqb (toUpperCase suffix) ?b] =>
               destruct (String.eqb_spec (toUpperCase suffix) b) as [->|?]
           end;
    intros E Hs; vm_compute in E, Hs; try discriminate;
    injection E as <-; vm_compute; reflexivity.
Qed.

(** The sharps of E and of B are note names that [getPitchClass] does not
    resolve. *)
Lemma getPitchClass_sharpOfEOrB keyName :
  sharpOfEOrB keyName = true ->
  is_Some (writtenPitchClass keyName) /\ getPitchClass (Some keyName) = None.
Proof.
  destruct keyName as [|c suffix]; try discriminate.
  rewrite <- getPitchClass_toUpperCase. cbn [toUpperCase].
  unfold writtenPitchClass, sharpOfEOrB, letterPitchClass, accidentalOf. cbv zeta.
  repeat match goal with
         | |- context [Ascii.eqb (upperChar c) ?b] =>
             destruct (Ascii.eqb_spec (upperChar c) b) as [->|?]
         end;
    repeat match goal with
           | |- context [String.eqb (toUpperCase suffix) ?b] =>
               destruct (String.eqb_spec (toUpperCase suffix) b) as [->|?]
           end;
    intros Hs; vm_compute in Hs; try discriminate;
    (split; [eexists; reflexivity | vm_compute; reflexivity]).
Qed.

(** The code resolves a transposed key [n] semitones above the key it
    comes from, the sharps of E and of B apart. *)
Lemma getPitchClass_transposeKey n keyName keyName' :
  transposeKey n keyName = Some keyName' -> sharpOfEOrB keyName = false ->
  exists pc,
    getPitchClass (Some keyName) = Some pc /\
    getPitchClass (Some keyName') = Some ((pc + n) mod 12).
Proof.
  unfold transposeKey. intros E Hs.
  destruct (writtenPitchClass keyName) as [pc|] eqn:Ew; [|discriminate E].
  injection E as <-. exists pc. split; [exact (getPitchClass_written _ _ Ew Hs)|].
  apply getPitchClass_name, Z.mod_pos_bound. lia.
Qed.



(** C8, as the code has it.  Take a context key and a sample key that are
    note names, neither a sharp of E or of B, and the keys [n] semitones
    above them.  [getPitchClass] resolves all four, the transposed ones [n]
    semitones above the others, and with any scales the key score of the
    transposed pair is the key score of the pair. *)
Theorem key_score_transposition_invariant
    (n : Z) (contextKey sampleKey contextKey' sampleKey' : string)
    (contextScale sampleScale : option string) :
  transposeKey n contextKey = Some contextKey' ->
  transposeKey n sampleKey = Some sampleKey' ->
  sharpOfEOrB contextKey = false ->
  sharpOfEOrB sampleKey = false ->
  (exists c s,
     getPitchClass (Some contextKey) = Some c /\
     getPitchClass (Some sampleKey) = Some s /\
     getPitchClass (Some contextKey') = Some ((c + n) mod 12) /\
     getPitchClass (Some sampleKey') = Some ((s + n) mod 12)) /\
  score (calculateKeyCompatibility (Some contextKey') contextScale
                                   (Some sampleKey') sampleScale)
  = score (calculateKeyCompatibility (Some contextKey) contextScale
                                     (Some sampleKey) sampleScale).
Proof.
  intros Ec Es Hc Hs.
  destruct (getPitchClass_transposeKey n contextKey contextKey' Ec Hc) as (c & Hc0 & Hc1).
  destruct (getPitchClass_transposeKey n sampleKey sampleKey' Es Hs) as (s & Hs0 & Hs1).
  split; [exists c, s; auto|].
  rewrite !key_score_cases, Hc0, Hc1, Hs0, Hs1.
  rewrite (getPitchClass_truthy _ _ Hc0), (getPitchClass_truthy _ _ Hc1),
    (getPitchClass_truthy _ _ Hs0), (getPitchClass_truthy _ _ Hs1).
  reflexivity.
Qed.

End KeyFacts.

(** A against E flat, a semitone up: A sharp against E. *)
Lemma key_score_transposition_invariant_witness :
  transposeKey 1 "A" = Some "A#"%string /\ transposeKey 1 "Eb" = Some "E"%string /\
  sharpOfEOrB "A" = false /\ sharpOfEOrB "Eb" = false /\
  SmartSampleTrigger.score
    (SmartSampleTrigger.calculateKeyCompatibility
       (Some "A#") (Some "Major") (Some "E") (Some "minor"))
  = SmartSampleTrigger.score
      (SmartSampleTrigger.calculateKeyCompatibility
         (Some "A") (Some "Major") (Some "Eb") (Some "minor")).
Proof.
  split; [reflexivity|]. split; [reflexivity|]. split; [reflexivity|]. split; [reflexivity|].
  exact (proj2 (key_score_transposition_invariant 1 "A" "Eb" "A#" "E" (Some "Major")
                  (Some "minor") eq_refl eq_refl eq_refl eq_refl)).
Defined.

(** C8, as the spec states it, fails: E sharp is F, but [getPitchClass]
    resolves no E sharp, so E sharp against C, both major, scores 0.7; a
    semitone up the keys are F sharp and C sharp, which score 1.0. *)
Lemma transposition_changes_score_of_E_sharp :
  writtenPitchClass "E#" = Some 5 /\
  SmartSampleTrigger.getPitchClass (Some "E#") = None /\
  transposeKey 1 "E#" = Some "F#"%string /\
  transposeKey 1 "C" = Some "C#"%string /\
  SmartSampleTrigger.score
    (SmartSampleTrigger.calculateKeyCompatibility
       (Some "E#") (Some "Major") (Some "C") (Some "Major")) = 0.7%float /\
  SmartSampleTrigger.score
    (SmartSampleTrigger.calculateKeyCompatibility
       (Some "F#") (Some "Major") (Some "C#") (Some "Major")) = 1.0%float /\
  ~ transpositionInvariant.
Proof.
  do 6 (split; [vm_compute; reflexivity|]).
  intros Hinv.
  specialize (Hinv 1 "E#"%string "C"%string "F#"%string "C#"%string
                (Some "Major"%string) (Some "Major"%string) eq_refl eq_refl).
  apply (f_equal (fun x => (x <? 0.8)%float)) in Hinv.
  vm_compute in Hinv. discriminate Hinv.
Qed.


(** ** The trigger scheduler *)

Section TriggerFacts.
Import SmartSampleTrigger.
Context `{MathLib}.
Variable env : AudioEnv.
Variable clock : Clock.
Variable hasCallback : bool.
Variable musicContext : MusicalContext.

(** Unfold the mixer and the operations on the world. *)
Ltac run :=
  unfold AudioMixer.playSample, AudioMixer.decodeAndStoreAudioBuffer,
         mbind, M_bind, mret, M_ret, mthrow, M_throw,
         getSample, setSample, call, log, start, notify, Date_now,
         getLastTriggerTime, setLastTriggerTime in *.

(** Case analysis on a scrutinee that has no [match] inside it. *)
Ltac innermost :=
  match goal with
  | |- context [match ?x with _ => _ end] =>
      lazymatch x with
      | context [match _ with _ => _ end] => fail
      | _ => destruct x eqn:?
      end
  end.

Lemma advance_0 w : advance 0 w = w.
Proof. destruct w; reflexivity. Qed.

Lemma advance_advance n m w : advance n (advance m w) = advance (n + m) w.
Proof. unfold advance; simpl. f_equal. lia. Qed.

Lemma playSample_frame i cfg w :
  let w' := fst (AudioMixer.playSample env i cfg w) in
  lastTriggerTimes w' = lastTriggerTimes w /\
  clockReads w' = clockReads w /\
  triggered w' = triggered w /\
  List.length (samples w') = List.length (samples w) /\
  (forall s, samples w !! i = Some s -> playCalls w' = playCalls w ++ [(i, s, cfg)]).
Proof.
  run. cbv zeta.
  repeat (innermost; cbn -[append]);
    rewrite ?length_insert; repeat split; auto; intros; simplify_eq; auto.
Qed.


Lemma shouldTriggerSample_eq s w :
  shouldTriggerSample clock s musicContext w =
  (if autoTriggered (sampleType (metadata s)) then advance 1 w else w,
   Normal
     {| trigger := passes (lastTriggerTimes w) (clock (clockReads w)) s musicContext;
        triggerPitchShift :=
          if autoTriggered (sampleType (metadata s))
             && negb (clock (clockReads w) - AudioMixer.orElse (lastTriggerTimes w !! id s) 0
                      <? AudioMixer.orElse (minimumIntervalMs (metadata s)) 3000)
          then pitchShiftSemitones
                 (calculateKeyCompatibility (key musicContext) (scale musicContext)
                    (sampleKey (metadata s)) (sampleScale (metadata s)))
          else 0 |}).
Proof.
  unfold shouldTriggerSample, passes. run.
  destruct (autoTriggered _); cbn; [|destruct w; reflexivity].
  destruct (_ <? _); reflexivity.
Qed.

Lemma shouldTriggerSample_advance s w :
  shouldTriggerSample clock s musicContext w =
  (advance (if autoTriggered (sampleType (metadata s)) then 1 else 0) w,
   Normal
     {| trigger := passes (lastTriggerTimes w) (clock (clockReads w)) s musicContext;
        triggerPitchShift :=
          triggerPitchShift (AudioMixer.orElse
            (match snd (shouldTriggerSample clock s musicContext w) with
             | Normal d => Some d
             | Throw _ => None
             end) {| trigger := false; triggerPitchShift := 0 |}) |}).
Proof.
  rewrite shouldTriggerSample_eq. cbn [snd AudioMixer.orElse triggerPitchShift].
  destruct (autoTriggered _); [|rewrite advance_0]; reflexivity.
Qed.

(** The first loop: it only reads the clock, never throws, and selects
    only, and all, samples that pass at their decision reading. *)
Lemma selectFrom_spec catalog : forall i w,
  exists n eligible,
    selectFrom clock i catalog musicContext w = (advance n w, Normal eligible) /\
    (forall j p, (j, p) ∈ eligible ->
       exists s, (i <= j)%nat /\ catalog !! (j - i)%nat = Some s /\
                 passes (lastTriggerTimes w)
                        (clock (clockReads w + readsBefore catalog (j - i))%nat)
                        s musicContext = true) /\
    (forall j s, catalog !! j = Some s ->
       passes (lastTriggerTimes w) (clock (clockReads w + readsBefore catalog j)%nat)
              s musicContext = true ->
       exists p, ((i + j)%nat, p) ∈ eligible).
Proof.
  induction catalog as [|s rest IH]; intros i w.
  - exists 0%nat, []. rewrite advance_0. split; [reflexivity|].
    split; [intros j p Hin; inversion Hin | intros j s Hs; discriminate].
  - pose proof (shouldTriggerSample_advance s w) as E0.
    set (n0 := if autoTriggered (sampleType (metadata s)) then 1%nat else 0%nat) in *.
    destruct (IH (S i) (advance n0 w)) as (n & more & E & Hsound & Hcomplete).
    cbn [selectFrom]. unfold mbind, M_bind at 1. rewrite E0.
    unfold M_bind. rewrite E. rewrite advance_advance.
    set (d := {| trigger := _ |}).
    exists (n + n0)%nat, (if trigger d then (i, triggerPitchShift d) :: more else more).
    split; [reflexivity|]. split.
    + intros j p Hin.
      assert (Hcase : (j = i /\ trigger d = true) \/ (j, p) ∈ more).
      { destruct (trigger d); [|right; exact Hin].
        apply elem_of_cons in Hin as [Heq|Hin]; [left; split; congruence | right; exact Hin]. }
      destruct Hcase as [[-> Ht]|Hin'].
      * exists s. rewrite Nat.sub_diag. cbn [readsBefore]. rewrite Nat.add_0_r.
        repeat split; auto.
      * destruct (Hsound j p Hin') as (s' & Hle & Hs' & Hp).
        exists s'. cbn [advance lastTriggerTimes clockReads] in Hp.
        replace (j - i)%nat with (S (j - S i)) by lia. cbn [readsBefore]. fold n0.
        replace (clockReads w + (n0 + readsBefore rest (j - S i)))%nat
          with (n0 + clockReads w + readsBefore rest (j - S i))%nat by lia.
        repeat split; try lia; auto.
    + intros j s' Hs' Hpass. destruct j as [|j]; cbn in Hs'.
      * injection Hs' as ->. exists (triggerPitchShift d).
        cbn [readsBefore] in Hpass. rewrite Nat.add_0_r in Hpass.
        assert (Ht : trigger d = true) by exact Hpass.
        rewrite Ht, Nat.add_0_r. apply list_elem_of_here.
      * destruct (Hcomplete j s' Hs') as [p Hp].
        { cbn [advance lastTriggerTimes clockReads].
          cbn [readsBefore] in Hpass. fold n0 in Hpass.
          replace (n0 + clockReads w + readsBefore rest j)%nat
            with (clockReads w + (n0 + readsBefore rest j))%nat by lia.
          exact Hpass. }
        exists p. replace (i + S j)%nat with (S i + j)%nat by lia.
        destruct (trigger d); [apply list_elem_of_further|]; exact Hp.
Qed.

(** One turn of the second loop, by what the play call comes back with. *)
Lemma fireAll_cons i p rest w s :
  samples w !! i = Some s ->
  fireAll env clock hasCallback musicContext ((i, p) :: rest) w =
  match AudioMixer.playSample env i (calculatePlaybackConfig s musicContext p) w with
  | (w1, Normal _) =>
      fireAll env clock hasCallback musicContext rest
        (recordFiring clock hasCallback musicContext i s
           (calculatePlaybackConfig s musicContext p) w1)
  | (w1, Throw e) => (w1, Throw e)
  end.
Proof.
  intros Hs. cbn [fireAll]. unfold mbind at 1, M_bind at 1, getSample at 1.
  rewrite Hs. unfold mbind at 1, M_bind at 1.
  destruct (AudioMixer.playSample _ _ _ _) as [w1 [[]|e]]; [|reflexivity].
  unfold recordFiring. run. destruct hasCallback; reflexivity.
Qed.

Lemma fireAll_undefined i p rest w :
  samples w !! i = None ->
  fireAll env clock hasCallback musicContext ((i, p) :: rest) w
  = (w, Throw "TypeError: sample is undefined").
Proof.
  intros Hs. cbn [fireAll]. unfold mbind at 1, M_bind at 1, getSample at 1.
  rewrite Hs. reflexivity.
Qed.

(** The play calls of the second loop are calls for eligible samples. *)
Lemma fireAll_calls eligible : forall w,
  exists new,
    playCalls (fst (fireAll env clock hasCallback musicContext eligible w))
    = playCalls w ++ new /\
    forall c, c ∈ new -> c.1.1 ∈ eligible.*1.
Proof.
  induction eligible as [|[i p] rest IH]; intros w.
  - exists []. rewrite app_nil_r. split; [reflexivity | intros c Hc; inversion Hc].
  - destruct (samples w !! i) as [s|] eqn:Hs.
    + rewrite (fireAll_cons _ _ _ _ _ Hs).
      destruct (playSample_frame i (calculatePlaybackConfig s musicContext p) w)
        as (_ & _ & _ & _ & Hcalls).
      specialize (Hcalls s Hs).
      destruct (AudioMixer.playSample _ _ _ _) as [w1 [[]|e]]; cbn [fst] in Hcalls.
      * destruct (IH (recordFiring clock hasCallback musicContext i s
                        (calculatePlaybackConfig s musicContext p) w1))
          as (new & E & Hnew).
        exists ((i, s, calculatePlaybackConfig s musicContext p) :: new).
        rewrite E. cbn [recordFiring playCalls]. rewrite Hcalls, <- app_assoc.
        split; [reflexivity|].
        intros c [->|Hc]%elem_of_cons; cbn; [apply list_elem_of_here|].
        apply list_elem_of_further, Hnew, Hc.
      * exists [(i, s, calculatePlaybackConfig s musicContext p)].
        split; [exact Hcalls|].
        intros c ->%list_elem_of_singleton. apply list_elem_of_here.
    + rewrite (fireAll_undefined _ _ _ _ Hs). exists []. rewrite app_nil_r.
      split; [reflexivity | intros c Hc; inversion Hc].
Qed.


(** Every play call of a cycle is for a sample of the catalog that passed
    at its decision reading. *)
Lemma evaluateAndTrigger_calls w :
  exists new,
    playCalls (fst (evaluateAndTrigger env clock hasCallback musicContext w))
    = playCalls w ++ new /\
    forall c, c ∈ new ->
      exists s, samples w !! c.1.1 = Some s /\
                passes (lastTriggerTimes w) (decisionTime clock w c.1.1) s musicContext = true.
Proof.
  destruct (selectFrom_spec (samples w) 0%nat w) as (n & eligible & E & Hsound & _).
  destruct (fireAll_calls eligible (advance n w)) as (new & Ecalls & Hnew).
  exists new. split.
  - unfold evaluateAndTrigger, mbind, M_bind. rewrite E. exact Ecalls.
  - intros c Hc. apply Hnew in Hc.
    apply list_elem_of_fmap in Hc as ([j p] & Hj & Hin). cbn in Hj. subst j.
    destruct (Hsound _ _ Hin) as (s & _ & Hs & Hp).
    exists s. rewrite Nat.sub_0_r in Hs, Hp. auto.
Qed.

Lemma autoTriggered_true t :
  autoTriggered t = true <-> t = Some "one-shot" \/ t = Some "fx".
Proof.
  unfold autoTriggered. destruct t as [t|]; [|split; [discriminate | intros [E|E]; discriminate E]].
  rewrite orb_true_iff, !String.eqb_eq. split; intros [E|E]; [left|right|left|right]; congruence.
Qed.




(** C5.  A catalog sample whose type is neither ["one-shot"] nor ["fx"] is
    not selected and gets no play call in any cycle, whatever the context,
    its score and the recorded firings. *)
Theorem only_one_shot_and_fx_fire w i s :
  samples w !! i = Some s ->
  sampleType (metadata s) <> Some "one-shot" ->
  sampleType (metadata s) <> Some "fx" ->
  (forall w1 eligible,
     selectFrom clock 0 (samples w) musicContext w = (w1, Normal eligible) ->
     i ∉ eligible.*1) /\
  exists new,
    playCalls (fst (evaluateAndTrigger env clock hasCallback musicContext w))
    = playCalls w ++ new /\
    forall c, c ∈ new -> c.1.1 <> i.
Proof.
  intros Hs Hno1 Hno2.
  assert (Hauto : autoTriggered (sampleType (metadata s)) = false).
  { destruct (autoTriggered _) eqn:E; [|reflexivity].
    apply autoTriggered_true in E as [E|E]; contradiction. }
  assert (Hfail : forall now, passes (lastTriggerTimes w) now s musicContext = false).
  { intros now. unfold passes. rewrite Hauto. reflexivity. }
  split.
  - intros w1 eligible E Hin.
    destruct (selectFrom_spec (samples w) 0%nat w) as (n & eligible' & E' & Hsound & _).
    rewrite E' in E. injection E as _ <-.
    apply list_elem_of_fmap in Hin as ([j p] & Hj & Hin). cbn in Hj. subst j.
    destruct (Hsound _ _ Hin) as (s' & _ & Hs' & Hp).
    rewrite Nat.sub_0_r, Hs in Hs'. injection Hs' as <-. rewrite Hfail in Hp. discriminate.
  - destruct (evaluateAndTrigger_calls w) as (new & E & Hnew).
    exists new. split; [exact E|].
    intros c Hc Hi. destruct (Hnew c Hc) as (s' & Hs' & Hp).
    rewrite Hi, Hs in Hs'. injection Hs' as <-. rewrite Hfail in Hp. discriminate.
Qed.






End TriggerFacts.

(** *** The scheduler on the examples *)



(** A loop that scores like the kick, in front of the kick. *)
Lemma only_one_shot_and_fx_fire_witness :
  samples loopAndOneShot !! 0%nat = Some exampleLoop /\
  sampleType (metadata exampleLoop) <> Some "one-shot" /\
  sampleType (metadata exampleLoop) <> Some "fx" /\
  exists new,
    playCalls (fst (SmartSampleTrigger.evaluateAndTrigger (H := exampleMath) quietEnv
                      exampleClock true scenarioContext loopAndOneShot))
    = playCalls loopAndOneShot ++ new /\
    forall c, c ∈ new -> c.1.1 <> 0%nat.
Proof.
  split; [reflexivity|]. split; [discriminate|]. split; [discriminate|].
  apply (only_one_shot_and_fx_fire (H := exampleMath) quietEnv exampleClock true
           scenarioContext loopAndOneShot 0 exampleLoop); [reflexivity | discriminate..].
Defined.



(** ** The two end-to-end scenarios *)

Section Scenarios.
Context `{MathLib}.
Import SmartSampleTrigger.
Variable clock : Clock.
Variables (s : UserSample) (musicContext : MusicalContext) (w : World).

Hypothesis context_energy : energy musicContext = Some 0.8%float.
Hypothesis context_key : key musicContext = Some "C".
Hypothesis context_scale : scale musicContext = Some "Major".
Hypothesis context_density : beatDensity musicContext = Some 0.9%float.

Lemma single_sample_cycle env hasCallback shift :
  samples w = [s] ->
  snd (shouldTriggerSample clock s musicContext w)
  = Normal {| trigger := true; triggerPitchShift := shift |} ->
  playCalls (fst (evaluateAndTrigger env clock hasCallback musicContext w))
  = playCalls w ++ [(0%nat, s, calculatePlaybackConfig s musicContext shift)].
Proof.
  intros Hw Hd. unfold evaluateAndTrigger. rewrite Hw. cbn [selectFrom].
  unfold mbind, M_bind, mret, M_ret.
  destruct (shouldTriggerSample clock s musicContext w) as [w1 r] eqn:E.
  cbn [snd] in Hd. subst r. cbn [trigger triggerPitchShift].
  assert (Hw1 : samples w1 !! 0%nat = Some s /\ playCalls w1 = playCalls w).
  { rewrite shouldTriggerSample_eq in E. injection E as <- _.
    destruct (autoTriggered _); cbn [advance samples playCalls]; rewrite Hw; auto. }
  destruct Hw1 as [Hs Hcalls].
  rewrite (fireAll_cons _ _ _ _ _ _ _ _ _ Hs).
  destruct (playSample_frame env 0 (calculatePlaybackConfig s musicContext shift) w1)
    as (_ & _ & _ & _ & Hplay).
  specialize (Hplay s Hs). rewrite Hcalls in Hplay.
  destruct (AudioMixer.playSample _ _ _ _) as [w2 [[]|e]]; exact Hplay.
Qed.

(** C9.  In the context [{energy: 0.8, key: "C", scale: "Major",
    beatDensity: 0.9}], a never-fired one-shot in C major of energy level 9,
    groove "dense driving percussion" and interval 0 has the key score 1.0,
    the energy score 0.8667 (about 0.866), the rhythm score 0.82 and the
    combined score 0.906, over 0.7: it is triggered with pitch shift 0, and
    on its own in the catalog its play call is issued with pitch shift 0. *)
Theorem one_shot_scenario_fires :
  sampleType (metadata s) = Some "one-shot" ->
  sampleKey (metadata s) = Some "C" ->
  sampleScale (metadata s) = Some "Major" ->
  energyLevel (metadata s) = Some 9%float ->
  grooveDescription (metadata s) = Some "dense driving percussion" ->
  minimumIntervalMs (metadata s) = Some 0 ->
  lastTriggerTimes w !! id s = None ->
  0 <= clock (clockReads w) ->
  let keyCompat := calculateKeyCompatibility (key musicContext) (scale musicContext)
                     (sampleKey (metadata s)) (sampleScale (metadata s)) in
  let energyScore := calculateEnergyMatch (energy musicContext) (energyLevel (metadata s)) in
  let rhythmScore := calculateRhythmicFit (beatDensity musicContext)
                       (grooveDescription (metadata s)) in
  score keyCompat = 1.0%float /\
  near 0.001 energyScore 0.866 = true /\
  near 1e-9 rhythmScore 0.82 = true /\
  totalScore s musicContext
  = (score keyCompat * 0.4 + energyScore * 0.3 + rhythmScore * 0.3)%float /\
  near 0.001 (totalScore s musicContext) 0.906 = true /\
  (0.7 <? totalScore s musicContext)%float = true /\
  snd (shouldTriggerSample clock s musicContext w)
  = Normal {| trigger := true; triggerPitchShift := 0 |} /\
  (forall env hasCallback,
     samples w = [s] ->
     exists config,
       playCalls (fst (evaluateAndTrigger env clock hasCallback musicContext w))
       = playCalls w ++ [(0%nat, s, config)] /\
       pitchShift config = Some 0).
Proof.
  intros Htype Hkey Hscale Hlevel Hgroove Hint Hnever Hnow keyCompat energyScore rhythmScore.
  assert (Htotal : totalScore s musicContext = 0.906%float).
  { unfold totalScore.
    rewrite context_energy, context_key, context_scale, context_density,
            Hkey, Hscale, Hlevel, Hgroove.
    vm_compute. reflexivity. }
  assert (Hdecision : snd (shouldTriggerSample clock s musicContext w)
                      = Normal {| trigger := true; triggerPitchShift := 0 |}).
  { rewrite shouldTriggerSample_eq. unfold passes.
    rewrite Htotal, Htype, Hint, Hnever, context_key, context_scale, Hkey, Hscale.
    cbn [snd autoTriggered AudioMixer.orElse].
    destruct (Z.ltb_spec (clock (clockReads w) - 0) 0); [lia|].
    vm_compute. reflexivity. }
  subst keyCompat energyScore rhythmScore.
  rewrite Htotal.
  rewrite context_energy, context_key, context_scale, context_density,
          Hkey, Hscale, Hlevel, Hgroove.
  do 6 (split; [vm_compute; reflexivity|]).
  split; [exact Hdecision|].
  intros env hasCallback Hw. eexists. split.
  - apply single_sample_cycle; [exact Hw | exact Hdecision].
  - reflexivity.
Qed.

(** C2, as the code has it.  In the same context, an fx sample in F# minor
    of energy level 2, groove "sparse ambient" and interval 0 has the key
    score 0.8 (the shift of -6 semitones carries F# onto C, and only the
    scales differ), the energy score 0, the rhythm score 0.18 and the
    combined score 0.374, under 0.7: it is not triggered, and gets no play
    call in any cycle. *)
Theorem fx_scenario_scores :
  sampleType (metadata s) = Some "fx" ->
  sampleKey (metadata s) = Some "F#" ->
  sampleScale (metadata s) = Some "Minor" ->
  energyLevel (metadata s) = Some 2%float ->
  grooveDescription (metadata s) = Some "sparse ambient" ->
  minimumIntervalMs (metadata s) = Some 0 ->
  let keyCompat := calculateKeyCompatibility (key musicContext) (scale musicContext)
                     (sampleKey (metadata s)) (sampleScale (metadata s)) in
  let energyScore := calculateEnergyMatch (energy musicContext) (energyLevel (metadata s)) in
  let rhythmScore := calculateRhythmicFit (beatDensity musicContext)
                       (grooveDescription (metadata s)) in
  score keyCompat = 0.8%float /\
  pitchShiftSemitones keyCompat = -6 /\
  energyScore = 0%float /\
  near 1e-9 rhythmScore 0.18 = true /\
  near 1e-9 (totalScore s musicContext) 0.374 = true /\
  (totalScore s musicContext <? 0.7)%float = true /\
  (exists d, snd (shouldTriggerSample clock s musicContext w) = Normal d /\
             trigger d = false) /\
  (forall env hasCallback i,
     samples w !! i = Some s ->
     exists new,
       playCalls (fst (evaluateAndTrigger env clock hasCallback musicContext w))
       = playCalls w ++ new /\
       forall c, c ∈ new -> c.1.1 <> i).
Proof.
  intros Htype Hkey Hscale Hlevel Hgroove Hint keyCompat energyScore rhythmScore.
  assert (Htotal : (0.7 <? totalScore s musicContext)%float = false
                   /\ near 1e-9 (totalScore s musicContext) 0.374 = true
                   /\ (totalScore s musicContext <? 0.7)%float = true).
  { unfold totalScore.
    rewrite context_energy, context_key, context_scale, context_density,
            Hkey, Hscale, Hlevel, Hgroove.
    vm_compute. auto. }
  destruct Htotal as (Hunder & Hnear & Hlt).
  assert (Hfail : forall ltt now, passes ltt now s musicContext = false).
  { intros ltt now. unfold passes. rewrite Hunder. apply andb_false_r. }
  subst keyCompat energyScore rhythmScore.
  rewrite context_energy, context_key, context_scale, context_density,
          Hkey, Hscale, Hlevel, Hgroove.
  do 4 (split; [vm_compute; reflexivity|]).
  split; [exact Hnear|]. split; [exact Hlt|]. split.
  - rewrite shouldTriggerSample_eq. eexists. split; [reflexivity|]. apply Hfail.
  - intros env hasCallback i Hs.
    destruct (evaluateAndTrigger_calls env clock hasCallback musicContext w)
      as (new & E & Hnew).
    exists new. split; [exact E|].
    intros c Hc Hi. destruct (Hnew c Hc) as (s' & Hs' & Hp).
    rewrite Hi, Hs in Hs'. injection Hs' as <-. rewrite Hfail in Hp. discriminate.
Qed.

End Scenarios.

(** The one-shot of the scenario, alone in the catalog and never fired. *)
Lemma one_shot_scenario_fires_witness :
  (energy scenarioContext = Some 0.8%float /\ key scenarioContext = Some "C" /\
   scale scenarioContext = Some "Major" /\ beatDensity scenarioContext = Some 0.9%float) /\
  (sampleType (metadata scenarioOneShot) = Some "one-shot" /\
   sampleKey (metadata scenarioOneShot) = Some "C" /\
   sampleScale (metadata scenarioOneShot) = Some "Major" /\
   energyLevel (metadata scenarioOneShot) = Some 9%float /\
   grooveDescription (metadata scenarioOneShot) = Some "dense driving percussion" /\
   minimumIntervalMs (metadata scenarioOneShot) = Some 0) /\
  (lastTriggerTimes oneShotAlone !! id scenarioOneShot = None /\
   0 <= exampleClock (clockReads oneShotAlone)) /\
  snd (SmartSampleTrigger.shouldTriggerSample exampleClock scenarioOneShot scenarioContext
         oneShotAlone)
  = Normal {| SmartSampleTrigger.trigger := true;
              SmartSampleTrigger.triggerPitchShift := 0 |} /\
  (0.7 <? SmartSampleTrigger.totalScore scenarioOneShot scenarioContext)%float = true.
Proof.
  split; [repeat split|]. split; [repeat split|]. split; [split; [reflexivity | discriminate]|].
  destruct (one_shot_scenario_fires (H := exampleMath) exampleClock scenarioOneShot
              scenarioContext oneShotAlone
              eq_refl eq_refl eq_refl eq_refl eq_refl eq_refl eq_refl eq_refl eq_refl eq_refl
              eq_refl ltac:(discriminate))
    as (_ & _ & _ & _ & _ & Hover & Hdecision & _).
  split; [exact Hdecision | exact Hover].
Defined.

(** C2, as the spec states it, fails on the key score: for C major against
    F# minor it is 0.8, not in the low range up to 0.5. *)
Lemma fx_scenario_key_score_not_low :
  SmartSampleTrigger.score
    (SmartSampleTrigger.calculateKeyCompatibility
       (key scenarioContext) (scale scenarioContext)
       (sampleKey (metadata scenarioFx)) (sampleScale (metadata scenarioFx)))
  = 0.8%float /\
  (SmartSampleTrigger.score
     (SmartSampleTrigger.calculateKeyCompatibility
        (key scenarioContext) (scale scenarioContext)
        (sampleKey (metadata scenarioFx)) (sampleScale (metadata scenarioFx)))
   <=? 0.5)%float = false.
Proof. split; vm_compute; reflexivity. Qed.

(** The fx sample of the scenario, alone in the catalog. *)
Lemma fx_scenario_scores_witness :
  (energy scenarioContext = Some 0.8%float /\ key scenarioContext = Some "C" /\
   scale scenarioContext = Some "Major" /\ beatDensity scenarioContext = Some 0.9%float) /\
  (sampleType (metadata scenarioFx) = Some "fx" /\
   sampleKey (metadata scenarioFx) = Some "F#" /\
   sampleScale (metadata scenarioFx) = Some "Minor" /\
   energyLevel (metadata scenarioFx) = Some 2%float /\
   grooveDescription (metadata scenarioFx) = Some "sparse ambient" /\
   minimumIntervalMs (metadata scenarioFx) = Some 0) /\
  (SmartSampleTrigger.totalScore scenarioFx scenarioContext <? 0.7)%float = true /\
  exists d,
    snd (SmartSampleTrigger.shouldTriggerSample exampleClock scenarioFx scenarioContext
           fxAlone) = Normal d /\
    SmartSampleTrigger.trigger d = false.
Proof.
  split; [repeat split|]. split; [repeat split|].
  destruct (fx_scenario_scores (H := exampleMath) exampleClock scenarioFx scenarioContext
              fxAlone
              eq_refl eq_refl eq_refl eq_refl eq_refl eq_refl eq_refl eq_refl eq_refl eq_refl)
    as (_ & _ & _ & _ & _ & Hunder & Hdecision & _).
  split; [exact Hunder | exact Hdecision].
Defined.

(** ** The sliding window of the aggregator *)

Section SlidingWindow.
Import ContextAwareLyriaSession.
Variable ctxSampleRate : float.
Hypothesis rate_ok : validSampleRate ctxSampleRate = true.

Lemma queuedLength_nonneg queue : 0 <= queuedLength queue.
Proof.
  induction queue as [|b q IH]; cbn [queuedLength fold_right]; [lia|].
  fold (queuedLength q). lia.
Qed.

Lemma queuedLength_app q1 q2 : queuedLength (q1 ++ q2) = queuedLength q1 + queuedLength q2.
Proof.
  induction q1 as [|b q IH]; cbn [queuedLength fold_right app]; [reflexivity|].
  fold (queuedLength (q ++ q2)). fold (queuedLength q). lia.
Qed.

Lemma rate_finitePositive : finitePositive ctxSampleRate = true.
Proof.
  unfold validSampleRate in rate_ok. apply andb_true_iff in rate_ok as [Hp Hf].
  apply finitePositive_of_bounds; assumption.
Qed.

Lemma bufferedDuration_nonneg accumulated :
  0 <= accumulated -> nonneg (bufferedDuration ctxSampleRate accumulated) = true.
Proof.
  intros Ha. apply nonneg_div; [apply nonneg_ofZ, Ha | apply rate_finitePositive].
Qed.

Lemma bufferedDuration_empty : bufferedDuration ctxSampleRate 0 = 0%float.
Proof.
  apply zero_of_SF. unfold bufferedDuration.
  rewrite FloatAxioms.div_spec. change (Prim2SF (ofZ 0)) with (S754_zero false).
  pose proof rate_finitePositive as Hr. unfold finitePositive in Hr.
  destruct (Prim2SF ctxSampleRate) as [[]|[]| |[] m e]; try discriminate. reflexivity.
Qed.

(** The eviction loop keeps the counter exact, drops a prefix of the queue
    only, each buffer of it while the queue was over the cap, leaves the
    queue alone when it is within the cap, and ends within the cap. *)
Lemma evict_spec queue : forall accumulated,
  accumulated = queuedLength queue ->
  exists evicted,
    queue = evicted ++ fst (evict ctxSampleRate queue accumulated) /\
    snd (evict ctxSampleRate queue accumulated)
    = queuedLength (fst (evict ctxSampleRate queue accumulated)) /\
    (bufferedDuration ctxSampleRate (snd (evict ctxSampleRate queue accumulated))
     <=? maxBufferDurationSecs)%float = true /\
    evictedOverCap ctxSampleRate evicted (fst (evict ctxSampleRate queue accumulated)) /\
    ((bufferedDuration ctxSampleRate accumulated <=? maxBufferDurationSecs)%float = true ->
     evicted = []).
Proof.
  induction queue as [|oldest rest IH]; intros accumulated Hacc.
  - exists []. cbn [evict fst snd app evictedOverCap]. repeat split; auto.
    cbn in Hacc. subst accumulated. rewrite bufferedDuration_empty. reflexivity.
  - cbn [evict].
    destruct (maxBufferDurationSecs <? bufferedDuration ctxSampleRate accumulated)%float eqn:Over.
    + destruct (IH (accumulated - Z.of_N (length oldest))) as (evicted & Hq & Hc & Hd & Hm & _).
      { rewrite Hacc. cbn [queuedLength fold_right]. fold (queuedLength rest). lia. }
      exists (oldest :: evicted).
      split; [cbn [app]; f_equal; exact Hq|]. split; [exact Hc|]. split; [exact Hd|].
      split.
      * cbn [evictedOverCap]. split; [|exact Hm].
        cbn [app]. rewrite <- Hq, <- Hacc. exact Over.
      * intros Hin. rewrite (ltb_of_leb _ _ Hin) in Over. discriminate.
    + exists []. cbn [fst snd app evictedOverCap]. repeat split; auto.
      apply leb_of_not_ltb; [|reflexivity|exact Over].
      apply nonneg_notNaN, bufferedDuration_nonneg.
      rewrite Hacc. apply queuedLength_nonneg.
Qed.

Lemma evictedOverCap_app evicted1 evicted2 remaining :
  evictedOverCap ctxSampleRate (evicted1 ++ evicted2) remaining ->
  evictedOverCap ctxSampleRate evicted2 remaining.
Proof.
  induction evicted1 as [|b rest IH]; cbn [app evictedOverCap]; [auto|].
  intros [_ Hrest]. apply IH, Hrest.
Qed.

(** One call, from a session whose counter is exact and which is within
    the cap. *)
Lemma handleNewLyriaAudioBuffer_step now lyriaBuffer s :
  counterExact s -> counterWithinCap ctxSampleRate s = true ->
  let s' := (handleNewLyriaAudioBuffer ctxSampleRate now lyriaBuffer s).1.1 in
  counterExact s' /\ counterWithinCap ctxSampleRate s' = true /\
  exists evicted,
    audioBufferQueue s ++ accepted lyriaBuffer = evicted ++ audioBufferQueue s' /\
    evictedOverCap ctxSampleRate evicted (audioBufferQueue s') /\
    ((bufferedDuration ctxSampleRate
        (accumulatedBufferLength s + queuedLength (accepted lyriaBuffer))
      <=? maxBufferDurationSecs)%float = true -> evicted = []).
Proof.
  intros Hexact Hcap. unfold handleNewLyriaAudioBuffer, accepted.
  assert (Hsame : counterExact s /\ counterWithinCap ctxSampleRate s = true /\
                  exists evicted,
                    audioBufferQueue s ++ [] = evicted ++ audioBufferQueue s /\
                    evictedOverCap ctxSampleRate evicted (audioBufferQueue s) /\
                    ((bufferedDuration ctxSampleRate
                        (accumulatedBufferLength s + queuedLength [])
                      <=? maxBufferDurationSecs)%float = true -> evicted = [])).
  { repeat split; auto. exists []. rewrite app_nil_r. cbn [evictedOverCap]. auto. }
  destruct lyriaBuffer as [buf|]; [|exact Hsame].
  destruct (length buf =? 0)%N; [exact Hsame|]. clear Hsame.
  destruct (evict_spec (audioBufferQueue s ++ [buf])
              (accumulatedBufferLength s + Z.of_N (length buf)))
    as (evicted & Hq & Hc & Hd & Hm & Hnone).
  { rewrite queuedLength_app, Hexact. cbn [queuedLength fold_right]. lia. }
  destruct (evict ctxSampleRate _ _) as [queue accumulated']. cbn [fst snd] in *.
  assert (Hkeep : (bufferedDuration ctxSampleRate
                     (accumulatedBufferLength s + queuedLength [buf])
                   <=? maxBufferDurationSecs)%float = true -> evicted = []).
  { cbn [queuedLength fold_right]. rewrite Z.add_0_r. exact Hnone. }
  destruct (_ && _)%bool; cbn [fst]; unfold counterExact, counterWithinCap;
    cbn [audioBufferQueue accumulatedBufferLength]; eauto 6.
Qed.

Lemma afterCalls_snoc calls c :
  afterCalls ctxSampleRate (calls ++ [c])
  = (handleNewLyriaAudioBuffer ctxSampleRate (fst c) (snd c)
       (afterCalls ctxSampleRate calls)).1.1.
Proof. unfold afterCalls. rewrite fold_left_app. reflexivity. Qed.

(** Every session reached from a new one has an exact counter and is
    within the cap. *)
Lemma afterCalls_invariant calls :
  counterExact (afterCalls ctxSampleRate calls) /\
  counterWithinCap ctxSampleRate (afterCalls ctxSampleRate calls) = true.
Proof.
  induction calls as [|c calls IH] using rev_ind.
  - split; [reflexivity|].
    unfold counterWithinCap, afterCalls. cbn [fold_left new accumulatedBufferLength].
    rewrite bufferedDuration_empty. reflexivity.
  - rewrite afterCalls_snoc. destruct IH as [Hexact Hcap].
    destruct (handleNewLyriaAudioBuffer_step (fst c) (snd c) _ Hexact Hcap) as (H1 & H2 & _).
    split; assumption.
Qed.

(** C6, as the code has it.  After every call of
    [handleNewLyriaAudioBuffer], on any session reached from a new one: the
    counter, taken as sample frames at the context's sample rate, comes to
    at most 2.0 seconds, and it equals the sum of the lengths of the queued
    buffers.  The queue is what was queued, with the incoming buffer
    appended, less a prefix, the oldest buffers; each of them was dropped
    while the queue from it on was still over the cap, so that the eviction
    stops as soon as the cap is met; none is dropped when the cap was not
    exceeded, and the incoming buffer stays unless it alone exceeds the
    cap. *)
Theorem sliding_window_cap calls now lyriaBuffer :
  let s := afterCalls ctxSampleRate calls in
  let s' := (handleNewLyriaAudioBuffer ctxSampleRate now lyriaBuffer s).1.1 in
  counterWithinCap ctxSampleRate s' = true /\
  accumulatedBufferLength s' = queuedLength (audioBufferQueue s') /\
  exists evicted,
    audioBufferQueue s ++ accepted lyriaBuffer = evicted ++ audioBufferQueue s' /\
    evictedOverCap ctxSampleRate evicted (audioBufferQueue s') /\
    ((bufferedDuration ctxSampleRate
        (accumulatedBufferLength s + queuedLength (accepted lyriaBuffer))
      <=? maxBufferDurationSecs)%float = true -> evicted = []) /\
    (forall b, accepted lyriaBuffer = [b] -> audioBufferQueue s' = [] ->
       (maxBufferDurationSecs
        <? bufferedDuration ctxSampleRate (Z.of_N (length b)))%float = true).
Proof.
  intros s s'. destruct (afterCalls_invariant calls) as [Hexact Hcap].
  destruct (handleNewLyriaAudioBuffer_step now lyriaBuffer s Hexact Hcap)
    as (H1 & H2 & evicted & Hq & Hm & Hnone).
  fold s' in H1, H2, Hq, Hm.
  split; [exact H2|]. split; [exact H1|].
  exists evicted. split; [exact Hq|]. split; [exact Hm|]. split; [exact Hnone|].
  intros b Hb Hempty. rewrite Hb, Hempty, app_nil_r in Hq. rewrite Hempty, <- Hq in Hm.
  apply evictedOverCap_app in Hm. cbn [evictedOverCap app] in Hm. destruct Hm as [Hover _].
  cbn [queuedLength fold_right] in Hover. rewrite Z.add_0_r in Hover. exact Hover.
Qed.

End SlidingWindow.

(** A third second of audio arrives on a queue that holds two: the oldest
    second is dropped, and no more. *)
Lemma sliding_window_cap_witness :
  validSampleRate 48000 = true /\
  counterWithinCap 48000
    (ContextAwareLyriaSession.handleNewLyriaAudioBuffer 48000 200 (Some oneSecondBuffer)
       (afterCalls 48000 [(0, Some oneSecondBuffer); (100, Some oneSecondBuffer)])).1.1
  = true /\
  accumulatedBufferLength
    (ContextAwareLyriaSession.handleNewLyriaAudioBuffer 48000 200 (Some oneSecondBuffer)
       (afterCalls 48000 [(0, Some oneSecondBuffer); (100, Some oneSecondBuffer)])).1.1
  = 96000 /\
  audioBufferQueue
    (ContextAwareLyriaSession.handleNewLyriaAudioBuffer 48000 200 (Some oneSecondBuffer)
       (afterCalls 48000 [(0, Some oneSecondBuffer); (100, Some oneSecondBuffer)])).1.1
  = [oneSecondBuffer; oneSecondBuffer] /\
  evictedOverCap 48000 [oneSecondBuffer] [oneSecondBuffer; oneSecondBuffer].
Proof.
  split; [reflexivity|].
  destruct (sliding_window_cap 48000 eq_refl
              [(0, Some oneSecondBuffer); (100, Some oneSecondBuffer)] 200
              (Some oneSecondBuffer)) as (Hcap & Hexact & evicted & Hq & Hm & _).
  split; [exact Hcap|]. split; [rewrite Hexact; reflexivity|]. split; [reflexivity|].
  assert (E : evicted = [oneSecondBuffer]).
  { change ([oneSecondBuffer; oneSecondBuffer; oneSecondBuffer]
            = evicted ++ [oneSecondBuffer; oneSecondBuffer]) in Hq.
    change [oneSecondBuffer; oneSecondBuffer; oneSecondBuffer]
      with ([oneSecondBuffer] ++ [oneSecondBuffer; oneSecondBuffer]) in Hq.
    apply app_inv_tail in Hq. symmetry. exact Hq. }
  rewrite E in Hm. exact Hm.
Defined.

(** C6, as the spec states it, fails: the window counts sample frames at
    the context's rate, not seconds of audio.  On a context at 48 kHz two
    buffers of two seconds each at 24 kHz are 96000 frames, which the
    session takes for 2.0 seconds and keeps; they hold four seconds of
    audio. *)
Lemma window_counts_frames_not_seconds :
  audioBufferQueue fourSecondsQueued = [twoSecondsAt24kHz; twoSecondsAt24kHz] /\
  accumulatedBufferLength fourSecondsQueued = 96000 /\
  counterWithinCap 48000 fourSecondsQueued = true /\
  queuedDuration (audioBufferQueue fourSecondsQueued) = 4%float /\
  ~ queuedAtMostTwoSeconds fourSecondsQueued.
Proof.
  do 4 (split; [vm_compute; reflexivity|]).
  unfold queuedAtMostTwoSeconds. vm_compute. discriminate.
Qed.

(** * Further properties of the engine *)

(** Unfold the mixer and the operations on the world. *)
Ltac run_world :=
  unfold AudioMixer.playSample, AudioMixer.decodeAndStoreAudioBuffer,
         mbind, M_bind, mret, M_ret, mthrow, M_throw,
         getSample, setSample, call, log, start, notify, Date_now,
         getLastTriggerTime, setLastTriggerTime in *.

(** Case analysis on a scrutinee that has no [match] inside it. *)
Ltac innermost_case :=
  match goal with
  | |- context [match ?x with _ => _ end] =>
      lazymatch x with
      | context [match _ with _ => _ end] => fail
      | _ => destruct x eqn:?
      end
  end.

(** ** Arithmetic that yields no NaN *)

Section NaNFacts.
Local Open Scope float_scope.

Lemma signedSF_notNaN s x : signedSF s x = true -> x <> S754_nan.
Proof. intros E N. rewrite N in E. discriminate. Qed.

Lemma binary_normalize_notNaN z e : binary_normalize prec emax z e false <> S754_nan.
Proof.
  destruct z as [|p|p]; cbn [binary_normalize]; [discriminate| |];
    eapply signedSF_notNaN, binary_round_signed.
Qed.

Lemma notNaN_add x y :
  isNaN x = false -> isNaN y = false -> (isFinite x || isFinite y)%bool = true ->
  isNaN (x + y) = false.
Proof.
  rewrite !isNaN_false_iff. unfold isFinite. rewrite FloatAxioms.add_spec.
  destruct (Prim2SF x) as [sx|sx| |sx mx ex], (Prim2SF y) as [sy|sy| |sy my ey];
    intros Nx Ny Hf; try congruence; try discriminate Hf; cbn [SFadd].
  all: try (destruct sx, sy; discriminate).
  apply binary_normalize_notNaN.
Qed.

Lemma notNaN_sub x y :
  isNaN x = false -> isNaN y = false -> (isFinite x || isFinite y)%bool = true ->
  isNaN (x - y) = false.
Proof.
  rewrite !isNaN_false_iff. unfold isFinite. rewrite FloatAxioms.sub_spec.
  destruct (Prim2SF x) as [sx|sx| |sx mx ex], (Prim2SF y) as [sy|sy| |sy my ey];
    intros Nx Ny Hf; try congruence; try discriminate Hf; cbn [SFsub].
  all: try (destruct sx, sy; discriminate).
  all: try discriminate.
  apply binary_normalize_notNaN.
Qed.

Lemma notNaN_mul x y :
  isNaN x = false -> finiteNonzero y = true -> isNaN (x * y) = false.
Proof.
  rewrite !isNaN_false_iff. unfold finiteNonzero. rewrite FloatAxioms.mul_spec.
  destruct (Prim2SF x) as [sx|sx| |sx mx ex], (Prim2SF y) as [sy|sy| |sy my ey];
    intros Nx Hf; try congruence; try discriminate Hf; cbn [SFmul]; try discriminate.
  eapply signedSF_notNaN, binary_round_aux_signed. lia.
Qed.

Lemma notNaN_div x y :
  isNaN x = false -> finiteNonzero y = true -> isNaN (x / y) = false.
Proof.
  rewrite !isNaN_false_iff. unfold finiteNonzero. rewrite FloatAxioms.div_spec.
  destruct (Prim2SF x) as [sx|sx| |sx mx ex], (Prim2SF y) as [sy|sy| |sy my ey];
    intros Nx Hf; try congruence; try discriminate Hf; unfold SF64div, SFdiv;
    try discriminate.
  pose proof (SFdiv_core_binary_nonneg prec emax mx ex my ey) as Hq.
  destruct (SFdiv_core_binary prec emax (Z.pos mx) ex (Z.pos my) ey) as [[mz ez] lz].
  eapply signedSF_notNaN, binary_round_aux_signed. exact Hq.
Qed.

Lemma notNaN_abs x : isNaN x = false -> isNaN (abs x) = false.
Proof.
  rewrite !isNaN_false_iff, FloatAxioms.abs_spec.
  destruct (Prim2SF x); intros Nx; try congruence; discriminate.
Qed.

Lemma nonneg_mul x y :
  nonneg x = true -> finitePositive y = true -> nonneg (x * y) = true.
Proof.
  unfold nonneg, finitePositive. rewrite FloatAxioms.mul_spec.
  destruct (Prim2SF x) as [[]|[]| |[] mx ex], (Prim2SF y) as [[]|[]| |[] my ey];
    intros Nx Hf; try discriminate; try reflexivity.
  cbn [SFmul xorb]. apply binary_round_aux_signed. lia.
Qed.

Lemma positive_nonneg y : (0 <? y) = true -> nonneg y = true.
Proof.
  unfold nonneg. rewrite FloatAxioms.ltb_spec. change (Prim2SF 0) with (S754_zero false).
  destruct (Prim2SF y) as [[]|[]| |[] m e]; intros E; try discriminate E; reflexivity.
Qed.

(** [Math.max(0, y)] is +0 or positive unless [y] is NaN. *)
Lemma Math_max_0_nonneg y : isNaN y = false -> nonneg (Math_max 0 y) = true.
Proof.
  intros Ny. unfold Math_max. change (isNaN 0) with false. rewrite Ny. cbn [orb].
  change (signBit 0) with false.
  destruct (0 <? y) eqn:L; [apply positive_nonneg, L|].
  destruct (y <? 0); reflexivity.
Qed.

(** [Math.max(0, Math.min(1, x))] lies in [0, 1] unless [x] is NaN. *)
Lemma clamp_max_min_range x :
  isNaN x = false -> inUnitInterval (Math_max 0 (Math_min 1 x)) = true.
Proof.
  intros Nx. unfold Math_min. change (isNaN 1) with false. rewrite Nx. cbn [orb].
  change (signBit 1) with false.
  destruct (1 <? x) eqn:L1; [reflexivity|].
  assert (Hle : (x <=? 1) = true) by (apply leb_of_not_ltb; auto).
  replace (if x <? 1 then x else x) with x by (destruct (x <? 1); reflexivity).
  unfold Math_max. change (isNaN 0) with false. rewrite Nx. cbn [orb].
  change (signBit 0) with false.
  destruct (0 <? x) eqn:L0.
  - unfold inUnitInterval. rewrite (ltb_leb _ _ L0), Hle. reflexivity.
  - destruct (x <? 0); reflexivity.
Qed.

Lemma Math_min_1_notNaN x : isNaN x = false -> isNaN (Math_min 1 x) = false.
Proof.
  intros Nx. unfold Math_min. change (isNaN 1) with false. rewrite Nx. cbn [orb].
  change (signBit 1) with false.
  destruct (1 <? x); [reflexivity|]. destruct (x <? 1); exact Nx.
Qed.

Lemma inUnitInterval_isFinite x : inUnitInterval x = true -> isFinite x = true.
Proof.
  unfold inUnitInterval, isFinite. rewrite !FloatAxioms.leb_spec.
  change (Prim2SF 0) with (S754_zero false).
  destruct (Prim2SF x) as [[]|[]| |[] m e]; intros E; try discriminate E; reflexivity.
Qed.

Lemma isFinite_notNaN x : isFinite x = true -> isNaN x = false.
Proof.
  unfold isFinite. intros Hf. apply isNaN_false_iff. intros N. rewrite N in Hf. discriminate.
Qed.

End NaNFacts.

(** ** Key names *)

Section KeyNames.
Import SmartSampleTrigger.

(** X13.  Key names of ASCII characters that differ in the case of their
    letters only resolve to the same pitch class, or both to none. *)
Theorem getPitchClass_ignores_case (a b : string) :
  asciiOnly a = true -> asciiOnly b = true ->
  sameIgnoringCase a b = true ->
  getPitchClass (Some a) = getPitchClass (Some b).
Proof.
  unfold sameIgnoringCase. intros _ _ E. apply String.eqb_eq in E.
  rewrite <- (getPitchClass_toUpperCase a), <- (getPitchClass_toUpperCase b).
  rewrite <- (toUpperCase_toLowerCase a), <- (toUpperCase_toLowerCase b), E.
  reflexivity.
Qed.

(** X14.  The spellings of an accidental.  For every ASCII character [c]:
    [c] followed by ["b"] or by ["flat"] resolves to the pitch class one
    semitone below that of [c] alone, and to none when [c] alone resolves
    to none; [c] followed by ["s"] or by ["sharp"] resolves as [c] followed
    by ["#"] does; and where that sharp resolves, it is one semitone above
    [c] alone (["E#"] and ["B#"] resolve to none). *)
Theorem getPitchClass_spellings (c : ascii) :
  isAsciiChar c = true ->
  let natural := getPitchClass (Some (String c "")) in
  let sharp := getPitchClass (Some (String c "#")) in
  getPitchClass (Some (String c "b")) = option_map semitoneBelow natural /\
  getPitchClass (Some (String c "flat")) = option_map semitoneBelow natural /\
  getPitchClass (Some (String c "s")) = sharp /\
  getPitchClass (Some (String c "sharp")) = sharp /\
  (forall pc, sharp = Some pc -> natural = Some (pc - 1)).
Proof.
  intros _.
  destruct c as [[] [] [] [] [] [] [] []]; vm_compute;
    (repeat split; try reflexivity); intros pc E; try discriminate E;
    injection E as <-; reflexivity.
Qed.

Lemma getSemitoneDifference_antisym a b :
  getSemitoneDifference b a = - getSemitoneDifference a b.
Proof.
  unfold getSemitoneDifference.
  repeat match goal with |- context [(?x <? ?y)] => destruct (Z.ltb_spec x y) end; lia.
Qed.

Lemma getSemitoneDifference_bounds a b :
  0 <= a < 12 -> 0 <= b < 12 -> -6 <= getSemitoneDifference a b <= 6.
Proof.
  intros Ha Hb. unfold getSemitoneDifference.
  repeat match goal with |- context [(?x <? ?y)] => destruct (Z.ltb_spec x y) end; lia.
Qed.

(** The pitch shift, by what is known of the two keys. *)
Lemma pitchShift_cases contextKey contextScale sampleKey sampleScale :
  pitchShiftSemitones (calculateKeyCompatibility contextKey contextScale sampleKey sampleScale) =
  if truthy contextKey && truthy sampleKey && truthy contextScale && truthy sampleScale
  then match getPitchClass contextKey, getPitchClass sampleKey with
       | Some c, Some s => getSemitoneDifference s c
       | _, _ => 0
       end
  else 0.
Proof.
  unfold calculateKeyCompatibility.
  destruct contextKey as [[|c1 k1]|]; try reflexivity;
    destruct sampleKey as [[|c2 k2]|]; try reflexivity;
    destruct contextScale as [[|c3 k3]|]; try reflexivity;
    destruct sampleScale as [[|c4 k4]|]; reflexivity.
Qed.

Lemma pitchShift_bounds contextKey contextScale sampleKey sampleScale :
  -6 <= pitchShiftSemitones
          (calculateKeyCompatibility contextKey contextScale sampleKey sampleScale) <= 6.
Proof.
  rewrite pitchShift_cases.
  destruct (_ && _)%bool; [|lia].
  destruct (getPitchClass contextKey) as [c|] eqn:Ec; [|lia].
  destruct (getPitchClass sampleKey) as [s|] eqn:Es; [|lia].
  apply getSemitoneDifference_bounds; eapply getPitchClass_range; eassumption.
Qed.

Lemma scalesMatch_sym a b : scalesMatch a b = scalesMatch b a.
Proof.
  destruct a as [a|], b as [b|]; try reflexivity.
  unfold scalesMatch, sameIgnoringCase. apply String.eqb_sym.
Qed.

(** X15.  Key compatibility read in both directions: with the context and
    the sample exchanged the score is the same and the pitch shift is the
    opposite one.  The shift never exceeds six semitones either way, and it
    is zero unless both keys resolve to pitch classes. *)
Theorem key_compatibility_symmetric
    (contextKey contextScale sampleKey sampleScale : option string) :
  let there := calculateKeyCompatibility contextKey contextScale sampleKey sampleScale in
  let back := calculateKeyCompatibility sampleKey sampleScale contextKey contextScale in
  score back = score there /\
  pitchShiftSemitones back = - pitchShiftSemitones there /\
  -6 <= pitchShiftSemitones there <= 6 /\
  (pitchShiftSemitones there <> 0 ->
   is_Some (getPitchClass contextKey) /\ is_Some (getPitchClass sampleKey)).
Proof.
  cbv zeta. split; [|split; [|split]].
  - rewrite !key_score_cases, (scalesMatch_sym sampleScale contextScale).
    destruct (truthy contextKey), (truthy sampleKey), (truthy contextScale),
      (truthy sampleScale); try reflexivity.
    cbn [andb]. destruct (getPitchClass contextKey), (getPitchClass sampleKey); reflexivity.
  - rewrite !pitchShift_cases.
    destruct (truthy contextKey), (truthy sampleKey), (truthy contextScale),
      (truthy sampleScale); try reflexivity.
    cbn [andb]. destruct (getPitchClass contextKey), (getPitchClass sampleKey); try reflexivity.
    apply getSemitoneDifference_antisym.
  - apply pitchShift_bounds.
  - rewrite pitchShift_cases. destruct (_ && _)%bool; [|congruence].
    destruct (getPitchClass contextKey), (getPitchClass sampleKey); try congruence.
    intros _. split; eexists; reflexivity.
Qed.

End KeyNames.

(** E flat in two spellings. *)
Lemma getPitchClass_ignores_case_witness :
  asciiOnly "eB" = true /\ asciiOnly "Eb" = true /\
  SmartSampleTrigger.sameIgnoringCase "eB" "Eb" = true /\
  SmartSampleTrigger.getPitchClass (Some "eB") = SmartSampleTrigger.getPitchClass (Some "Eb") /\
  SmartSampleTrigger.getPitchClass (Some "Eb") = Some 3.
Proof.
  split; [reflexivity|]. split; [reflexivity|]. split; [reflexivity|].
  split; [apply (getPitchClass_ignores_case "eB" "Eb"); reflexivity | reflexivity].
Defined.

(** D: the flat is C sharp, and the sharp is one above. *)
Lemma getPitchClass_spellings_witness :
  isAsciiChar "D" = true /\
  SmartSampleTrigger.getPitchClass (Some "D") = Some 2 /\
  SmartSampleTrigger.getPitchClass (Some "Db") = Some 1 /\
  SmartSampleTrigger.getPitchClass (Some "Dflat") = Some 1 /\
  SmartSampleTrigger.getPitchClass (Some "Ds") = SmartSampleTrigger.getPitchClass (Some "D#") /\
  SmartSampleTrigger.getPitchClass (Some "Dsharp") = SmartSampleTrigger.getPitchClass (Some "D#").
Proof.
  assert (Hascii : isAsciiChar "D" = true) by reflexivity.
  split; [exact Hascii|]. split; [reflexivity|].
  destruct (getPitchClass_spellings "D" Hascii) as (Hb & Hflat & Hs & Hsharp & _).
  split; [exact Hb|]. split; [exact Hflat|]. split; [exact Hs | exact Hsharp].
Defined.

(** ** Scores *)

Section ScoreFacts.
Context `{MathLib}.
Import SmartSampleTrigger.
Local Open Scope float_scope.

(** The rhythm score before the clamp is a number when the density is. *)
Lemma rhythmic_score_notNaN (contextDensity : float) (sampleGrooveDesc : option string) :
  isNaN contextDensity = false ->
  isNaN
    (match sampleGrooveDesc with
     | Some (String _ _ as sampleGrooveDesc) =>
         let desc := toLowerCase sampleGrooveDesc in
         if (includes "sparse" desc || includes "minimal" desc
             || includes "ambient" desc)%bool
         then (1 - contextDensity) * 0.8 + 0.1
         else if (includes "dense" desc || includes "complex" desc
                  || includes "active" desc || includes "driving" desc)%bool
         then contextDensity * 0.8 + 0.1
         else if (includes "percussive" desc || includes "rhythmic" desc)%bool
         then 0.6 + contextDensity * 0.2
         else 0.5
     | _ => 0.5 - Math_abs (contextDensity - 0.5)
     end) = false.
Proof.
  intros Nd.
  destruct sampleGrooveDesc as [[|c g]|].
  - apply notNaN_sub; [reflexivity | | reflexivity].
    apply notNaN_abs, notNaN_sub; [exact Nd | reflexivity | apply orb_true_r].
  - cbv zeta. repeat match goal with |- context [if ?b then _ else _] => destruct b end.
    + apply notNaN_add; [|reflexivity|apply orb_true_r].
      apply notNaN_mul; [|reflexivity].
      apply notNaN_sub; [reflexivity | exact Nd | reflexivity].
    + apply notNaN_add; [|reflexivity|apply orb_true_r].
      apply notNaN_mul; [exact Nd | reflexivity].
    + apply notNaN_add; [reflexivity| |reflexivity].
      apply notNaN_mul; [exact Nd | reflexivity].
    + reflexivity.
  - apply notNaN_sub; [reflexivity | | reflexivity].
    apply notNaN_abs, notNaN_sub; [exact Nd | reflexivity | apply orb_true_r].
Qed.

(** X16.  Whatever the groove description, the rhythm score of a beat
    density that is not NaN lies in [0, 1] (an infinite density
    included), and without a density it is 0.5. *)
Theorem calculateRhythmicFit_in_unit_interval
    (contextDensity : float) (sampleGrooveDesc : option string) :
  isNaN contextDensity = false ->
  inUnitInterval (calculateRhythmicFit (Some contextDensity) sampleGrooveDesc) = true /\
  calculateRhythmicFit None sampleGrooveDesc = 0.5.
Proof.
  intros Nd. split; [|reflexivity].
  unfold calculateRhythmicFit. apply clamp_max_min_range.
  apply rhythmic_score_notNaN, Nd.
Qed.

Lemma calculateEnergyMatch_nonneg contextEnergy sampleEnergy :
  inUnitIntervalIfPresent contextEnergy -> notNaNIfPresent sampleEnergy ->
  nonneg (calculateEnergyMatch contextEnergy sampleEnergy) = true.
Proof.
  intros Hc Hs. unfold calculateEnergyMatch.
  destruct contextEnergy as [c|]; [|reflexivity].
  destruct sampleEnergy as [s|]; [|reflexivity].
  cbn in Hc, Hs. pose proof (inUnitInterval_isFinite c Hc) as Hf.
  apply Math_max_0_nonneg.
  apply notNaN_sub; [reflexivity| |reflexivity].
  apply notNaN_mul; [|reflexivity].
  apply notNaN_abs, notNaN_sub; [apply isFinite_notNaN, Hf | | rewrite Hf; reflexivity].
  apply notNaN_div; [|reflexivity].
  apply notNaN_sub; [exact Hs | reflexivity | apply orb_true_r].
Qed.

Lemma calculateRhythmicFit_nonneg contextDensity groove :
  inUnitIntervalIfPresent contextDensity ->
  nonneg (calculateRhythmicFit contextDensity groove) = true.
Proof.
  intros Hd. destruct contextDensity as [d|]; [|reflexivity]. cbn in Hd.
  pose proof (isFinite_notNaN d (inUnitInterval_isFinite d Hd)) as Nd.
  unfold calculateRhythmicFit. apply Math_max_0_nonneg, Math_min_1_notNaN.
  apply rhythmic_score_notNaN, Nd.
Qed.

Lemma key_score_nonneg contextKey contextScale sampleKey sampleScale :
  nonneg (score (calculateKeyCompatibility contextKey contextScale sampleKey sampleScale)) = true.
Proof.
  rewrite key_score_cases.
  destruct (_ && _)%bool; [|reflexivity].
  destruct (getPitchClass contextKey), (getPitchClass sampleKey),
    (scalesMatch contextScale sampleScale); reflexivity.
Qed.

(** X17.  Scores are numbers.  For a context whose energy and beat density,
    where present, lie in [0, 1] (as in every snapshot of the analyser)
    and a sample whose energy level, where present, is not NaN, the energy
    score and the combined score are not NaN and not negative, so the
    comparison with 0.7 is one of numbers; the energy score is 0.5 when
    either energy is missing. *)
Theorem scores_are_numbers (sample : UserSample) (context : MusicalContext) :
  inUnitIntervalIfPresent (energy context) ->
  inUnitIntervalIfPresent (beatDensity context) ->
  notNaNIfPresent (energyLevel (metadata sample)) ->
  let energyScore := calculateEnergyMatch (energy context) (energyLevel (metadata sample)) in
  let total := totalScore sample context in
  (0 <=? energyScore) = true /\
  (0 <=? total) = true /\
  isNaN total = false /\
  (energy context = None \/ energyLevel (metadata sample) = None -> energyScore = 0.5).
Proof.
  intros He Hd Hl energyScore total.
  pose proof (calculateEnergyMatch_nonneg _ _ He Hl) as Hen. fold energyScore in Hen.
  assert (Ht : nonneg total = true).
  { subst total. unfold totalScore.
    apply nonneg_add; [apply nonneg_add|]; apply nonneg_mul; try reflexivity.
    - apply key_score_nonneg.
    - exact Hen.
    - apply calculateRhythmicFit_nonneg, Hd. }
  split; [apply nonneg_leb, Hen|]. split; [apply nonneg_leb, Ht|].
  split; [apply nonneg_notNaN, Ht|].
  subst energyScore. unfold calculateEnergyMatch.
  intros [-> | ->]; [reflexivity|]. destruct (energy context); reflexivity.
Qed.

(** The volumes [calculatePlaybackConfig] can come to: 0.4 for a
    background or ambient sample and 0.7 for any other, scaled by 0.7 under
    a quiet context and by 1.1 under a loud one. *)
Lemma playback_volume_cases sample context pitchShiftSemitones :
  exists v,
    calculatePlaybackConfig sample context pitchShiftSemitones
    = {| volume := Some v; pitchShift := Some pitchShiftSemitones; timingOffset := None |} /\
    v ∈ [0.4 * 0.7; 0.4 * 1.1; 0.4; 0.7 * 0.7; 0.7 * 1.1; 0.7].
Proof.
  unfold calculatePlaybackConfig.
  eexists. split; [reflexivity|].
  destruct (_ || _)%bool; destruct (energy context) as [e|];
    try destruct (e <? 0.3); try destruct (0.7 <? e);
    match goal with
    | |- ?x ∈ _ => let y := eval vm_compute in x in change x with y
    end;
    repeat first [apply list_elem_of_here | apply list_elem_of_further].
Qed.

(** X18.  The playback configuration of any sample under any context: the
    volume lies strictly between 0.27 and 0.78, so the clamp to
    [0.1, 1.0] never changes it; the pitch shift is the one handed in, and
    no timing offset is set. *)
Theorem calculatePlaybackConfig_range
    (sample : UserSample) (context : MusicalContext) (pitchShiftSemitones : Z) :
  exists v,
    calculatePlaybackConfig sample context pitchShiftSemitones
    = {| volume := Some v; pitchShift := Some pitchShiftSemitones; timingOffset := None |} /\
    (0.27 <? v) = true /\ (v <? 0.78) = true /\
    Math_max 0.1 (Math_min 1.0 v) = v.
Proof.
  destruct (playback_volume_cases sample context pitchShiftSemitones) as (v & E & Hv).
  exists v. split; [exact E|].
  repeat (apply elem_of_cons in Hv as [->|Hv]; [repeat split|]).
  inversion Hv.
Qed.

End ScoreFacts.

(** The one-shot scenario's density and groove. *)
Lemma calculateRhythmicFit_in_unit_interval_witness :
  isNaN 0.9%float = false /\
  inUnitInterval
    (SmartSampleTrigger.calculateRhythmicFit (Some 0.9%float)
       (Some "dense driving percussion")) = true.
Proof.
  split; [reflexivity|].
  apply (calculateRhythmicFit_in_unit_interval 0.9%float (Some "dense driving percussion")).
  reflexivity.
Defined.

(** The one-shot scenario. *)
Lemma scores_are_numbers_witness :
  inUnitIntervalIfPresent (energy scenarioContext) /\
  inUnitIntervalIfPresent (beatDensity scenarioContext) /\
  notNaNIfPresent (energyLevel (metadata scenarioOneShot)) /\
  (0 <=? SmartSampleTrigger.totalScore scenarioOneShot scenarioContext)%float = true /\
  isNaN (SmartSampleTrigger.totalScore scenarioOneShot scenarioContext) = false.
Proof.
  split; [reflexivity|]. split; [reflexivity|]. split; [reflexivity|].
  destruct (scores_are_numbers scenarioOneShot scenarioContext eq_refl eq_refl eq_refl)
    as (_ & Hpos & Hnum & _).
  split; [exact Hpos | exact Hnum].
Defined.

(** ** The analyser *)

Section SpectrumFacts.
Context `{MathLib}.
Import AudioContextAnalyzer.
Local Open Scope float_scope.

(** The peaks are the bins above 128, each at its bin frequency. *)
Lemma peaksFrom_spec binWidth data : forall i p,
  p ∈ peaksFrom binWidth i data <->
  exists k : nat, data !! k = Some (amp p) /\ (128 < Byte.to_N (amp p))%N /\
                  freq p = ofZ (i + Z.of_nat k) * binWidth.
Proof.
  induction data as [|b rest IH]; intros i p; cbn [peaksFrom].
  - split; [intros Hin; inversion Hin | intros (k & Hk & _); discriminate Hk].
  - assert (Hrest : p ∈ peaksFrom binWidth (i + 1) rest <->
                    exists k : nat, (b :: rest) !! S k = Some (amp p) /\
                                    (128 < Byte.to_N (amp p))%N /\
                                    freq p = ofZ (i + Z.of_nat (S k)) * binWidth).
    { rewrite IH. split; intros (k & Hk & Hl & Hf); exists k; (split; [exact Hk|]);
        (split; [exact Hl|]); rewrite Hf; do 2 f_equal; lia. }
    destruct (Z.ltb_spec 128 (Z.of_N (Byte.to_N b))) as [Hb|Hb].
    + rewrite elem_of_cons, Hrest. split.
      * intros [->|(k & Hk)]; [|exists (S k); exact Hk].
        exists 0%nat. cbn. split; [reflexivity|]. split; [lia|].
        do 2 f_equal. lia.
      * intros ([|k] & Hk & Hl & Hf); [left | right; exists k; auto].
        cbn in Hk. injection Hk as ->. destruct p as [f a]; cbn in *. subst f.
        do 3 f_equal. lia.
    + rewrite Hrest. split.
      * intros (k & Hk); exists (S k); exact Hk.
      * intros ([|k] & Hk & Hl & Hf); [|exists k; auto].
        cbn in Hk. injection Hk as ->. lia.
Qed.

Lemma insertPeak_perm p sorted : insertPeak p sorted ≡ₚ p :: sorted.
Proof.
  induction sorted as [|q rest IH]; cbn [insertPeak]; [reflexivity|].
  destruct (_ <? _)%N; [reflexivity|].
  rewrite IH. apply Permutation_swap.
Qed.

Lemma insertPeak_sorted p sorted :
  StronglySorted louder sorted -> StronglySorted louder (insertPeak p sorted).
Proof.
  induction 1 as [|q rest Hrest IH Hq]; cbn [insertPeak].
  - repeat constructor.
  - destruct (N.ltb_spec (Byte.to_N (amp q)) (Byte.to_N (amp p))) as [Hlt|Hge].
    + constructor; [constructor; assumption|].
      constructor; [unfold louder; lia|].
      eapply Forall_impl; [exact Hq|]. unfold louder. intros r Hr. lia.
    + constructor; [exact IH|].
      rewrite insertPeak_perm. constructor; [exact Hge | exact Hq].
Qed.

(** The sort rearranges the peaks, loudest first. *)
Lemma sortPeaks_spec peaks : forall acc,
  StronglySorted louder acc ->
  let sorted := fold_left (fun sorted p => insertPeak p sorted) peaks acc in
  StronglySorted louder sorted /\ sorted ≡ₚ peaks ++ acc.
Proof.
  induction peaks as [|p rest IH]; intros acc Hacc; cbn [fold_left app].
  - split; [exact Hacc | reflexivity].
  - destruct (IH (insertPeak p acc) (insertPeak_sorted p acc Hacc)) as [Hs Hp].
    split; [exact Hs|].
    cbv zeta in Hp. rewrite Hp, insertPeak_perm. symmetry. apply Permutation_middle.
Qed.

(** X3.  The dominant frequencies.  The peaks of a spectrum are its bins
    with amplitude above 128, each at frequency (bin index) x (sample
    rate / fftSize).  [getFrequencySpectrum] returns the frequencies of
    min(5, number of peaks) of them, loudest first, and every peak it leaves
    out is no louder than any it returns. *)
Theorem getFrequencySpectrum_loudest (ctxSampleRate : float) (frequencyData : list Byte.byte) :
  let binWidth := ctxSampleRate / ofZ fftSize in
  let peaks := peaksFrom binWidth 0 frequencyData in
  (forall p, p ∈ peaks <->
     exists k : nat, frequencyData !! k = Some (amp p) /\ (128 < Byte.to_N (amp p))%N /\
                     freq p = ofZ (Z.of_nat k) * binWidth) /\
  exists top rest,
    getFrequencySpectrum ctxSampleRate frequencyData = map freq top /\
    top ++ rest ≡ₚ peaks /\
    List.length top = Nat.min 5 (List.length peaks) /\
    StronglySorted louder top /\
    (forall p q, p ∈ top -> q ∈ rest -> louder p q).
Proof.
  intros binWidth peaks. split.
  - intros p. subst peaks. rewrite peaksFrom_spec. reflexivity.
  - destruct (sortPeaks_spec peaks [] (SSorted_nil _)) as [Hs Hp].
    cbv zeta in Hs, Hp. fold (sortPeaks peaks) in Hs, Hp. rewrite app_nil_r in Hp.
    exists (firstn 5 (sortPeaks peaks)), (skipn 5 (sortPeaks peaks)).
    rewrite <- (firstn_skipn 5 (sortPeaks peaks)) in Hs.
    split; [reflexivity|].
    split; [rewrite firstn_skipn; exact Hp|].
    split; [rewrite length_take, Hp; reflexivity|].
    split; [eapply StronglySorted_app_1_l; exact Hs|].
    intros p q. apply StronglySorted_app_1_elem_of. exact Hs.
Qed.

Lemma getFrequencySpectrum_length rate data :
  (List.length (getFrequencySpectrum rate data) <= 5)%nat.
Proof. unfold getFrequencySpectrum. rewrite length_map, length_take. lia. Qed.

End SpectrumFacts.

Section KeyEstimate.
Context `{MathLib}.
Import AudioContextAnalyzer.
Local Open Scope float_scope.

Lemma chromaFrom_silent binWidth data : forall i chroma,
  Forall (eq Byte.x00) data -> Forall (eq 0) chroma ->
  Forall (eq 0) (chromaFrom binWidth i data chroma).
Proof.
  induction data as [|b rest IH]; intros i chroma Hd Hc; cbn [chromaFrom]; [exact Hc|].
  inversion Hd as [|? ? Hb Hrest]; subst.
  apply IH; [exact Hrest|].
  destruct (_ =? 0); [exact Hc|].
  destruct (Math_round _) as [r|]; [|exact Hc].
  destruct (_ && _)%bool; [|exact Hc].
  apply Forall_alter; [exact Hc|].
  intros x _ <-. reflexivity.
Qed.

Lemma sumFrom0_zero l : Forall (eq 0) l -> sumFrom0 l = 0.
Proof.
  unfold sumFrom0. induction 1 as [|x l <- _ IH]; cbn [fold_left]; [reflexivity|].
  exact IH.
Qed.

(** X6.  A spectrum whose bins are all zero has no key: the chroma sums to
    zero and [estimateKeyFromChroma] returns neither key nor scale, whatever
    the sample rate and the mathematics library. *)
Theorem estimateKey_silent (ctxSampleRate : float) (frequencyData : list Byte.byte) :
  Forall (eq Byte.x00) frequencyData ->
  estimateKeyFromChroma ctxSampleRate frequencyData = (None, None).
Proof.
  intros Hd. unfold estimateKeyFromChroma.
  rewrite (sumFrom0_zero (chromaFrom _ 0 frequencyData _)); [reflexivity|].
  apply chromaFrom_silent; [exact Hd|].
  repeat constructor.
Qed.

Lemma bestInScale_fromTemplates chroma scaleName keys : forall best,
  fromTemplates (matchKey best) (matchScale best) ->
  (forall kt, kt ∈ keys -> fst kt ∈ templateKeys scaleName) ->
  let best' := bestInScale chroma scaleName best keys in
  fromTemplates (matchKey best') (matchScale best').
Proof.
  unfold bestInScale.
  induction keys as [|kt rest IH]; intros best Hbest Hkeys; cbn [fold_left]; [exact Hbest|].
  apply IH; [|intros kt' Hin; apply Hkeys, list_elem_of_further, Hin].
  destruct (_ <? _); [|exact Hbest].
  right. exists (fst kt), scaleName. cbn. repeat split. apply Hkeys, list_elem_of_here.
Qed.

(** The estimate is none, or a key of the table with its scale. *)
Lemma estimateKey_fromTemplates ctxSampleRate frequencyData :
  let r := estimateKeyFromChroma ctxSampleRate frequencyData in
  fromTemplates (fst r) (snd r).
Proof.
  cbv zeta. unfold estimateKeyFromChroma.
  destruct (_ =? 0); [left; split; reflexivity|].
  set (chroma := map _ _). cbn [fst snd].
  cbn [fold_left KEY_TEMPLATES fst snd].
  apply bestInScale_fromTemplates; [apply bestInScale_fromTemplates|].
  - left. split; reflexivity.
  - intros kt Hin. apply list_elem_of_fmap. exists kt. split; [reflexivity | exact Hin].
  - intros kt Hin. apply list_elem_of_fmap. exists kt. split; [reflexivity | exact Hin].
Qed.

(** Every key of the table is one [getPitchClass] knows. *)
Lemma templateKeys_resolve sc k :
  k ∈ templateKeys sc -> is_Some (SmartSampleTrigger.getPitchClass (Some k)).
Proof.
  unfold templateKeys. intros Hk.
  assert (Hall : Forall (fun st => Forall (fun kt =>
                    is_Some (SmartSampleTrigger.getPitchClass (Some (fst kt)))) (snd st))
                   KEY_TEMPLATES).
  { repeat constructor; vm_compute; eexists; reflexivity. }
  destruct (filter _ KEY_TEMPLATES) as [|st rest] eqn:E; [inversion Hk|].
  assert (Hst : st ∈ KEY_TEMPLATES).
  { eapply (list_elem_of_filter (fun st => fst st = sc)). rewrite E. apply list_elem_of_here. }
  rewrite Forall_forall in Hall. specialize (Hall st Hst). rewrite Forall_forall in Hall.
  apply list_elem_of_fmap in Hk as (kt & -> & Hkt). apply Hall, Hkt.
Qed.

(** X7.  What the key estimate can be.  [estimateKeyFromChroma] returns
    neither key nor scale, or both: the scale is ["Major"] or ["Minor"]
    and the key is one of the twelve of [KEY_TEMPLATES] under that scale,
    a name that [SmartSampleTrigger.getPitchClass] resolves. *)
Theorem estimateKey_from_templates (ctxSampleRate : float) (frequencyData : list Byte.byte) :
  let r := estimateKeyFromChroma ctxSampleRate frequencyData in
  (fst r = None /\ snd r = None) \/
  exists k sc, fst r = Some k /\ snd r = Some sc /\
               (sc = "Major" \/ sc = "Minor")%string /\ k ∈ templateKeys sc /\
               is_Some (SmartSampleTrigger.getPitchClass (Some k)).
Proof.
  cbv zeta.
  destruct (estimateKey_fromTemplates ctxSampleRate frequencyData)
    as [[Hk Hs]|(k & sc & Hk & Hs & Hin)]; [left; split; assumption|].
  right. exists k, sc. split; [exact Hk|]. split; [exact Hs|].
  split; [|split; [exact Hin | eapply templateKeys_resolve, Hin]].
  unfold templateKeys in Hin.
  destruct (String.eqb_spec sc "Major") as [->|N1]; [left; reflexivity|].
  destruct (String.eqb_spec sc "Minor") as [->|N2]; [right; reflexivity|].
  exfalso. cbn in Hin.
  rewrite !decide_False in Hin by congruence. inversion Hin.
Qed.

End KeyEstimate.

(** Four silent bins. *)
Lemma estimateKey_silent_witness :
  Forall (eq Byte.x00) (repeat Byte.x00 4) /\
  AudioContextAnalyzer.estimateKeyFromChroma (H := exampleMath) 48000%float
    (repeat Byte.x00 4) = (None, None).
Proof.
  assert (Hsilent : Forall (eq Byte.x00) (repeat Byte.x00 4)) by (repeat constructor).
  split; [exact Hsilent|].
  apply (estimateKey_silent (H := exampleMath) 48000%float (repeat Byte.x00 4) Hsilent).
Defined.

Section OnsetFacts.
Context `{MathLib}.
Import AudioContextAnalyzer.
Local Open Scope float_scope.

Lemma pushFlux_length history flux :
  (List.length history <= FLUX_HISTORY_SIZE)%nat ->
  List.length (pushFlux history flux)
  = Nat.min (S (List.length history)) FLUX_HISTORY_SIZE.
Proof.
  intros Hle. unfold pushFlux.
  assert (Hp : List.length (history ++ [flux]) = S (List.length history))
    by (rewrite length_app; cbn; lia).
  destruct (Nat.ltb_spec FLUX_HISTORY_SIZE (List.length (history ++ [flux]))) as [Hlt|Hge].
  - destruct (history ++ [flux]) as [|x t]; cbn [tl List.length] in *; lia.
  - lia.
Qed.

(** The analyser after a frame. *)
Lemma detect_state a floatData :
  fst (detectOnsetsAndDensity a floatData)
  = {| prevSpectrum := map toLinear floatData;
       spectralFluxHistory :=
         pushFlux (spectralFluxHistory a)
                  (spectralFluxFrom 0 (map toLinear floatData) (prevSpectrum a)) |}.
Proof. unfold detectOnsetsAndDensity. destruct (pushFlux _ _); reflexivity. Qed.

Lemma detect_one_onset a floatData :
  exists onset, infoOnsets (snd (detectOnsetsAndDensity a floatData)) = [onset].
Proof. unfold detectOnsetsAndDensity. destruct (pushFlux _ _); eexists; reflexivity. Qed.

Lemma afterFrames_snoc frames floatData :
  afterFrames (frames ++ [floatData])
  = fst (detectOnsetsAndDensity (afterFrames frames) floatData).
Proof. unfold afterFrames. rewrite fold_left_app. reflexivity. Qed.

Lemma afterFrames_history frames :
  List.length (spectralFluxHistory (afterFrames frames))
  = Nat.min (List.length frames) FLUX_HISTORY_SIZE.
Proof.
  induction frames as [|floatData frames IH] using rev_ind; [reflexivity|].
  rewrite afterFrames_snoc, detect_state. cbn [spectralFluxHistory].
  rewrite pushFlux_length by (rewrite IH; lia).
  rewrite IH, length_app. cbn [List.length]. unfold FLUX_HISTORY_SIZE. lia.
Qed.

Lemma afterFrames_prevSpectrum frames :
  (forall y, notNegative (Math_pow 10 y) = true) ->
  Forall (fun p => notNegative p = true) (prevSpectrum (afterFrames frames)).
Proof.
  intros Hpow. destruct frames as [|floatData frames _] using rev_ind.
  - apply List.Forall_forall. intros p Hp. apply List.repeat_spec in Hp. subst p. reflexivity.
  - rewrite afterFrames_snoc. apply detect_prevSpectrum, Hpow.
Qed.

(** X4.  The flux history is a window of thirty.  After any series of
    frames fed to a new analyser the history holds min(number of frames,
    30) values; a further frame leaves it non-empty and at most thirty
    long, makes the previous spectrum as long as that frame, and reports
    exactly one onset flag. *)
Theorem flux_history_bounded (frames : list (list float)) (floatData : list float) :
  let a := afterFrames frames in
  let r := detectOnsetsAndDensity a floatData in
  List.length (spectralFluxHistory a) = Nat.min (List.length frames) 30 /\
  (List.length (spectralFluxHistory (fst r)) <= 30)%nat /\
  spectralFluxHistory (fst r) <> [] /\
  List.length (prevSpectrum (fst r)) = List.length floatData /\
  exists onset, infoOnsets (snd r) = [onset].
Proof.
  cbv zeta. split; [apply afterFrames_history|].
  pose proof (afterFrames_history (frames ++ [floatData])) as Hn.
  rewrite afterFrames_snoc, length_app in Hn. cbn [List.length] in Hn.
  unfold FLUX_HISTORY_SIZE in Hn.
  split; [rewrite Hn; lia|].
  split; [intros E; rewrite E in Hn; cbn in Hn; lia|].
  split; [rewrite detect_state; cbn [prevSpectrum]; apply length_map|].
  apply detect_one_onset.
Qed.

(** X5.  Silence is no onset.  With a [Math.pow] that never returns a
    negative number or NaN for base 10, a frame whose bins are all below
    -100 dB, after any series of frames: the onset flag is false, the beat
    density is 0, and the flux recorded for the frame is 0. *)
Theorem silent_frame_no_onset (frames : list (list float)) (floatData : list float) :
  (forall y, notNegative (Math_pow 10 y) = true) ->
  Forall (fun db => silent db = true) floatData ->
  let r := detectOnsetsAndDensity (afterFrames frames) floatData in
  infoOnsets (snd r) = [false] /\ infoBeatDensity (snd r) = 0 /\
  last (spectralFluxHistory (fst r)) = Some 0.
Proof.
  intros Hpow Hs. cbv zeta.
  pose proof (afterFrames_prevSpectrum frames Hpow) as Hp.
  split; [|split; [apply detect_density_silent; assumption|]].
  - unfold detectOnsetsAndDensity. rewrite (silent_flux _ _ Hs Hp).
    destruct (pushFlux _ _); cbn [snd infoOnsets]; [reflexivity|].
    change (0.01 <? 0) with false. rewrite andb_false_r. reflexivity.
  - rewrite detect_state. cbn [spectralFluxHistory]. rewrite (silent_flux _ _ Hs Hp).
    unfold pushFlux.
    set (h := spectralFluxHistory (afterFrames frames)).
    destruct h as [|x t]; [reflexivity|].
    destruct (_ <? _)%nat; cbn [app tl]; [apply last_snoc|].
    change (x :: t ++ [0]) with ((x :: t) ++ [0]). apply last_snoc.
Qed.

Lemma defaultContext_wellFormed now : wellFormedContext (defaultContext now).
Proof.
  unfold wellFormedContext, defaultContext; cbn.
  split; [exists 0; split; reflexivity|]. split; [exists 0; split; reflexivity|].
  split; [exists false; reflexivity|]. split; [exists []; split; [reflexivity | cbn; lia]|].
  split; [reflexivity|]. split; [left; split; reflexivity|]. intros k E. discriminate E.
Qed.

(** The snapshot built from a frame is well formed. *)
Lemma analysedContext_wellFormed (e : AnalysisEnv) (a : Analyzer) now :
  List.length (byteFrequencyDataEnergy (frames e)) = Z.to_nat frequencyBinCount ->
  let onsetInfo := snd (detectOnsetsAndDensity a (floatFrequencyData (frames e))) in
  let keyInfo := estimateKeyFromChroma (ctxSampleRate e) (byteFrequencyDataKey (frames e)) in
  wellFormedContext
    {| timestamp := now;
       bpm := None;
       dominantFrequencies :=
         Some (getFrequencySpectrum (ctxSampleRate e) (byteFrequencyDataPeaks (frames e)));
       energy := Some (calculateEnergy (byteFrequencyDataEnergy (frames e)));
       key := fst keyInfo;
       scale := snd keyInfo;
       onsets := Some (infoOnsets onsetInfo);
       beatDensity := Some (infoBeatDensity onsetInfo) |}.
Proof.
  intros Hlen onsetInfo keyInfo. unfold wellFormedContext; cbn.
  split; [eexists; split; [reflexivity | apply calculateEnergy_range, Hlen]|].
  split; [eexists; split; [reflexivity | apply detect_density_range]|].
  split; [destruct (detect_one_onset a (floatFrequencyData (frames e))) as [onset Ho];
          exists onset; subst onsetInfo; rewrite Ho; reflexivity|].
  split; [eexists; split; [reflexivity | apply getFrequencySpectrum_length]|].
  split; [reflexivity|].
  pose proof (estimateKey_fromTemplates (ctxSampleRate e) (byteFrequencyDataKey (frames e)))
    as Hk. cbv zeta in Hk. fold keyInfo in Hk.
  split; [exact Hk|].
  intros k Ek. destruct Hk as [[Hnone _]|(k' & sc & Hk' & _ & Hin)]; [congruence|].
  assert (k' = k) as -> by congruence. eapply templateKeys_resolve, Hin.
Qed.

(** X8.  Every snapshot is well formed.  When the energy frame has
    frequencyBinCount bytes and [analyzeRealTimeContext] returns a
    snapshot, for whatever input: energy and beat density lie in [0, 1],
    there is one onset flag, at most five dominant frequencies and no
    tempo; key and scale are both absent or both present, the key one of
    [KEY_TEMPLATES] and resolved by [getPitchClass]; and the timestamp is
    one of the two clock readings of the call. *)
Theorem analysis_snapshot_well_formed
    (e : AnalysisEnv) (a : Analyzer) (inputBuffer : option AudioBuffer)
    (context : MusicalContext) :
  List.length (byteFrequencyDataEnergy (frames e)) = Z.to_nat frequencyBinCount ->
  snd (analyzeRealTimeContext e a inputBuffer) = Normal context ->
  wellFormedContext context /\
  (timestamp context = nowAtEntry e \/ timestamp context = nowAtReturn e).
Proof.
  intros Hlen. unfold analyzeRealTimeContext.
  destruct inputBuffer as [buffer|]; cbn [snd].
  2: { intros E. injection E as <-. split; [apply defaultContext_wellFormed | left; reflexivity]. }
  destruct (length buffer =? 0)%N; cbn [snd].
  { intros E. injection E as <-. split; [apply defaultContext_wellFormed | left; reflexivity]. }
  destruct (sourceFailure e); cbn [snd]; [intros E; discriminate E|].
  pose proof (analysedContext_wellFormed e a (nowAtReturn e) Hlen) as Hwf. cbv zeta in Hwf.
  destruct (detectOnsetsAndDensity a (floatFrequencyData (frames e))) as [a' onsetInfo].
  cbn [snd] in *. intros E. injection E as <-.
  split; [exact Hwf | right; reflexivity].
Qed.

End OnsetFacts.

(** The example library never returns a negative power of ten. *)
Lemma exampleMath_pow_notNegative :
  forall y, notNegative (@Math_pow exampleMath 10%float y) = true.
Proof.
  intros y. cbn.
  repeat match goal with |- context [if ?b then _ else _] => destruct b end; reflexivity.
Qed.

(** One silent frame after one loud frame. *)
Lemma silent_frame_no_onset_witness :
  (forall y, notNegative (@Math_pow exampleMath 10%float y) = true) /\
  Forall (fun db => silent db = true) [(-120)%float; neg_infinity] /\
  AudioContextAnalyzer.infoOnsets
    (snd (@AudioContextAnalyzer.detectOnsetsAndDensity exampleMath
            (@afterFrames exampleMath [[0%float; 0%float]])
            [(-120)%float; neg_infinity])) = [false].
Proof.
  assert (Hsilent : Forall (fun db => silent db = true) [(-120)%float; neg_infinity])
    by (repeat constructor).
  split; [exact exampleMath_pow_notNegative|]. split; [exact Hsilent|].
  apply (@silent_frame_no_onset exampleMath [[0%float; 0%float]]
           [(-120)%float; neg_infinity] exampleMath_pow_notNegative Hsilent).
Defined.

(** The example frames, analysed for the example buffer. *)
Lemma analysis_snapshot_well_formed_witness :
  exists context,
    snd (@AudioContextAnalyzer.analyzeRealTimeContext exampleMath
           (exampleAnalysisEnv None) AudioContextAnalyzer.new (Some exampleBuffer))
    = Normal context /\
    wellFormedContext context /\ timestamp context = 10100.
Proof.
  eexists. split; [reflexivity|].
  destruct (@analysis_snapshot_well_formed exampleMath (exampleAnalysisEnv None)
              AudioContextAnalyzer.new (Some exampleBuffer) _ eq_refl eq_refl) as [Hwf _].
  split; [exact Hwf | reflexivity].
Defined.

(** ** The aggregator *)

Section SessionFacts.
Import ContextAwareLyriaSession.
Context `{MathLib}.
Variable ctxSampleRate : float.

Lemma evict_suffix queue : forall accumulated,
  exists evicted,
    queue = evicted ++ fst (evict ctxSampleRate queue accumulated) /\
    snd (evict ctxSampleRate queue accumulated) = accumulated - queuedLength evicted.
Proof.
  induction queue as [|oldest rest IH]; intros accumulated; cbn [evict].
  - exists []. cbn. split; [reflexivity | lia].
  - destruct (_ <? _)%float.
    + destruct (IH (accumulated - Z.of_N (length oldest))) as (evicted & Hq & Hc).
      exists (oldest :: evicted). cbn [app]. split; [f_equal; exact Hq|].
      rewrite Hc. cbn [queuedLength fold_right]. fold (queuedLength evicted). lia.
    + exists []. cbn. split; [reflexivity | lia].
Qed.

(** One call keeps the counter exact and the queue free of empty buffers;
    a call that starts an analysis hands over the queue it leaves. *)
Lemma handleNewLyriaAudioBuffer_queue now lyriaBuffer s :
  counterExact s -> noEmptyBuffer (audioBufferQueue s) ->
  let r := handleNewLyriaAudioBuffer ctxSampleRate now lyriaBuffer s in
  counterExact r.1.1 /\ noEmptyBuffer (audioBufferQueue r.1.1) /\
  (forall queue, r.2 = Some queue ->
     queue = audioBufferQueue r.1.1 /\ r.1.2 = [] /\
     lastAnalysisTime r.1.1 = now /\
     analysisIntervalMs < now - lastAnalysisTime s /\
     exists b older, lyriaBuffer = Some b /\ queue = older ++ [b]) /\
  (r.2 = None -> lastAnalysisTime r.1.1 = lastAnalysisTime s).
Proof.
  intros Hexact Hne. unfold handleNewLyriaAudioBuffer.
  assert (Hsame : counterExact s /\ noEmptyBuffer (audioBufferQueue s) /\
                  (forall queue : list AudioBuffer, @None (list AudioBuffer) = Some queue ->
                     queue = audioBufferQueue s /\
                     [Warn "ContextAwareLyriaSession: Received invalid Lyria audio buffer."] = [] /\
                     lastAnalysisTime s = now /\
                     analysisIntervalMs < now - lastAnalysisTime s /\
                     exists b older, lyriaBuffer = Some b /\ queue = older ++ [b]) /\
                  (@None (list AudioBuffer) = None -> lastAnalysisTime s = lastAnalysisTime s)).
  { split; [exact Hexact|]. split; [exact Hne|]. split; [intros q E; discriminate E | reflexivity]. }
  destruct lyriaBuffer as [buf|]; [|exact Hsame].
  destruct (N.eqb_spec (length buf) 0) as [|Hlen]; [exact Hsame|]. clear Hsame.
  destruct (evict_suffix (audioBufferQueue s ++ [buf])
              (accumulatedBufferLength s + Z.of_N (length buf))) as (evicted & Hq & Hc).
  destruct (evict ctxSampleRate _ _) as [queue accumulated']. cbn [fst snd] in Hq, Hc.
  assert (Hexact' : accumulated' = queuedLength queue).
  { pose proof (f_equal queuedLength Hq) as E. rewrite !queuedLength_app in E.
    cbn [queuedLength fold_right] in E. unfold counterExact in Hexact. lia. }
  assert (Hne' : noEmptyBuffer queue).
  { assert (Hall : noEmptyBuffer (audioBufferQueue s ++ [buf])).
    { apply Forall_app. split; [exact Hne | repeat constructor; exact Hlen]. }
    rewrite Hq in Hall. apply Forall_app in Hall as [_ Hall]. exact Hall. }
  destruct (Z.ltb_spec analysisIntervalMs (now - lastAnalysisTime s)) as [Hdue|Hearly];
    cbn [andb].
  - destruct queue as [|b0 q0] eqn:Equeue; cbn [fst snd audioBufferQueue lastAnalysisTime].
    + split; [exact Hexact'|]. split; [exact Hne'|].
      split; [intros q E; discriminate E | reflexivity].
    + split; [exact Hexact'|]. split; [exact Hne'|].
      split; [|intros E; discriminate E].
      intros q E. injection E as <-. do 4 (split; [reflexivity || exact Hdue|]).
      exists buf.
      destruct (@exists_last _ (b0 :: q0)) as (older & b' & E); [discriminate|].
      exists older. split; [reflexivity|]. rewrite E in Hq |- *.
      rewrite app_assoc in Hq. apply app_inj_tail in Hq as [_ ->]. reflexivity.
  - cbn [fst snd audioBufferQueue lastAnalysisTime].
    split; [exact Hexact'|]. split; [exact Hne'|].
    split; [intros q E; discriminate E | reflexivity].
Qed.

Lemma sessionAfter_invariant calls : forall s,
  counterExact s -> noEmptyBuffer (audioBufferQueue s) ->
  counterExact (sessionAfter ctxSampleRate s calls) /\
  noEmptyBuffer (audioBufferQueue (sessionAfter ctxSampleRate s calls)).
Proof.
  induction calls as [|c calls IH]; intros s Hexact Hne; [split; assumption|].
  cbn [sessionAfter fold_left].
  destruct (handleNewLyriaAudioBuffer_queue (fst c) (snd c) s Hexact Hne) as (H1 & H2 & _).
  apply IH; assumption.
Qed.

(** X9.  Analyses are throttled.  Over any series of calls on any session,
    each analysis starts more than [analysisIntervalMs] (500 ms) of the clock
    after the one before it, the first after the session's
    [lastAnalysisTime]; afterwards [lastAnalysisTime] is the time of the
    last analysis started, unchanged if there was none; and an analysis
    starts only in a call that brought a buffer. *)
Theorem analysis_throttle (s : Session) (calls : list (Z * option AudioBuffer)) :
  let started := analysesStarted ctxSampleRate s calls in
  spaced (lastAnalysisTime s) started.*1 /\
  lastAnalysisTime (sessionAfter ctxSampleRate s calls)
  = default (lastAnalysisTime s) (last started.*1) /\
  (forall t queue, (t, queue) ∈ started -> exists b, (t, Some b) ∈ calls).
Proof.
  revert s. induction calls as [|c calls IH]; intros s; cbv zeta.
  - cbn. split; [exact I|]. split; [reflexivity|]. intros t q Hin. inversion Hin.
  - cbn [analysesStarted sessionAfter fold_left].
    set (r := handleNewLyriaAudioBuffer ctxSampleRate (fst c) (snd c) s).
    destruct (IH r.1.1) as (Hsp & Hlast & Hin). cbv zeta in *.
    fold (sessionAfter ctxSampleRate r.1.1 calls).
    assert (Hr : match r.2 with
                 | Some _ => analysisIntervalMs < fst c - lastAnalysisTime s /\
                             lastAnalysisTime r.1.1 = fst c /\ exists b, snd c = Some b
                 | None => lastAnalysisTime r.1.1 = lastAnalysisTime s
                 end).
    { subst r. unfold handleNewLyriaAudioBuffer.
      destruct (snd c) as [buf|]; [|reflexivity].
      destruct (length buf =? 0)%N; [reflexivity|].
      destruct (evict ctxSampleRate _ _) as [queue accumulated'].
      destruct (Z.ltb_spec analysisIntervalMs (fst c - lastAnalysisTime s)) as [Hdue|Hearly];
        cbn [andb]; [|reflexivity].
      destruct queue; cbn; [reflexivity|]. repeat split; eauto. }
    destruct r.2 as [queue|]; cbn [app fmap list_fmap fst].
    + destruct Hr as (Hdue & Et & b & Eb). rewrite Et in Hsp, Hlast.
      split; [split; [lia | exact Hsp]|].
      split.
      * rewrite Hlast, last_cons.
        destruct (last (analysesStarted ctxSampleRate r.1.1 calls).*1); reflexivity.
      * intros t q [E|Hin']%elem_of_cons.
        -- injection E as -> ->. exists b. destruct c as [t0 b0]; cbn in *. subst b0.
           apply list_elem_of_here.
        -- destruct (Hin t q Hin') as [b' Hb']. exists b'. apply list_elem_of_further, Hb'.
    + rewrite Hr in Hsp, Hlast. split; [exact Hsp|]. split; [exact Hlast|].
      intros t q Hin'. destruct (Hin t q Hin') as [b' Hb']. exists b'.
      apply list_elem_of_further, Hb'.
Qed.


Lemma totalLength_queuedLength buffers : forall sum,
  Z.of_N (fold_left (fun sum buf => (sum + length buf)%N) buffers sum)
  = Z.of_N sum + queuedLength buffers.
Proof.
  induction buffers as [|b rest IH]; intros sum; cbn [fold_left queuedLength fold_right]; [lia|].
  fold (queuedLength rest). rewrite IH. lia.
Qed.

Lemma queuedLength_validBuffers buffers :
  queuedLength (validBuffers buffers) = queuedLength buffers.
Proof.
  unfold validBuffers. induction buffers as [|b rest IH]; [reflexivity|].
  cbn [queuedLength fold_right]. fold (queuedLength rest).
  destruct (decide (0 < length b)%N) as [Hb|Hb].
  - rewrite filter_cons_True by exact Hb. cbn [queuedLength fold_right].
    fold (queuedLength (filter (fun b => (0 < length b)%N) rest)). rewrite IH. reflexivity.
  - rewrite filter_cons_False by exact Hb. rewrite IH. lia.
Qed.

Lemma queuedLength_positive queue :
  queue <> [] -> noEmptyBuffer queue -> 0 < queuedLength queue.
Proof.
  intros Hq Hne. destruct Hne as [|b q Hb Hrest]; [congruence|].
  cbn [queuedLength fold_right]. fold (queuedLength q).
  pose proof (queuedLength_nonneg q). lia.
Qed.

Lemma combineChannel_spec k buffers :
  Forall (fun b => (k < List.length (channelData b))%nat) buffers ->
  combineChannel k buffers = Normal (channelsEndToEnd k buffers).
Proof.
  unfold channelsEndToEnd.
  induction 1 as [|b rest Hb _ IH]; cbn [combineChannel map concat]; [reflexivity|].
  destruct (lookup_lt_is_Some_2 _ _ Hb) as [data Hd]. rewrite Hd, IH. reflexivity.
Qed.

Lemma combineChannel_throws k buffers :
  (exists e, combineChannel k buffers = Throw e) <->
  Exists (fun b => (List.length (channelData b) <= k)%nat) buffers.
Proof.
  induction buffers as [|b rest IH]; cbn [combineChannel].
  - split; [intros [e E]; discriminate E | intros E; inversion E].
  - rewrite Exists_cons, <- IH.
    destruct (channelData b !! k) as [data|] eqn:Hd.
    + apply lookup_lt_Some in Hd.
      destruct (combineChannel k rest); split.
      * intros [e E]; discriminate E.
      * intros [Hb|[e E]]; [lia | discriminate E].
      * intros [e E]. right. eauto.
      * intros _. eauto.
    + apply lookup_ge_None in Hd. split; [left; exact Hd | eauto].
Qed.

Lemma combineChannels_spec buffers : forall channels,
  Forall (fun k => Forall (fun b => (k < List.length (channelData b))%nat) buffers) channels ->
  combineChannels channels buffers
  = Normal (map (fun k => channelsEndToEnd k buffers) channels).
Proof.
  induction 1 as [|k rest Hk _ IH]; cbn [combineChannels map]; [reflexivity|].
  rewrite (combineChannel_spec k buffers Hk), IH. reflexivity.
Qed.

Lemma combineChannels_throws buffers : forall channels,
  (exists e, combineChannels channels buffers = Throw e) ->
  exists k b, k ∈ channels /\ b ∈ buffers /\ (List.length (channelData b) <= k)%nat.
Proof.
  induction channels as [|k rest IH]; cbn [combineChannels]; [intros [e E]; discriminate E|].
  intros [e E].
  destruct (combineChannel k buffers) as [d|e1] eqn:Ek.
  - destruct (combineChannels rest buffers) as [ds|e2]; [discriminate E|].
    destruct IH as (k' & b & Hk' & Hb & Hlen); [eauto|].
    exists k', b. split; [apply list_elem_of_further, Hk' | auto].
  - assert (Hex : Exists (fun b => (List.length (channelData b) <= k)%nat) buffers)
      by (apply combineChannel_throws; eauto).
    apply Exists_exists in Hex as (b & Hb & Hlen).
    exists k, b. split; [apply list_elem_of_here | auto].
Qed.

Lemma combineChannel_normal k buffers : forall d,
  combineChannel k buffers = Normal d -> d = channelsEndToEnd k buffers.
Proof.
  unfold channelsEndToEnd.
  induction buffers as [|b rest IH]; cbn [combineChannel map concat]; intros d E.
  - injection E as <-. reflexivity.
  - destruct (channelData b !! k) as [data|]; [|discriminate E].
    destruct (combineChannel k rest) as [more|e]; [|discriminate E].
    injection E as <-. rewrite (IH more eq_refl). reflexivity.
Qed.

Lemma combineChannels_normal buffers : forall channels data,
  combineChannels channels buffers = Normal data ->
  data = map (fun k => channelsEndToEnd k buffers) channels.
Proof.
  induction channels as [|k rest IH]; cbn [combineChannels map]; intros data E.
  - injection E as <-. reflexivity.
  - destruct (combineChannel k buffers) as [d|e] eqn:Ek.
    + destruct (combineChannels rest buffers) as [ds|e]; [|discriminate E].
      injection E as <-. rewrite (combineChannel_normal _ _ _ Ek), (IH ds eq_refl). reflexivity.
    + destruct (combineChannels rest buffers); discriminate E.
Qed.

Lemma validBuffers_nil buffers :
  validBuffers buffers = [] <-> Forall (fun b => length b = 0%N) buffers.
Proof.
  unfold validBuffers. induction buffers as [|b rest IH]; [split; constructor|].
  destruct (decide (0 < length b)%N) as [Hb|Hb].
  - rewrite filter_cons_True by exact Hb. split; [discriminate|].
    intros Hall. inversion Hall; subst. lia.
  - rewrite filter_cons_False by exact Hb. rewrite IH. split.
    + intros Hall. constructor; [lia | exact Hall].
    + intros Hall. inversion Hall; assumption.
Qed.

Lemma validBuffers_noEmpty buffers : noEmptyBuffer (validBuffers buffers).
Proof.
  unfold validBuffers, noEmptyBuffer. apply Forall_forall. intros b Hb.
  apply list_elem_of_filter in Hb as [Hb _]. lia.
Qed.

(** [combineAudioChunks], by the buffers of positive length. *)
Lemma combineAudioChunks_cases buffers :
  match validBuffers buffers with
  | [] => combineAudioChunks buffers = Normal None
  | first :: _ =>
      match combineChannels (seq 0 (N.to_nat (numberOfChannels first))) (validBuffers buffers) with
      | Throw e => combineAudioChunks buffers = Throw e
      | Normal data =>
          exists total,
            Z.of_N total = queuedLength buffers /\ total <> 0%N /\
            combineAudioChunks buffers
            = Normal (Some {| length := total;
                              numberOfChannels := numberOfChannels first;
                              sampleRate := sampleRate first;
                              duration := (ofZ (Z.of_N total) / sampleRate first)%float;
                              channelData := data |})
      end
  end.
Proof.
  unfold combineAudioChunks. fold (validBuffers buffers).
  pose proof (validBuffers_noEmpty buffers) as Hne.
  pose proof (queuedLength_validBuffers buffers) as Hq.
  destruct (validBuffers buffers) as [|first rest] eqn:Ev; [reflexivity|].
  set (total := fold_left _ _ _).
  assert (Ht : Z.of_N total = queuedLength buffers).
  { subst total. rewrite totalLength_queuedLength, <- Hq. lia. }
  assert (Hpos : total <> 0%N).
  { pose proof (queuedLength_positive (first :: rest) ltac:(discriminate) Hne). lia. }
  destruct (N.eqb_spec total 0) as [E|_]; [contradiction|].
  destruct (combineChannels _ _) as [data|e]; [|reflexivity].
  exists total. split; [exact Ht|]. split; [exact Hpos | reflexivity].
Qed.

(** [combineAudioChunks] returns [null] exactly when no buffer has a
    positive length. *)
Lemma combineAudioChunks_null buffers :
  combineAudioChunks buffers = Normal None <-> Forall (fun b => length b = 0%N) buffers.
Proof.
  pose proof (combineAudioChunks_cases buffers) as Hc.
  rewrite <- validBuffers_nil.
  destruct (validBuffers buffers) as [|first rest]; [split; auto|].
  destruct (combineChannels _ _) as [data|e].
  - destruct Hc as (total & _ & _ & ->). split; intros E; discriminate E.
  - rewrite Hc. split; intros E; discriminate E.
Qed.

(** A combined buffer is as long as the buffers together, and not empty. *)
Lemma combineAudioChunks_length buffers combined :
  combineAudioChunks buffers = Normal (Some combined) ->
  Z.of_N (length combined) = queuedLength buffers /\ length combined <> 0%N.
Proof.
  pose proof (combineAudioChunks_cases buffers) as Hc.
  destruct (validBuffers buffers) as [|first rest]; [rewrite Hc; intros E; discriminate E|].
  destruct (combineChannels _ _) as [data|e]; [|rewrite Hc; intros E; discriminate E].
  destruct Hc as (total & Ht & Hpos & ->). intros E. injection E as <-.
  split; [exact Ht | exact Hpos].
Qed.


(** X11.  What [combineAudioChunks] builds.  It returns [null] exactly
    when no buffer has a positive length.  A combined buffer has the summed
    length of the buffers, which is not zero, the channel count and sample
    rate of the first buffer of positive length, and for each of those
    channels the data of the buffers of positive length end to end.  It
    throws only when one of those buffers has fewer channels than the first,
    and never when all have as many. *)
Theorem combineAudioChunks_spec (buffers : list AudioBuffer) :
  (combineAudioChunks buffers = Normal None <-> Forall (fun b => length b = 0%N) buffers) /\
  (forall combined, combineAudioChunks buffers = Normal (Some combined) ->
     Z.of_N (length combined) = queuedLength buffers /\
     length combined <> 0%N /\
     exists first,
       head (validBuffers buffers) = Some first /\
       numberOfChannels combined = numberOfChannels first /\
       sampleRate combined = sampleRate first /\
       channelData combined
       = map (fun k => channelsEndToEnd k (validBuffers buffers))
             (seq 0 (N.to_nat (numberOfChannels first)))) /\
  (forall e, combineAudioChunks buffers = Throw e ->
     exists first b,
       head (validBuffers buffers) = Some first /\ b ∈ validBuffers buffers /\
       (List.length (channelData b) < N.to_nat (numberOfChannels first))%nat) /\
  (forall first, head (validBuffers buffers) = Some first ->
     enoughChannels (numberOfChannels first) (validBuffers buffers) ->
     exists combined, combineAudioChunks buffers = Normal (Some combined)).
Proof.
  pose proof (combineAudioChunks_cases buffers) as Hc.
  rewrite <- validBuffers_nil.
  destruct (validBuffers buffers) as [|first rest] eqn:Ev.
  - split; [split; auto|]. rewrite Hc.
    split; [intros c E; discriminate E|]. split; [intros e E; discriminate E|].
    intros first E. discriminate E.
  - destruct (combineChannels _ _) as [data|e] eqn:Ech.
    + destruct Hc as (total & Ht & Hpos & ->).
      split; [split; intros E; discriminate E|].
      split.
      { intros c E. injection E as <-. cbn. split; [exact Ht|]. split; [exact Hpos|].
        exists first. repeat split. apply (combineChannels_normal _ _ _ Ech). }
      split; [intros e E; discriminate E|].
      intros f _ _. eexists. reflexivity.
    + rewrite Hc. split; [split; intros E; discriminate E|].
      split; [intros c E; discriminate E|].
      destruct (combineChannels_throws (first :: rest) _ (ex_intro _ e Ech))
        as (k & b & Hk & Hb & Hlen).
      apply elem_of_seq in Hk.
      split.
      { intros e' _. exists first, b. split; [reflexivity|]. split; [exact Hb | lia]. }
      intros f E Henough. injection E as <-.
      unfold enoughChannels in Henough. rewrite Forall_forall in Henough.
      specialize (Henough b Hb). lia.
Qed.

(** X10.  What an analysis is handed.  When a call after any series of
    calls on a new session starts an analysis, the queue handed over is the
    one the call leaves: it ends with the buffer just received, holds no
    empty buffer, and the counter is its length in sample frames; combining
    it never gives [null], and a combined buffer has the counter's length,
    which is not zero. *)
Theorem analysis_snapshot (calls : list (Z * option AudioBuffer)) (now : Z)
    (lyriaBuffer : option AudioBuffer) (queue : list AudioBuffer) :
  let s := afterCalls ctxSampleRate calls in
  let r := handleNewLyriaAudioBuffer ctxSampleRate now lyriaBuffer s in
  r.2 = Some queue ->
  queue = audioBufferQueue r.1.1 /\
  (exists b older, lyriaBuffer = Some b /\ queue = older ++ [b]) /\
  noEmptyBuffer queue /\
  accumulatedBufferLength r.1.1 = queuedLength queue /\
  combineAudioChunks queue <> Normal None /\
  (forall combined, combineAudioChunks queue = Normal (Some combined) ->
     Z.of_N (length combined) = accumulatedBufferLength r.1.1 /\ length combined <> 0%N).
Proof.
  cbv zeta. intros Hq.
  assert (Hinv : counterExact (afterCalls ctxSampleRate calls) /\
                 noEmptyBuffer (audioBufferQueue (afterCalls ctxSampleRate calls))).
  { apply (sessionAfter_invariant calls ContextAwareLyriaSession.new);
      [reflexivity | constructor]. }
  destruct Hinv as [Hexact Hne].
  destruct (handleNewLyriaAudioBuffer_queue now lyriaBuffer _ Hexact Hne)
    as (Hexact' & Hne' & Hsnap & _).
  destruct (Hsnap queue Hq) as (Eq & _ & _ & _ & b & older & Eb & Eolder).
  split; [exact Eq|]. split; [exists b, older; auto|].
  unfold counterExact in Hexact'.
  rewrite <- Eq in Hne', Hexact'. split; [exact Hne'|]. split; [exact Hexact'|].
  split.
  - rewrite combineAudioChunks_null. intros Hall. rewrite Eolder in Hall, Hne'.
    apply Forall_app in Hall as [_ Hall]. apply Forall_app in Hne' as [_ Hne'].
    inversion Hall; inversion Hne'; subst. contradiction.
  - intros combined E. destruct (combineAudioChunks_length queue combined E) as (Hlen & Hpos).
    split; [rewrite Hexact'; exact Hlen | exact Hpos].
Qed.


End SessionFacts.

(** The first second of audio, received one second into the session. *)
Lemma analysis_snapshot_witness :
  snd (ContextAwareLyriaSession.handleNewLyriaAudioBuffer 48000 1000 (Some oneSecondBuffer)
         (afterCalls 48000 [])) = Some [oneSecondBuffer] /\
  noEmptyBuffer [oneSecondBuffer] /\
  ContextAwareLyriaSession.combineAudioChunks [oneSecondBuffer] <> Normal None.
Proof.
  assert (Hstarted :
            snd (ContextAwareLyriaSession.handleNewLyriaAudioBuffer 48000 1000
                   (Some oneSecondBuffer) (afterCalls 48000 [])) = Some [oneSecondBuffer])
    by reflexivity.
  split; [exact Hstarted|].
  destruct (analysis_snapshot 48000 [] 1000 (Some oneSecondBuffer) [oneSecondBuffer] Hstarted)
    as (_ & _ & Hne & _ & Hnull & _).
  split; [exact Hne | exact Hnull].
Defined.


(** ** The scheduler and the mixer *)

Section SchedulerFacts.
Import SmartSampleTrigger.
Context `{MathLib}.
Variable env : AudioEnv.
Variable clock : Clock.
Variable hasCallback : bool.
Variable musicContext : MusicalContext.

Lemma config_in_range s p :
  -6 <= p <= 6 -> configInRange (calculatePlaybackConfig s musicContext p).
Proof.
  intros Hp. destruct (playback_volume_cases s musicContext p) as (v & -> & Hv).
  exists v, p. cbn [volume pitchShift timingOffset].
  do 3 (split; [reflexivity|]).
  repeat (apply elem_of_cons in Hv as [->|Hv]; [repeat split; try reflexivity; lia|]).
  inversion Hv.
Qed.

Lemma playSample_played i cfg w :
  configInRange cfg ->
  let w' := fst (AudioMixer.playSample env i cfg w) in
  played w' = played w \/
  exists cmd, played w' = played w ++ [cmd] /\ commandInRange cmd.
Proof.
  intros (v & p & Hv & Hp & Ht & Hlo & Hhi & Hrange). run_world. cbv zeta.
  rewrite Hv, Hp, Ht. cbn [AudioMixer.orElse].
  repeat (innermost_case; cbn -[append]); auto; right; eexists; (split; [reflexivity|]);
    unfold commandInRange; cbn [cmdGain cmdStartOffset cmdSample cmdPlaybackRate];
    simplify_eq.
  all: repeat split; auto.
  all: right;
    match goal with E : (?q =? 0) = false |- _ => apply Z.eqb_neq in E; exists q end;
    repeat split; auto; lia.
Qed.

Lemma recordFiring_frame i s cfg w :
  let w' := recordFiring clock hasCallback musicContext i s cfg w in
  played w' = played w /\ playCalls w' = playCalls w /\ samples w' = samples w /\
  console w' = console w.
Proof. repeat split. Qed.

(** The eligible list holds shifts of at most six semitones. *)
Lemma selectFrom_shifts catalog : forall i w,
  forall j p, (j, p) ∈ AudioMixer.orElse
                         (match snd (selectFrom clock i catalog musicContext w) with
                          | Normal l => Some l
                          | Throw _ => None
                          end) [] ->
  -6 <= p <= 6.
Proof.
  induction catalog as [|s rest IH]; intros i w j p.
  - cbn. intros Hin. inversion Hin.
  - cbn [selectFrom]. unfold mbind, M_bind at 1. rewrite shouldTriggerSample_eq.
    unfold M_bind at 1.
    set (w1 := if autoTriggered _ then _ else _).
    specialize (IH (S i) w1 j p).
    destruct (selectFrom clock (S i) rest musicContext w1) as [w2 [more|e]];
      cbn [snd AudioMixer.orElse mret M_ret] in *; [|intros Hin; inversion Hin].
    cbn [trigger triggerPitchShift].
    destruct (passes _ _ _ _); [|exact IH].
    intros [E|Hin]%elem_of_cons; [|exact (IH Hin)].
    injection E as -> ->.
    destruct (_ && _)%bool; [apply pitchShift_bounds | lia].
Qed.

(** The second loop: every play call carries a configuration in range, and
    every source node started is in range. *)
Lemma fireAll_in_range eligible : forall w,
  (forall j p, (j, p) ∈ eligible -> -6 <= p <= 6) ->
  let w' := fst (fireAll env clock hasCallback musicContext eligible w) in
  exists newCalls newPlayed,
    playCalls w' = playCalls w ++ newCalls /\
    played w' = played w ++ newPlayed /\
    (forall c, c ∈ newCalls -> configInRange c.2) /\
    (forall cmd, cmd ∈ newPlayed -> commandInRange cmd) /\
    (List.length newPlayed <= List.length newCalls)%nat.
Proof.
  induction eligible as [|[i p] rest IH]; intros w Hshift; cbv zeta.
  - exists [], []. rewrite !app_nil_r.
    split; [reflexivity|]. split; [reflexivity|].
    split; [intros c Hc; inversion Hc|]. split; [intros c Hc; inversion Hc | reflexivity].
  - destruct (samples w !! i) as [s|] eqn:Hs.
    + rewrite (fireAll_cons _ _ _ _ _ _ _ _ _ Hs).
      set (cfg := calculatePlaybackConfig s musicContext p).
      assert (Hcfg : configInRange cfg)
        by (apply config_in_range, (Hshift i p), list_elem_of_here).
      destruct (playSample_frame env i cfg w) as (_ & _ & _ & _ & Hcalls).
      specialize (Hcalls s Hs).
      pose proof (playSample_played i cfg w Hcfg) as Hplayed. cbv zeta in Hplayed.
      destruct (AudioMixer.playSample env i cfg w) as [w1 [[]|e]]; cbn [fst] in *.
      * destruct (IH (recordFiring clock hasCallback musicContext i s cfg w1))
          as (newCalls & newPlayed & Ec & Ep & Hc & Hp & Hn).
        { intros j q Hin. apply (Hshift j q), list_elem_of_further, Hin. }
        cbn [recordFiring playCalls played] in Ec, Ep.
        destruct Hplayed as [Esame|(cmd & Eone & Hcmd)].
        -- exists ((i, s, cfg) :: newCalls), newPlayed.
           rewrite Ec, Ep, Hcalls, Esame, <- app_assoc.
           split; [reflexivity|]. split; [reflexivity|].
           split; [|split; [exact Hp | cbn [List.length]; lia]].
           intros c [->|Hin]%elem_of_cons; auto.
        -- exists ((i, s, cfg) :: newCalls), (cmd :: newPlayed).
           rewrite Ec, Ep, Hcalls, Eone, <- !app_assoc.
           split; [reflexivity|]. split; [reflexivity|].
           split; [|split; [|cbn [List.length]; lia]].
           ++ intros c [->|Hin]%elem_of_cons; auto.
           ++ intros c [->|Hin]%elem_of_cons; auto.
      * destruct Hplayed as [Esame|(cmd & Eone & Hcmd)].
        -- exists [(i, s, cfg)], []. rewrite app_nil_r.
           split; [exact Hcalls|]. split; [exact Esame|].
           split; [|split; [|cbn [List.length]; lia]].
           ++ intros c ->%list_elem_of_singleton. exact Hcfg.
           ++ intros c Hc; inversion Hc.
        -- exists [(i, s, cfg)], [cmd].
           split; [exact Hcalls|]. split; [exact Eone|].
           split; [|split; [|cbn [List.length]; lia]].
           ++ intros c ->%list_elem_of_singleton. exact Hcfg.
           ++ intros c ->%list_elem_of_singleton. exact Hcmd.
    + rewrite (fireAll_undefined _ _ _ _ _ _ _ _ Hs). exists [], []. rewrite !app_nil_r.
      split; [reflexivity|]. split; [reflexivity|].
      split; [intros c Hc; inversion Hc|]. split; [intros c Hc; inversion Hc | reflexivity].
Qed.

(** X19.  What a cycle can ask of the mixer.  Whatever the catalog, the
    context and the platform, a cycle only appends to the play calls and to
    the source nodes started.  Every new call carries a volume in
    [0.1, 1.0], a pitch shift of at most six semitones and no timing
    offset; every new source node has a gain in [0.1, 1.0], no start
    delay, a decoded buffer, and a playback rate either left alone or set to
    2^(p/12) for a shift p of one to six semitones either way; and no more
    nodes start than calls are made. *)
Theorem cycle_commands_in_range (w : World) :
  let w' := fst (evaluateAndTrigger env clock hasCallback musicContext w) in
  exists newCalls newPlayed,
    playCalls w' = playCalls w ++ newCalls /\
    played w' = played w ++ newPlayed /\
    (forall c, c ∈ newCalls -> configInRange c.2) /\
    (forall cmd, cmd ∈ newPlayed -> commandInRange cmd) /\
    (List.length newPlayed <= List.length newCalls)%nat.
Proof.
  cbv zeta.
  destruct (selectFrom_spec clock musicContext (samples w) 0%nat w)
    as (n & eligible & E & _ & _).
  pose proof (selectFrom_shifts (samples w) 0%nat w) as Hshift.
  rewrite E in Hshift. cbn [snd AudioMixer.orElse] in Hshift.
  destruct (fireAll_in_range eligible (advance n w) Hshift)
    as (newCalls & newPlayed & Ec & Ep & Hc & Hp & Hn).
  exists newCalls, newPlayed.
  unfold evaluateAndTrigger, mbind, M_bind. rewrite E.
  split; [exact Ec|]. split; [exact Ep|]. split; [exact Hc|]. split; [exact Hp | exact Hn].
Qed.

Lemma decodedFrom_refl s : decodedFrom s s.
Proof. repeat split. Qed.

Lemma decodedFrom_trans s1 s2 s3 : decodedFrom s1 s2 -> decodedFrom s2 s3 -> decodedFrom s1 s3.
Proof.
  intros (Hi & Hn & Hf & Hb & Hm & Hd) (Hi' & Hn' & Hf' & Hb' & Hm' & Hd').
  split; [congruence|]. split; [congruence|]. split; [congruence|]. split; [congruence|].
  split; [intros msg; rewrite Hm'; apply Hm|].
  intros Hsome. pose proof (Hd Hsome) as E. subst s2. apply Hd', Hsome.
Qed.

Lemma decodedFrom_catalog_refl l : Forall2 decodedFrom l l.
Proof. induction l; constructor; auto using decodedFrom_refl. Qed.

Lemma decodedFrom_catalog_trans l1 l2 l3 :
  Forall2 decodedFrom l1 l2 -> Forall2 decodedFrom l2 l3 -> Forall2 decodedFrom l1 l3.
Proof.
  intros H12. revert l3. induction H12 as [|a b l1 l2 Hab _ IH]; intros l3 H23;
    inversion H23; subst; constructor; eauto using decodedFrom_trans.
Qed.

Lemma decodedFrom_insert l i s s' :
  l !! i = Some s -> decodedFrom s s' -> Forall2 decodedFrom l (<[i := s']> l).
Proof.
  intros Hl Hd. rewrite <- (list_insert_id l i s Hl) at 1.
  apply Forall2_insert; [apply decodedFrom_catalog_refl | exact Hd].
Qed.

Lemma decodedFrom_decoding s s' :
  audioBuffer s = None ->
  (exists buf, s' = set_audioBuffer buf s) \/
  (exists msg, s' = set_metadata (set_error msg (metadata s)) s) ->
  decodedFrom s s'.
Proof.
  intros Hnone [[buf ->]|[msg ->]]; repeat split;
    intros [b Hb]; rewrite Hnone in Hb; discriminate Hb.
Qed.

(** [playSample] leaves the catalog as it is, up to the decoding of the
    sample it plays, and only adds to the console. *)
Lemma playSample_catalog i cfg w :
  let w' := fst (AudioMixer.playSample env i cfg w) in
  Forall2 decodedFrom (samples w) (samples w') /\
  exists out, console w' = console w ++ out.
Proof.
  run_world. cbv zeta.
  repeat (innermost_case; cbn -[append]).
  all: split; [|first [ exists []; rewrite app_nil_r; reflexivity
                      | rewrite <- ?app_assoc; eexists; reflexivity ]].
  all: try apply decodedFrom_catalog_refl.
  all: eapply decodedFrom_insert; [eassumption|].
  all: apply decodedFrom_decoding; [assumption|]; eauto.
Qed.

(** The second loop keeps the catalog up to decoding, touches the last
    firing of no sample but those it called the sink for, and calls the
    callback at most once per call of the sink. *)
Lemma fireAll_frame eligible : forall w,
  let r := fireAll env clock hasCallback musicContext eligible w in
  exists newCalls newTriggered out,
    playCalls (fst r) = playCalls w ++ newCalls /\
    triggered (fst r) = triggered w ++ newTriggered /\
    console (fst r) = console w ++ out /\
    Forall2 decodedFrom (samples w) (samples (fst r)) /\
    (forall k, (forall c, c ∈ newCalls -> id c.1.2 <> k) ->
               lastTriggerTimes (fst r) !! k = lastTriggerTimes w !! k) /\
    (hasCallback = false -> newTriggered = []) /\
    (List.length newTriggered <= List.length newCalls)%nat /\
    (hasCallback = true -> snd r = Normal tt -> newTriggered.*2 = newCalls.*2).
Proof.
  induction eligible as [|[i p] rest IH]; intros w; cbv zeta.
  - exists [], [], []. rewrite !app_nil_r.
    split; [reflexivity|]. split; [reflexivity|]. split; [reflexivity|].
    split; [apply decodedFrom_catalog_refl|]. split; [reflexivity|].
    split; [reflexivity|]. split; reflexivity.
  - destruct (samples w !! i) as [s|] eqn:Hs.
    + rewrite (fireAll_cons _ _ _ _ _ _ _ _ _ Hs).
      set (cfg := calculatePlaybackConfig s musicContext p).
      destruct (playSample_frame env i cfg w) as (Hltt & _ & Htrig & _ & Hcalls).
      specialize (Hcalls s Hs).
      destruct (playSample_catalog i cfg w) as (Hcat & out1 & Hout).
      destruct (AudioMixer.playSample env i cfg w) as [w1 [[]|e]]; cbn [fst snd] in *.
      * destruct (IH (recordFiring clock hasCallback musicContext i s cfg w1))
          as (newCalls & newTriggered & out & Ec & Et & Eo & Hsamples & Hkeep & Hno & Hle & Hyes).
        cbn [recordFiring playCalls triggered console samples lastTriggerTimes] in *.
        exists ((i, s, cfg) :: newCalls),
               ((if hasCallback
                 then [(AudioMixer.orElse (samples w1 !! i) s, musicContext, cfg)]
                 else []) ++ newTriggered),
               (out1 ++ out).
        split; [rewrite Ec, Hcalls, <- app_assoc; reflexivity|].
        split; [rewrite Et, Htrig; destruct hasCallback;
                rewrite <- ?app_assoc, ?app_nil_r; reflexivity|].
        split; [rewrite Eo, Hout, <- app_assoc; reflexivity|].
        split; [eapply decodedFrom_catalog_trans; eassumption|].
        split.
        { intros k Hk. rewrite Hkeep.
          - rewrite lookup_insert_ne, Hltt; [reflexivity|].
            apply (Hk (i, s, cfg)), list_elem_of_here.
          - intros c Hc. apply Hk, list_elem_of_further, Hc. }
        split; [intros ->; apply Hno; reflexivity|].
        split; [destruct hasCallback; cbn [List.length app]; lia|].
        intros -> Hr. cbn. rewrite (Hyes eq_refl Hr). reflexivity.
      * exists [(i, s, cfg)], [], out1. rewrite app_nil_r.
        split; [exact Hcalls|]. split; [exact Htrig|]. split; [exact Hout|].
        split; [exact Hcat|].
        split; [intros k _; rewrite Hltt; reflexivity|].
        split; [reflexivity|]. split; [cbn; lia|]. intros _ E. discriminate E.
    + rewrite (fireAll_undefined _ _ _ _ _ _ _ _ Hs). exists [], [], []. rewrite !app_nil_r.
      split; [reflexivity|]. split; [reflexivity|]. split; [reflexivity|].
      split; [apply decodedFrom_catalog_refl|]. split; [reflexivity|].
      split; [reflexivity|]. split; [reflexivity|]. intros _ E. discriminate E.
Qed.

(** X20.  What a cycle leaves alone.  A cycle only appends to the play
    calls, the callback calls and the console.  The catalog keeps its
    length and order, and each sample is as before but for a buffer or a
    [metadata.error] attached by decoding, a sample that held its buffer
    being untouched.  The last firing time of an id none of whose samples
    was handed to the mixer is unchanged.  Without a callback none is
    called; with one, never more often than the mixer, and in a cycle that
    completes exactly once per call, with the same configuration, in the
    same order. *)
Theorem cycle_frame (w : World) :
  let r := evaluateAndTrigger env clock hasCallback musicContext w in
  exists newCalls newTriggered out,
    playCalls (fst r) = playCalls w ++ newCalls /\
    triggered (fst r) = triggered w ++ newTriggered /\
    console (fst r) = console w ++ out /\
    Forall2 decodedFrom (samples w) (samples (fst r)) /\
    (forall k, (forall c, c ∈ newCalls -> id c.1.2 <> k) ->
               lastTriggerTimes (fst r) !! k = lastTriggerTimes w !! k) /\
    (hasCallback = false -> newTriggered = []) /\
    (List.length newTriggered <= List.length newCalls)%nat /\
    (hasCallback = true -> snd r = Normal tt -> newTriggered.*2 = newCalls.*2).
Proof.
  cbv zeta.
  destruct (selectFrom_spec clock musicContext (samples w) 0%nat w)
    as (n & eligible & E & _ & _).
  destruct (fireAll_frame eligible (advance n w))
    as (newCalls & newTriggered & out & H1 & H2 & H3 & H4 & H5 & H6 & H7 & H8).
  exists newCalls, newTriggered, out.
  unfold evaluateAndTrigger, mbind, M_bind. rewrite E.
  split; [exact H1|]. split; [exact H2|]. split; [exact H3|]. split; [exact H4|].
  split; [exact H5|]. split; [exact H6|]. split; [exact H7 | exact H8].
Qed.

(** X21.  The rate limit with the sample's own interval.  The interval is
    [metadata.minimumIntervalMs], 3000 ms where that is missing, and the
    last firing counts as time 0 where the id has none.  A sample whose
    decision comes earlier than one interval after its last firing is not
    handed to the mixer in that cycle; one at or after it, of a type that
    fires on its own and with a score above 0.7, is selected. *)
Theorem rate_limit_any_interval (w : World) (i : nat) (s : UserSample) :
  samples w !! i = Some s ->
  let lastFired := AudioMixer.orElse (lastTriggerTimes w !! id s) 0 in
  let interval := AudioMixer.orElse (minimumIntervalMs (metadata s)) 3000 in
  (decisionTime clock w i - lastFired < interval ->
   exists new,
     playCalls (fst (evaluateAndTrigger env clock hasCallback musicContext w))
     = playCalls w ++ new /\
     forall c, c ∈ new -> c.1.1 <> i) /\
  (interval <= decisionTime clock w i - lastFired ->
   autoTriggered (sampleType (metadata s)) = true ->
   (0.7 <? totalScore s musicContext)%float = true ->
   exists w1 eligible p,
     selectFrom clock 0 (samples w) musicContext w = (w1, Normal eligible) /\
     (i, p) ∈ eligible).
Proof.
  intros Hs lastFired interval. split.
  - intros Hearly.
    destruct (evaluateAndTrigger_calls env clock hasCallback musicContext w)
      as (new & E & Hnew).
    exists new. split; [exact E|].
    intros c Hc Hi. destruct (Hnew c Hc) as (s' & Hs' & Hp).
    rewrite Hi in Hs', Hp. rewrite Hs in Hs'. injection Hs' as <-.
    unfold passes in Hp. fold lastFired interval in Hp.
    destruct (Z.ltb_spec (decisionTime clock w i - lastFired) interval); [|lia].
    rewrite andb_false_r in Hp. discriminate Hp.
  - intros Hlate Hauto Hscore.
    destruct (selectFrom_spec clock musicContext (samples w) 0%nat w)
      as (n & eligible & E & _ & Hcomplete).
    destruct (Hcomplete i s Hs) as [p Hin].
    { unfold passes. fold (decisionTime clock w i). fold lastFired interval.
      rewrite Hauto, Hscore.
      destruct (Z.ltb_spec (decisionTime clock w i - lastFired) interval); [lia | reflexivity]. }
    exists (advance n w), eligible, p. split; [exact E | exact Hin].
Qed.

End SchedulerFacts.

Section MixerFacts.
Context `{MathLib}.
Variable env : AudioEnv.

(** X1.  What decoding leaves.  [decodeAndStoreAudioBuffer] on a sample of
    the catalog never throws.  It returns true exactly when the sample holds
    a buffer afterwards, which is exactly when it held one already or its
    bytes (the file's when the file reads, else the base64 text's) are
    accepted by the decoder; on false [metadata.error] is set.  The sample
    is otherwise as before, a sample that held its buffer leaves the world
    as it was, and no source node, play call, firing time or clock reading
    is touched. *)
Theorem decodeAndStoreAudioBuffer_outcome (i : nat) (sample : UserSample) (w : World) :
  samples w !! i = Some sample ->
  exists w' decoded sample',
    AudioMixer.decodeAndStoreAudioBuffer env i sample w = (w', Normal decoded) /\
    samples w' = <[i := sample']> (samples w) /\
    decodedFrom sample sample' /\
    (decoded = true <-> is_Some (audioBuffer sample')) /\
    (decoded = true <-> playable env sample) /\
    (decoded = false -> is_Some (error (metadata sample'))) /\
    (is_Some (audioBuffer sample) -> w' = w) /\
    played w' = played w /\ playCalls w' = playCalls w /\
    lastTriggerTimes w' = lastTriggerTimes w /\ clockReads w' = clockReads w.
Proof.
  intros Hs. unfold playable, bytesToDecode. run_world.
  repeat (innermost_case; cbn -[append]).
  all: eexists _, _, _; split; [reflexivity|]; cbn -[append].
  all: split; [first [reflexivity | symmetry; apply list_insert_id; exact Hs]|].
  all: split; [first [apply decodedFrom_refl
                     | apply decodedFrom_decoding; [assumption | eauto]]|].
  all: cbn [audioBuffer set_audioBuffer set_metadata metadata set_error error].
  all: repeat match goal with E : audioBuffer _ = _ |- _ => rewrite E end.
  all: repeat split; try reflexivity; try discriminate; eauto.
  all: try (intros _; right; eexists _, _; split; [reflexivity | eassumption]).
  all: try (intros [x Hx]; discriminate Hx).
  all: try (intros [[x Hx]|(bytes & buf & E1 & E2)]; simplify_eq).
  all: try (intros [x Hx]; discriminate Hx).
  all: congruence.
Qed.

(** A play call on a sample that holds its buffer: no decoding, one source
    node. *)
Lemma playSample_decoded env' i config w sample :
  samples w !! i = Some sample -> is_Some (audioBuffer sample) ->
  graphFailure env' sample config = None ->
  exists cmd,
    AudioMixer.playSample env' i config w
    = ({| samples := samples w; lastTriggerTimes := lastTriggerTimes w;
          clockReads := clockReads w; playCalls := playCalls w ++ [(i, sample, config)];
          played := played w ++ [cmd]; triggered := triggered w; console := console w |},
       Normal tt) /\
    cmdSample cmd = sample /\
    cmdGain cmd = AudioMixer.orElse (volume config) 1%float /\
    cmdStartOffset cmd = AudioMixer.orElse (timingOffset config) 0%float.
Proof.
  intros Hs [buf Hb] Hg. run_world. rewrite Hs. cbn -[append]. rewrite Hb. cbn -[append].
  rewrite Hs, Hg. eexists. split; [reflexivity|]. repeat split.
Qed.

(** X2.  A sample is decoded once.  When [playSample] meets a sample
    without a buffer whose bytes decode, and the audio graph does not fail,
    the decoded buffer is stored in the catalog and one source node starts
    with it.  Any later [playSample] of that sample, on whatever platform
    and with whatever configuration, as long as the graph does not fail,
    starts one source node with that same buffer, decodes nothing, leaves
    the catalog as it is and logs nothing. *)
Theorem playSample_decodes_once (i : nat) (config : PlaybackConfig) (w : World)
    (sample : UserSample) (bytes : list Byte.byte) (buf : AudioBuffer) :
  samples w !! i = Some sample ->
  audioBuffer sample = None ->
  bytesToDecode env sample = Some bytes ->
  decodeAudioData env bytes = Normal buf ->
  graphFailure env (set_audioBuffer buf sample) config = None ->
  let w1 := fst (AudioMixer.playSample env i config w) in
  samples w1 = <[i := set_audioBuffer buf sample]> (samples w) /\
  (exists cmd, played w1 = played w ++ [cmd] /\ cmdSample cmd = set_audioBuffer buf sample) /\
  forall env' config',
    graphFailure env' (set_audioBuffer buf sample) config' = None ->
    let w2 := fst (AudioMixer.playSample env' i config' w1) in
    samples w2 = samples w1 /\ console w2 = console w1 /\
    exists cmd', played w2 = played w1 ++ [cmd'] /\
                 cmdSample cmd' = set_audioBuffer buf sample.
Proof.
  intros Hs Hnone Hbytes Hdec Hg.
  assert (Hi : (i < List.length (samples w))%nat) by (apply lookup_lt_is_Some_1; eauto).
  assert (E : exists cmd,
             samples (fst (AudioMixer.playSample env i config w))
             = <[i := set_audioBuffer buf sample]> (samples w) /\
             played (fst (AudioMixer.playSample env i config w)) = played w ++ [cmd] /\
             cmdSample cmd = set_audioBuffer buf sample).
  { unfold bytesToDecode in Hbytes. run_world. rewrite Hs. cbn -[append].
    rewrite Hnone. cbn -[append].
    destruct (originalFile sample) as [f|];
      [destruct (fileArrayBuffer env f) as [b|e]|]; cbn -[append] in *.
    - injection Hbytes as ->. rewrite Hdec. cbn -[append].
      rewrite list_lookup_insert_eq by exact Hi. cbn -[append].
      rewrite list_lookup_insert_eq by exact Hi. rewrite Hg.
      eexists. repeat split.
    - destruct (base64 sample) as [[|c b64]|]; try discriminate Hbytes.
      destruct (atob env (String c b64)) as [b|e']; [|discriminate Hbytes].
      injection Hbytes as ->. cbn -[append]. rewrite Hdec. cbn -[append].
      rewrite list_lookup_insert_eq by exact Hi. cbn -[append].
      rewrite list_lookup_insert_eq by exact Hi. rewrite Hg.
      eexists. repeat split.
    - destruct (base64 sample) as [[|c b64]|]; try discriminate Hbytes.
      destruct (atob env (String c b64)) as [b|e']; [|discriminate Hbytes].
      injection Hbytes as ->. cbn -[append]. rewrite Hdec. cbn -[append].
      rewrite list_lookup_insert_eq by exact Hi. cbn -[append].
      rewrite list_lookup_insert_eq by exact Hi. rewrite Hg.
      eexists. repeat split. }
  destruct E as (cmd & Hsamples & Hplayed & Hcmd). cbv zeta.
  split; [exact Hsamples|]. split; [exists cmd; auto|].
  intros env' config' Hg'.
  destruct (playSample_decoded env' i config' (fst (AudioMixer.playSample env i config w))
              (set_audioBuffer buf sample)) as (cmd' & E' & Hcmd' & _).
  - rewrite Hsamples. apply list_lookup_insert_eq, Hi.
  - eexists; reflexivity.
  - exact Hg'.
  - rewrite E'. cbn [fst samples played console].
    split; [reflexivity|]. split; [reflexivity|]. exists cmd'. auto.
Qed.

End MixerFacts.

(** The hi-hat, uploaded and not yet decoded. *)
Lemma decodeAndStoreAudioBuffer_outcome_witness :
  samples hatAlone !! 0%nat = Some uploadedHat /\
  exists w' decoded sample',
    AudioMixer.decodeAndStoreAudioBuffer studioEnv 0 uploadedHat hatAlone
    = (w', Normal decoded) /\
    samples w' = <[0%nat := sample']> (samples hatAlone) /\
    decodedFrom uploadedHat sample'.
Proof.
  split; [reflexivity|].
  destruct (decodeAndStoreAudioBuffer_outcome studioEnv 0 uploadedHat hatAlone eq_refl)
    as (w' & decoded & sample' & E & Hsamples & Hfrom & _).
  exists w', decoded, sample'. split; [exact E|]. split; [exact Hsamples | exact Hfrom].
Defined.

(** The hi-hat played twice: the second play finds the buffer. *)
Lemma playSample_decodes_once_witness :
  samples hatAlone !! 0%nat = Some uploadedHat /\
  audioBuffer uploadedHat = None /\
  bytesToDecode studioEnv uploadedHat = Some [Byte.x52; Byte.x49; Byte.x46; Byte.x46] /\
  samples (fst (AudioMixer.playSample (H := exampleMath) studioEnv 0 emptyConfig hatAlone))
  = [set_audioBuffer exampleBuffer uploadedHat].
Proof.
  split; [reflexivity|]. split; [reflexivity|]. split; [reflexivity|].
  destruct (playSample_decodes_once (H := exampleMath) studioEnv 0 emptyConfig hatAlone
              uploadedHat [Byte.x52; Byte.x49; Byte.x46; Byte.x46] exampleBuffer
              eq_refl eq_refl eq_refl eq_refl eq_refl) as (Hsamples & _).
  exact Hsamples.
Defined.

(** The hi-hat, fired at 8 s with an interval of 500 ms, is not played at
    8.4 s. *)
Lemma rate_limit_any_interval_witness :
  samples hatFiredAt8s !! 0%nat = Some uploadedHat /\
  exists new,
    playCalls (fst (SmartSampleTrigger.evaluateAndTrigger (H := exampleMath) studioEnv
                      (steadyClock 8400) true scenarioContext hatFiredAt8s))
    = playCalls hatFiredAt8s ++ new /\
    forall c, c ∈ new -> c.1.1 <> 0%nat.
Proof.
  split; [reflexivity|].
  destruct (rate_limit_any_interval (H := exampleMath) studioEnv (steadyClock 8400) true
              scenarioContext hatFiredAt8s 0 uploadedHat eq_refl) as [Hearly _].
  apply Hearly. vm_compute. reflexivity.
Defined.

(** ** The action history *)

Section HistoryFacts.
Import LearningEngine.
Context {Details : Type}.

Lemma recordUserAction_step (a : UserAction Details) h :
  let h' := recordUserAction Details (actionTimestamp _ a) (actionType _ a) (actionDetails _ a) h in
  (List.length h <= 75)%nat ->
  (List.length h' <= 75)%nat /\
  h' `suffix_of` h ++ [a] /\
  (Nat.min (S (List.length h)) 50 <= List.length h')%nat.
Proof.
  cbv zeta. intros Hle. unfold recordUserAction, sliceLast, MAX_HISTORY_ITEMS.
  destruct a as [t ty d]; cbn [actionTimestamp actionType actionDetails].
  set (pushed := h ++ _).
  assert (Hp : List.length pushed = S (List.length h))
    by (subst pushed; rewrite length_app; cbn; lia).
  destruct (Nat.ltb_spec (3 * 50) (2 * List.length pushed)) as [Hover|Hfits].
  - split; [rewrite length_skipn; lia|].
    split; [apply suffix_drop|]. rewrite length_skipn. lia.
  - split; [lia|]. split; [reflexivity | lia].
Qed.

Lemma historyAfter_snoc (actions : list (UserAction Details)) a :
  historyAfter (actions ++ [a])
  = recordUserAction Details (actionTimestamp _ a) (actionType _ a) (actionDetails _ a)
      (historyAfter actions).
Proof. unfold historyAfter. rewrite fold_left_app. reflexivity. Qed.

(** X22.  The action history is bounded and loses nothing recent.  After
    any series of recorded actions the history holds at most 75 of them,
    they are the latest ones in the order recorded, and at least
    min(number recorded, 50) are kept. *)
Theorem history_bounded (actions : list (UserAction Details)) :
  let h := historyAfter actions in
  (List.length h <= 75)%nat /\
  h `suffix_of` actions /\
  (Nat.min (List.length actions) 50 <= List.length h)%nat.
Proof.
  cbv zeta. induction actions as [|a actions IH] using rev_ind.
  - cbn. split; [lia|]. split; [reflexivity | lia].
  - destruct IH as (Hle & Hsuf & Hmin).
    rewrite historyAfter_snoc.
    destruct (recordUserAction_step a (historyAfter actions) Hle) as (H1 & H2 & H3).
    split; [exact H1|]. split.
    + etransitivity; [exact H2|]. apply suffix_app, Hsuf.
    + rewrite length_app. cbn [List.length]. lia.
Qed.

End HistoryFacts.

(** ** The PCM decoder *)

Section DecoderFacts.
Import Utils.
Variable createBufferFailure : N -> N -> float -> option string.

(** Induction on a list of bytes, two at a time. *)
Lemma byte_pairs_ind (P : list Byte.byte -> Prop) :
  P [] -> (forall b, P [b]) -> (forall lo hi rest, P rest -> P (lo :: hi :: rest)) ->
  forall bytes, P bytes.
Proof.
  intros H0 H1 H2. fix IH 1.
  intros [|lo [|hi rest]]; [apply H0 | apply H1 | apply H2, IH].
Qed.

Lemma int16Array_range bytes : Forall (fun v => -32768 <= v < 32768) (int16Array bytes).
Proof.
  induction bytes as [|b|lo hi rest IH] using byte_pairs_ind; cbn [int16Array];
    constructor; [|exact IH].
  pose proof (Byte.to_N_bounded lo). pose proof (Byte.to_N_bounded hi).
  destruct (Z.ltb_spec (Z.of_N (Byte.to_N lo) + 256 * Z.of_N (Byte.to_N hi)) 32768); lia.
Qed.

Lemma int16Array_length bytes :
  List.length (int16Array bytes) = (List.length bytes / 2)%nat.
Proof.
  induction bytes as [|b|lo hi rest IH] using byte_pairs_ind;
    cbn [int16Array List.length]; try reflexivity.
  rewrite IH.
  change (S (S (List.length rest))) with (1 * 2 + List.length rest)%nat.
  rewrite Nat.div_add_l by lia. lia.
Qed.

Lemma holdsFrom_spec P fuel : forall v0 v,
  holdsFrom P fuel v0 = true -> v0 <= v < v0 + Z.of_nat fuel -> P v = true.
Proof.
  induction fuel as [|fuel IH]; intros v0 v Hall Hv; [lia|].
  cbn [holdsFrom] in Hall. apply andb_true_iff in Hall as [Hhere Hrest].
  destruct (Z.eq_dec v v0) as [->|Hne]; [exact Hhere|].
  apply (IH (v0 + 1)); [exact Hrest | lia].
Qed.

Lemma pcm_value_in_range v :
  -32768 <= v < 32768 -> pcmSample (Math_fround (ofZ v / 32768)%float) = true.
Proof.
  intros Hv.
  apply (holdsFrom_spec (fun v => pcmSample (Math_fround (ofZ v / 32768)%float))
                        (Z.to_nat 65536) (-32768)); [vm_compute; reflexivity|].
  rewrite Z2Nat.id; lia.
Qed.

(** The inner loop, when every index it computes is in the view: no
    console output, and the values of the channel in order. *)
Lemma decodeChannel_spec values numChannels channel : forall samplesPerChannel,
  (forall i, (i < samplesPerChannel)%nat ->
             (i * numChannels + channel < List.length values)%nat) ->
  decodeChannel values numChannels channel samplesPerChannel
  = ([], map (fun i => Math_fround
                         (ofZ (values !!! (i * numChannels + channel)%nat) / 32768)%float)
             (seq 0 samplesPerChannel)).
Proof.
  unfold decodeChannel.
  induction samplesPerChannel as [|n IH]; intros Hin; [reflexivity|].
  rewrite seq_S, fold_left_app, map_app. cbn [fold_left map Nat.add].
  rewrite IH by (intros i Hi; apply Hin; lia). cbn [fst snd].
  destruct (lookup_lt_is_Some_2 values (n * numChannels + channel)) as [v Hv];
    [apply Hin; lia|].
  rewrite Hv, (list_lookup_total_correct _ _ _ Hv). reflexivity.
Qed.

Lemma silence_pcmBuffer n len rate b :
  createBuffer createBufferFailure n len rate = Normal b ->
  length b = len /\ numberOfChannels b = n /\ sampleRate b = rate /\ pcmBuffer b.
Proof.
  unfold createBuffer. destruct (createBufferFailure n len rate); [discriminate|].
  intros E. injection E as <-. cbn. repeat split.
  - apply repeat_length.
  - apply Forall_forall. intros ch Hch. apply list_elem_of_In, repeat_spec in Hch. subst ch.
    split; [apply repeat_length|].
    apply Forall_forall. intros x Hx. apply list_elem_of_In, repeat_spec in Hx. subst x.
    reflexivity.
Qed.

(** X23.  The decoder always hands over a usable buffer.  On a platform
    whose [createBuffer] accepts the channel count and rate, whatever the
    bytes (none, too few, an odd count, a misaligned view):
    [decodeAudioData] returns a buffer of non-zero length with the channel
    count and sample rate asked for, all its channels present and as long
    as the buffer, every sample in [-1, 1); and
    [handleNewLyriaAudioBuffer] never rejects such a buffer as invalid. *)
Theorem decodeAudioData_buffer (data : option (list Byte.byte)) (byteOffset : N)
    (rate : float) (numChannels : N) :
  (forall len, createBufferFailure numChannels len rate = None) ->
  exists out b,
    decodeAudioData createBufferFailure data byteOffset rate numChannels
    = (out, Normal b) /\
    length b <> 0%N /\
    numberOfChannels b = numChannels /\
    sampleRate b = rate /\
    pcmBuffer b /\
    (forall ctxSampleRate now s,
       (ContextAwareLyriaSession.handleNewLyriaAudioBuffer ctxSampleRate now (Some b) s).1.2
       = []).
Proof.
  intros Hok.
  assert (Hsilent : exists b,
             createBuffer createBufferFailure numChannels 1 rate = Normal b /\
             length b <> 0%N /\ numberOfChannels b = numChannels /\
             sampleRate b = rate /\ pcmBuffer b).
  { destruct (createBuffer createBufferFailure numChannels 1 rate) as [b|e] eqn:E.
    - destruct (silence_pcmBuffer _ _ _ _ E) as (Hl & Hn & Hr & Hp).
      exists b. rewrite Hl. split; [reflexivity|]. split; [lia|]. auto.
    - unfold createBuffer in E. rewrite Hok in E. discriminate E. }
  assert (Hguard : forall b, length b <> 0%N ->
            forall ctxSampleRate now s,
              (ContextAwareLyriaSession.handleNewLyriaAudioBuffer ctxSampleRate now (Some b) s).1.2
              = []).
  { intros b Hb r now s. unfold ContextAwareLyriaSession.handleNewLyriaAudioBuffer.
    destruct (N.eqb_spec (length b) 0) as [E|_]; [contradiction|].
    destruct (ContextAwareLyriaSession.evict _ _ _). destruct (_ && _)%bool; reflexivity. }
  assert (Hfallback : forall out : list LogEntry, exists out' b,
             (out, createBuffer createBufferFailure numChannels 1 rate) = (out', Normal b) /\
             length b <> 0%N /\ numberOfChannels b = numChannels /\
             sampleRate b = rate /\ pcmBuffer b /\
             (forall ctxSampleRate now s,
                (ContextAwareLyriaSession.handleNewLyriaAudioBuffer ctxSampleRate now (Some b) s).1.2
                = [])).
  { intros out. destruct Hsilent as (b & -> & Hl & Hn & Hr & Hp).
    exists out, b. split; [reflexivity|]. split; [exact Hl|]. split; [exact Hn|].
    split; [exact Hr|]. split; [exact Hp | apply Hguard, Hl]. }
  unfold decodeAudioData.
  set (byteLength := match data with Some bytes => _ | None => _ end).
  destruct (N.eqb_spec byteLength 0) as [_|Hlen]; [apply Hfallback|].
  destruct (N.eqb_spec numChannels 0) as [_|Hn]; cbn [orb]; [apply Hfallback|].
  destruct (N.eqb_spec (byteLength mod (2 * numChannels)) 0) as [Hmod|_]; cbn [negb];
    [|apply Hfallback].
  destruct (N.eqb_spec (byteLength / 2 / numChannels) 0) as [_|Hspc]; [apply Hfallback|].
  destruct (createBuffer createBufferFailure numChannels (byteLength / 2 / numChannels)
                         rate) as [ab|e] eqn:Eab.
  2: { unfold createBuffer in Eab. rewrite Hok in Eab. discriminate Eab. }
  destruct (silence_pcmBuffer _ _ _ _ Eab) as (Hl & Hnc & Hr & _).
  destruct (N.eqb_spec (byteOffset mod 2) 0) as [_|_]; cbn [negb]; [|apply Hfallback].
  eexists _, _. split; [reflexivity|].
  cbn [length numberOfChannels sampleRate].
  split; [rewrite Hl; exact Hspc|]. split; [exact Hnc|]. split; [exact Hr|].
  split; [|apply Hguard; cbn [length]; rewrite Hl; exact Hspc].
  unfold pcmBuffer. cbn [length numberOfChannels channelData].
  rewrite !length_map, length_seq, Hnc. split; [reflexivity|].
  apply Forall_forall. intros ch Hch.
  apply list_elem_of_fmap in Hch as (r & -> & Hr').
  apply list_elem_of_fmap in Hr' as (c & -> & Hc).
  unfold decodeChannel.
  set (n := N.to_nat numChannels). set (spc := N.to_nat _).
  rewrite Hl. fold spc.
  assert (Hgen : forall len acc,
            List.length (snd acc) = len /\ Forall (fun x => pcmSample x = true) (snd acc) ->
            forall k start,
            let r := fold_left
                       (fun acc i =>
                          match int16Array (default [] data) !! (i * n + c)%nat with
                          | Some v => (fst acc, snd acc ++ [Math_fround (ofZ v / 32768)%float])
                          | None => (fst acc ++ [Error ("decodeAudioData: sampleIndex out of bounds. Index: "
                               +:+ pretty (i * n + c)%nat +:+ ", Int16Array length: "
                               +:+ pretty (List.length (int16Array (default [] data)))
                               +:+ ". This indicates a miscalculation.")],
                                      snd acc ++ [0%float])
                          end) (seq start k) acc in
            List.length (snd r) = (len + k)%nat /\ Forall (fun x => pcmSample x = true) (snd r)).
  { intros len acc Hacc k. revert len acc Hacc.
    induction k as [|k IH]; intros len acc [Hlen' Hall] start; cbn [seq fold_left].
    - split; [lia | exact Hall].
    - replace (len + S k)%nat with (S len + k)%nat by lia.
      apply IH.
      destruct (int16Array (default [] data) !! (start * n + c)%nat) as [v|] eqn:Ev;
        cbn [snd]; rewrite length_app; cbn [List.length]; (split; [lia|]);
        apply Forall_app; (split; [exact Hall|]); repeat constructor.
      apply pcm_value_in_range.
      pose proof (int16Array_range (default [] data)) as Hrange.
      rewrite Forall_forall in Hrange. apply Hrange. eapply list_elem_of_lookup_2, Ev. }
  apply (Hgen 0%nat ([], []) (conj eq_refl (Forall_nil_2 _)) spc 0%nat).
Qed.

(** X24.  De-interleaving.  For 2 x channels x frames bytes at an even
    offset, with at least one channel and one frame: nothing is logged, the
    buffer has that many frames, and sample i of channel c is the
    little-endian 16-bit value at index i x channels + c, divided by
    32768. *)
Theorem decodeAudioData_deinterleaves (bytes : list Byte.byte) (byteOffset : N)
    (rate : float) (numChannels samplesPerChannel : nat) :
  numChannels <> 0%nat -> samplesPerChannel <> 0%nat ->
  List.length bytes = (2 * numChannels * samplesPerChannel)%nat ->
  (byteOffset mod 2 = 0)%N ->
  (forall len, createBufferFailure (N.of_nat numChannels) len rate = None) ->
  exists b,
    decodeAudioData createBufferFailure (Some bytes) byteOffset rate (N.of_nat numChannels)
    = ([], Normal b) /\
    length b = N.of_nat samplesPerChannel /\
    duration b = (ofZ (Z.of_nat samplesPerChannel) / rate)%float /\
    channelData b
    = map (fun channel =>
             map (fun i => Math_fround
                             (ofZ (int16Array bytes !!! (i * numChannels + channel)%nat)
                              / 32768)%float)
                 (seq 0 samplesPerChannel))
          (seq 0 numChannels).
Proof.
  intros Hn Hspc Hlen Halign Hok. unfold decodeAudioData.
  rewrite Hlen.
  destruct (N.eqb_spec (N.of_nat (2 * numChannels * samplesPerChannel)) 0) as [E|_]; [lia|].
  destruct (N.eqb_spec (N.of_nat numChannels) 0) as [E|_]; [lia|]. cbn [orb].
  assert (Hmod : (N.of_nat (2 * numChannels * samplesPerChannel)
                  mod (2 * N.of_nat numChannels) = 0)%N).
  { replace (N.of_nat (2 * numChannels * samplesPerChannel))
      with (N.of_nat samplesPerChannel * (2 * N.of_nat numChannels))%N by lia.
    apply N.Div0.mod_mul. }
  rewrite Hmod. cbn [N.eqb negb].
  assert (Hdiv : (N.of_nat (2 * numChannels * samplesPerChannel) / 2 / N.of_nat numChannels
                  = N.of_nat samplesPerChannel)%N).
  { replace (N.of_nat (2 * numChannels * samplesPerChannel))
      with (N.of_nat numChannels * N.of_nat samplesPerChannel * 2)%N by lia.
    rewrite N.div_mul by lia. rewrite N.mul_comm. apply N.div_mul. lia. }
  rewrite Hdiv.
  destruct (N.eqb_spec (N.of_nat samplesPerChannel) 0) as [E|_]; [lia|].
  unfold createBuffer. rewrite Hok, Halign. cbn [N.eqb negb default].
  cbn [length numberOfChannels sampleRate duration].
  rewrite !Nat2N.id.
  assert (Hch : map (fun channel =>
                       decodeChannel (int16Array bytes) numChannels channel samplesPerChannel)
                    (seq 0 numChannels)
                = map (fun channel =>
                         ([], map (fun i => Math_fround
                                     (ofZ (int16Array bytes !!! (i * numChannels + channel)%nat)
                                      / 32768)%float)
                                  (seq 0 samplesPerChannel)))
                      (seq 0 numChannels)).
  { apply map_ext_in. intros c Hc. apply in_seq in Hc.
    apply decodeChannel_spec. intros i Hi.
    rewrite int16Array_length, Hlen.
    replace (2 * numChannels * samplesPerChannel)%nat
      with (numChannels * samplesPerChannel * 2)%nat by lia.
    rewrite Nat.div_mul by lia. nia. }
  change (Datatypes.id bytes) with bytes.
  rewrite Hch, !map_map. cbn [fst snd].
  eexists. split.
  - apply (f_equal (fun out => (out, _))).
    clear Hch. induction (seq 0 numChannels) as [|c l IH]; [reflexivity | exact IH].
  - cbn [length duration channelData]. rewrite nat_N_Z. repeat split.
Qed.

End DecoderFacts.

(** A null chunk on two channels. *)
Lemma decodeAudioData_buffer_witness :
  (forall len, anyBuffer 2 len 48000%float = None) /\
  exists out b,
    Utils.decodeAudioData anyBuffer None 0 48000 2 = (out, Normal b) /\
    length b <> 0%N /\ pcmBuffer b.
Proof.
  assert (Hany : forall len, anyBuffer 2 len 48000%float = None) by (intros len; reflexivity).
  split; [exact Hany|].
  destruct (decodeAudioData_buffer anyBuffer None 0 48000%float 2 Hany)
    as (out & b & E & Hlen & _ & _ & Hpcm & _).
  exists out, b. split; [exact E|]. split; [exact Hlen | exact Hpcm].
Defined.

(** Two stereo frames: the left channel gets the first and third value. *)
Lemma decodeAudioData_deinterleaves_witness :
  List.length stereoChunk = (2 * 2 * 2)%nat /\
  exists b,
    Utils.decodeAudioData anyBuffer (Some stereoChunk) 0 48000 2 = ([], Normal b) /\
    channelData b = [[0.5; 32767 / 32768]; [-0.5; -1]]%float.
Proof.
  split; [reflexivity|].
  destruct (decodeAudioData_deinterleaves anyBuffer stereoChunk 0 48000%float 2 2)
    as (b & E & _ & _ & Hdata).
  - discriminate.
  - discriminate.
  - reflexivity.
  - reflexivity.
  - intros len. reflexivity.
  - exists b. split; [exact E|]. rewrite Hdata. reflexivity.
Defined.
